(** * accm-next: plan management route and relational schema

    A shallow embedding of
      - the [/api/plans] route handlers ([GET], [POST]) with the [planSchema]
        they validate against, and
      - the relational schema of the migration (tables, primary keys, unique
        indexes, foreign keys with their delete actions),
    together with the properties of the enrollment, plan and guest-assessment
    workflows that rest on them. *)

From Stdlib Require Import ZArith QArith Qround Qreduction Qabs String Ascii List Bool.
From Stdlib Require Import Lia Lqa Permutation Sorted.
Import ListNotations.

Set Warnings "-register-all".

Local Open Scope string_scope.
Local Open Scope Z_scope.

(** ** JavaScript values and the two coercions the route uses *)

Module JS.

(** A JavaScript number: [NaN], the two infinities, or a finite value.
    Finite values are kept exact (a rational); the rounding of binary64 and
    the sign of zero are not modelled.  [0 < -0] is false in JavaScript as
    well, and no response of the handlers depends on the sign of a zero. *)
Inductive number : Type :=
| NaN
| PosInf
| NegInf
| Fin (q : Q).

Definition of_Z (z : Z) : number := Fin (z # 1).

Definition Qltb (a b : Q) : bool := negb (Qle_bool b a).

Definition Qsign (q : Q) : Z := Z.sgn (Qnum q).

(** [a < b] of JavaScript: false as soon as one side is [NaN]. *)
Definition lt (a b : number) : bool :=
  match a, b with
  | NaN, _ | _, NaN => false
  | _, NegInf => false
  | NegInf, _ => true
  | PosInf, _ => false
  | Fin _, PosInf => true
  | Fin x, Fin y => Qltb x y
  end.

Definition neg (a : number) : number :=
  match a with
  | NaN => NaN
  | PosInf => NegInf
  | NegInf => PosInf
  | Fin q => Fin (Qred (- q))
  end.

Definition add (a b : number) : number :=
  match a, b with
  | NaN, _ | _, NaN => NaN
  | PosInf, NegInf | NegInf, PosInf => NaN
  | PosInf, _ | _, PosInf => PosInf
  | NegInf, _ | _, NegInf => NegInf
  | Fin x, Fin y => Fin (Qred (x + y))
  end.

Definition sub (a b : number) : number := add a (neg b).

Definition signed_inf (s : Z) : number :=
  if s =? 0 then NaN else if s <? 0 then NegInf else PosInf.

Definition mul (a b : number) : number :=
  match a, b with
  | NaN, _ | _, NaN => NaN
  | PosInf, PosInf | NegInf, NegInf => PosInf
  | PosInf, NegInf | NegInf, PosInf => NegInf
  | PosInf, Fin y | Fin y, PosInf => signed_inf (Qsign y)
  | NegInf, Fin y | Fin y, NegInf => signed_inf (- Qsign y)
  | Fin x, Fin y => Fin (Qred (x * y))
  end.

Definition div (a b : number) : number :=
  match a, b with
  | NaN, _ | _, NaN => NaN
  | (PosInf | NegInf), (PosInf | NegInf) => NaN
  | PosInf, Fin y => if Qsign y <? 0 then NegInf else PosInf
  | NegInf, Fin y => if Qsign y <? 0 then PosInf else NegInf
  | Fin _, (PosInf | NegInf) => Fin 0
  | Fin x, Fin y =>
      if Qsign y =? 0 then signed_inf (Qsign x) else Fin (Qred (x / y))
  end.

(** [Math.ceil] *)
Definition Math_ceil (a : number) : number :=
  match a with
  | Fin q => of_Z (Qceiling q)
  | _ => a
  end.

(** [Number.isInteger] *)
Definition Number_isInteger (a : number) : bool :=
  match a with
  | Fin q => Pos.eqb (Qden (Qred q)) 1
  | _ => false
  end.

(** The integer a number stands for, when it is one. *)
Definition to_int (a : number) : option Z :=
  match a with
  | Fin q => if Pos.eqb (Qden (Qred q)) 1 then Some (Qnum (Qred q)) else None
  | _ => None
  end.

(** *** Characters and digit strings *)

Definition code (c : ascii) : Z := Z.of_N (N_of_ascii c).

Definition is_digit (c : ascii) : bool := (48 <=? code c) && (code c <=? 57).

Definition digit_value (c : ascii) : Z := code c - 48.

Definition hex_value (c : ascii) : option Z :=
  let n := code c in
  if (48 <=? n) && (n <=? 57) then Some (n - 48)
  else if (97 <=? n) && (n <=? 102) then Some (n - 87)
  else if (65 <=? n) && (n <=? 70) then Some (n - 55)
  else None.

Definition is_hex_digit (c : ascii) : bool :=
  match hex_value c with Some _ => true | None => false end.

(** White space and line terminators that [TrimString] removes (the ASCII
    ones: TAB, LF, VT, FF, CR, SP). *)
Definition is_white_space (c : ascii) : bool :=
  let n := code c in ((9 <=? n) && (n <=? 13)) || (n =? 32).

Fixpoint trim_start (s : string) : string :=
  match s with
  | String c r => if is_white_space c then trim_start r else s
  | EmptyString => s
  end.

(** The longest prefix of characters satisfying [p], and what follows it. *)
Fixpoint span (p : ascii -> bool) (s : string) : string * string :=
  match s with
  | String c r =>
      if p c then let (a, b) := span p r in (String c a, b) else (EmptyString, s)
  | EmptyString => (EmptyString, EmptyString)
  end.

Fixpoint digits_value (radix : Z) (acc : Z) (s : string) : Z :=
  match s with
  | String c r =>
      digits_value radix
        (acc * radix + match hex_value c with Some d => d | None => 0 end) r
  | EmptyString => acc
  end.

Definition slen (s : string) : Z := Z.of_nat (String.length s).

(** [m * 10^e] as a number. *)
Definition scale10 (m e : Z) : number :=
  if 0 <=? e then Fin ((m * 10 ^ e) # 1)
  else Fin (Qred (m # Z.to_pos (10 ^ (- e)))).

(** *** [parseFloat] on a string: the longest prefix of the trimmed string
    that is a [StrDecimalLiteral], [NaN] when there is none. *)

Definition split_sign (s : string) : bool * string :=
  match s with
  | String "-" r => (true, r)
  | String "+" r => (false, r)
  | _ => (false, s)
  end.

(** The exponent part [e|E (+|-)? digits] at the head of [s]: its value and
    what follows it, or 0 and [s] itself when [s] does not start with a
    complete exponent part. *)
Definition exponent_part (s : string) : Z * string :=
  match s with
  | String c r =>
      if (code c =? 101) || (code c =? 69) then
        let (negative, d) := split_sign r in
        let (ds, rest) := span is_digit d in
        if slen ds =? 0 then (0, s)
        else (if negative then - digits_value 10 0 ds
              else digits_value 10 0 ds, rest)
      else (0, s)
  | EmptyString => (0, s)
  end.

Definition drop_prefix (pre s : string) : option string :=
  if String.prefix pre s
  then Some (substring (String.length pre)
                       (String.length s - String.length pre) s)
  else None.

(** The number read at the head of the trimmed input, and the rest of the
    input after it; [None] when no prefix is a decimal literal. *)
Definition read_float (input : string) : option (number * string) :=
  let (negative, u) := split_sign (trim_start input) in
  match drop_prefix "Infinity" u with
  | Some rest => Some (if negative then NegInf else PosInf, rest)
  | None =>
      let (ip, r1) := span is_digit u in
      let (fp, r2) :=
        match r1 with
        | String "." r => span is_digit r
        | _ => (EmptyString, r1)
        end in
      if slen ip + slen fp =? 0 then None
      else
        let m := digits_value 10 0 (ip ++ fp) in
        let (ex, rest) := exponent_part r2 in
        Some (scale10 (if negative then - m else m) (ex - slen fp), rest)
  end.

Definition parseFloat_string (input : string) : number :=
  match read_float input with
  | Some (x, _) => x
  | None => NaN
  end.


(** *** [parseInt] on a string, radix undefined: sign, optional [0x] prefix,
    then the longest run of digits of the radix; [NaN] when it is empty. *)

Definition parseInt_string (input : string) : number :=
  let (negative, u) := split_sign (trim_start input) in
  let (radix, body) :=
    match u with
    | String "0" (String x r) =>
        if (code x =? 120) || (code x =? 88) then (16, r) else (10, u)
    | _ => (10, u)
    end in
  let (z, _) :=
    span (if radix =? 16 then is_hex_digit else is_digit) body in
  if slen z =? 0 then NaN
  else
    let m := digits_value radix 0 z in
    of_Z (if negative then - m else m).

(** *** Values of a parsed JSON document (and [undefined], which reading a
    missing property gives). *)
Inductive value : Type :=
| Undefined
| Null
| Bool (b : bool)
| Number (n : number)
| Str (s : string)
| Array (items : list value)
| Object (props : list (string * value)).

(** Property read [o.key] and write [o.key = v] on the property list of an
    object. *)
Fixpoint get (key : string) (props : list (string * value)) : value :=
  match props with
  | (k, v) :: rest => if String.eqb k key then v else get key rest
  | [] => Undefined
  end.

Fixpoint set (key : string) (v : value) (props : list (string * value))
  : list (string * value) :=
  match props with
  | (k, w) :: rest =>
      if String.eqb k key then (k, v) :: rest else (k, w) :: set key v rest
  | [] => [(key, v)]
  end.

Fixpoint has_own (key : string) (props : list (string * value)) : bool :=
  match props with
  | (k, _) :: rest => String.eqb k key || has_own key rest
  | [] => false
  end.

(** *** [Number::toString] (radix 10) *)

Definition digit_char (d : Z) : ascii := ascii_of_N (Z.to_N (48 + d)).

Fixpoint digits_fuel (fuel : nat) (n : Z) (acc : string) : string :=
  match fuel with
  | O => acc
  | S f =>
      if n <? 10 then String (digit_char n) acc
      else digits_fuel f (n / 10) (String (digit_char (n mod 10)) acc)
  end.

(** The decimal digits of a natural number, most significant first. *)
Definition Z_to_digits (n : Z) : string :=
  digits_fuel (S (Z.to_nat (Z.log2 n))) n EmptyString.

Fixpoint zeros (n : nat) : string :=
  match n with
  | O => EmptyString
  | S m => String "0" (zeros m)
  end.

(** The least [t] in [0 .. fuel] with [q * 10^t] an integer, if any. *)
Fixpoint decimal_places (fuel : nat) (t : Z) (q : Q) : option Z :=
  if Pos.eqb (Qden (Qred q)) 1 then Some t
  else
    match fuel with
    | O => None
    | S f => decimal_places f (t + 1) (q * (10 # 1))
    end.

Fixpoint strip_zeros (fuel : nat) (m z : Z) : Z * Z :=
  match fuel with
  | O => (m, z)
  | S f =>
      if (m mod 10 =? 0) && negb (m =? 0) then strip_zeros f (m / 10) (z + 1)
      else (m, z)
  end.

(** For [q > 0]: the digits [s] (no trailing zero) and the exponent [n] with
    [q = 0.s * 10^n].  A quotient whose decimal expansion does not end is cut
    after 17 digits past its first one; the handlers never print one. *)
Definition significand (q : Q) : Z * Z :=
  let bound := S (Z.to_nat (Z.log2 (Zpos (Qden (Qred q))))) in
  let t :=
    match decimal_places bound 0 q with
    | Some t => t
    | None => Z.of_nat bound + 17
    end in
  let m := Qfloor (q * ((10 ^ t) # 1)) in
  let (s, z) := strip_zeros (S (Z.to_nat (Z.log2 m))) m 0 in
  (s, slen (Z_to_digits s) + z - t).

Definition format_positive (q : Q) : string :=
  let (s, n) := significand q in
  let ds := Z_to_digits s in
  let k := slen ds in
  if (k <=? n) && (n <=? 21) then ds ++ zeros (Z.to_nat (n - k))
  else if (0 <? n) && (n <=? 21) then
    substring 0 (Z.to_nat n) ds ++ "." ++ substring (Z.to_nat n) (Z.to_nat (k - n)) ds
  else if (-6 <? n) && (n <=? 0) then "0." ++ zeros (Z.to_nat (- n)) ++ ds
  else
    let e := n - 1 in
    let ex := "e" ++ (if e <? 0 then "-" else "+") ++ Z_to_digits (Z.abs e) in
    if k =? 1 then ds ++ ex
    else substring 0 1 ds ++ "." ++ substring 1 (Z.to_nat (k - 1)) ds ++ ex.

Definition Number_toString (x : number) : string :=
  match x with
  | NaN => "NaN"
  | PosInf => "Infinity"
  | NegInf => "-Infinity"
  | Fin q =>
      if Qsign q =? 0 then "0"
      else if Qsign q <? 0 then "-" ++ format_positive (Qabs q)
      else format_positive q
  end.

(** *** [ToString].  [None] stands for the [TypeError] that converting an
    object with an own, not callable [toString] property throws; an array is
    joined with commas, [null] and [undefined] items giving the empty
    string. *)
Fixpoint ToString (v : value) : option string :=
  match v with
  | Undefined => Some "undefined"
  | Null => Some "null"
  | Bool true => Some "true"
  | Bool false => Some "false"
  | Number n => Some (Number_toString n)
  | Str s => Some s
  | Array items =>
      (fix join (l : list value) (first : bool) : option string :=
         match l with
         | [] => Some EmptyString
         | x :: rest =>
             let item :=
               match x with
               | Undefined | Null => Some EmptyString
               | _ => ToString x
               end in
             match item, join rest false with
             | Some a, Some b => Some ((if first then "" else ",") ++ a ++ b)
             | _, _ => None
             end
         end) items true
  | Object props =>
      if has_own "toString" props then None else Some "[object Object]"
  end.

(** [parseFloat(v)] and [parseInt(v)]: [ToString] first, then the string is
    read. *)
Definition parseFloat (v : value) : option number :=
  option_map parseFloat_string (ToString v).

Definition parseInt (v : value) : option number :=
  option_map parseInt_string (ToString v).

End JS.

(** ** The relational schema of the migration

    Transcribed declaration by declaration: the enumerated types, the tables
    with their columns in declared order, the primary keys, the unique
    indexes and the foreign keys.  The plain (not unique) indexes constrain
    nothing and are left out. *)

Module Schema.

Inductive sql_type : Type :=
| TEXT
| TEXT_ARRAY
| INTEGER
| DOUBLE_PRECISION
| BOOLEAN
| TIMESTAMP
| JSONB
| ENUM (name : string).

Inductive default : Type :=
| NoDefault
| CURRENT_TIMESTAMP
| DefaultNumber (n : Z)
| DefaultBool (b : bool)
| DefaultLabel (label : string).

Definition NOT_NULL : bool := true.
Definition NULLABLE : bool := false.

Record column : Type := col {
  col_name : string;
  col_type : sql_type;
  col_not_null : bool;
  col_default : default
}.

Inductive action : Type :=
| RESTRICT
| CASCADE
| NO_ACTION.

(** The enumerated types, in the order of their declaration. *)
Definition enum_values (name : string) : list string :=
  if String.eqb name "AssessmentStatus" then
    [ "IN_PROGRESS"; "COMPLETED"; "ABANDONED" ]
  else if String.eqb name "ProgressStatus" then
    [ "PAYMENT_PENDING"; "PERSONAL_DISCOVERY_PENDING";
      "CV_ALIGNMENT_PENDING"; "SCHOLARSHIP_MATRIX_PENDING";
      "ESSAYS_PENDING"; "COMPLETED" ]
  else if String.eqb name "Role" then
    [ "USER"; "ADMIN"; "MENTOR"; "TEAM_MEMBER" ]
  else if String.eqb name "SubscriptionStatus" then
    [ "ACTIVE"; "EXPIRED"; "CANCELLED"; "PENDING" ]
  else if String.eqb name "PaymentStatus" then
    [ "PENDING"; "APPROVED"; "REJECTED" ]
  else if String.eqb name "Gender" then
    [ "MALE"; "FEMALE"; "OTHER" ]
  else [].

Inductive table : Type :=
| User
| PersonalDiscovery
| ScholarshipAssessment
| UserProfile
| Plan
| Subscription
| PaymentProof
| Feedback
| Notification
| TrackProgress
| Publication
| Testimonial
| Mentor
| TeamMember
| Contact
| DownloadableResource
| Event
| UserEvent
| Course
| Lesson
| Enrollment
| LessonCompletion
| LearningObjective
| Category
| CV
| PasswordResetToken
| career_users
| career_assessments
| user_feedback
| career_analytics
| analytics_index.

Definition all_tables : list table :=
  [ User; PersonalDiscovery; ScholarshipAssessment; UserProfile; Plan;
    Subscription; PaymentProof; Feedback; Notification; TrackProgress;
    Publication; Testimonial; Mentor; TeamMember; Contact;
    DownloadableResource; Event; UserEvent; Course; Lesson; Enrollment;
    LessonCompletion; LearningObjective; Category; CV; PasswordResetToken;
    career_users; career_assessments; user_feedback; career_analytics;
    analytics_index ].

Record unique_index : Type := unique_on {
  ux_name : string;
  ux_table : table;
  ux_columns : list string
}.

(** [ALTER TABLE child ADD CONSTRAINT name FOREIGN KEY (column) REFERENCES
    parent(parent_column) ON DELETE .. ON UPDATE ..] *)
Record foreign_key : Type := references {
  fk_name : string;
  fk_child : table;
  fk_column : string;
  fk_parent : table;
  fk_parent_column : string;
  fk_on_delete : action;
  fk_on_update : action
}.

Definition columns (t : table) : list column :=
  match t with
  | User =>
      [ col "id" TEXT NOT_NULL NoDefault;
        col "firstName" TEXT NOT_NULL NoDefault;
        col "lastName" TEXT NOT_NULL NoDefault;
        col "email" TEXT NOT_NULL NoDefault;
        col "phone" TEXT NULLABLE NoDefault;
        col "service" TEXT NULLABLE NoDefault;
        col "gender" (ENUM "Gender") NULLABLE NoDefault;
        col "country" TEXT NULLABLE NoDefault;
        col "educationLevel" TEXT NULLABLE NoDefault;
        col "password" TEXT NOT_NULL NoDefault;
        col "role" (ENUM "Role") NOT_NULL (DefaultLabel "USER");
        col "createdAt" TIMESTAMP NOT_NULL CURRENT_TIMESTAMP;
        col "updatedAt" TIMESTAMP NOT_NULL NoDefault;
        col "progressStatus" (ENUM "ProgressStatus") NOT_NULL
          (DefaultLabel "PAYMENT_PENDING") ]
  | PersonalDiscovery =>
      [ col "id" TEXT NOT_NULL NoDefault;
        col "userId" TEXT NOT_NULL NoDefault;
        col "strengths" TEXT_ARRAY NULLABLE NoDefault;
        col "weaknesses" TEXT_ARRAY NULLABLE NoDefault;
        col "opportunities" TEXT_ARRAY NULLABLE NoDefault;
        col "achievements" TEXT_ARRAY NULLABLE NoDefault;
        col "threats" TEXT_ARRAY NULLABLE NoDefault;
        col "familyAspirations" TEXT_ARRAY NULLABLE NoDefault;
        col "careerAspirations" TEXT_ARRAY NULLABLE NoDefault;
        col "financialBusinessAspirations" TEXT_ARRAY NULLABLE NoDefault;
        col "socialAspirations" TEXT_ARRAY NULLABLE NoDefault;
        col "desiredPosition" TEXT_ARRAY NULLABLE NoDefault;
        col "requiredSkills" TEXT_ARRAY NULLABLE NoDefault;
        col "coursesAndTrainings" TEXT_ARRAY NULLABLE NoDefault;
        col "strategies" TEXT_ARRAY NULLABLE NoDefault;
        col "shortTermGoals" TEXT_ARRAY NULLABLE NoDefault;
        col "documentAnalysis" TEXT NULLABLE NoDefault;
        col "createdAt" TIMESTAMP NOT_NULL CURRENT_TIMESTAMP;
        col "updatedAt" TIMESTAMP NOT_NULL NoDefault ]
  | ScholarshipAssessment =>
      [ col "id" TEXT NOT_NULL NoDefault;
        col "userId" TEXT NOT_NULL NoDefault;
        col "educationLevel" TEXT NOT_NULL NoDefault;
        col "fieldPreference" TEXT NOT_NULL NoDefault;
        col "ageRange" TEXT NOT_NULL NoDefault;
        col "gender" TEXT NOT_NULL NoDefault;
        col "employmentPreference" TEXT NOT_NULL NoDefault;
        col "selfEmploymentType" TEXT NULLABLE NoDefault;
        col "careerSector" TEXT NOT_NULL NoDefault;
        col "unpaidPassion" TEXT NOT_NULL NoDefault;
        col "personalPassion" TEXT NOT_NULL NoDefault;
        col "lifeGoal" TEXT NOT_NULL NoDefault;
        col "futureTitle" TEXT NOT_NULL NoDefault;
        col "futureTasks" TEXT NOT_NULL NoDefault;
        col "requiredSkills" TEXT NOT_NULL NoDefault;
        col "desiredCourses" TEXT NOT_NULL NoDefault;
        col "createdAt" TIMESTAMP NOT_NULL CURRENT_TIMESTAMP;
        col "updatedAt" TIMESTAMP NOT_NULL NoDefault ]
  | UserProfile =>
      [ col "id" TEXT NOT_NULL NoDefault;
        col "bio" TEXT NULLABLE NoDefault;
        col "avatar" TEXT NULLABLE NoDefault;
        col "phoneNumber" TEXT NULLABLE NoDefault;
        col "address" TEXT NULLABLE NoDefault;
        col "userId" TEXT NOT_NULL NoDefault;
        col "createdAt" TIMESTAMP NOT_NULL CURRENT_TIMESTAMP;
        col "updatedAt" TIMESTAMP NOT_NULL NoDefault ]
  | Plan =>
      [ col "id" TEXT NOT_NULL NoDefault;
        col "name" TEXT NOT_NULL NoDefault;
        col "description" TEXT NOT_NULL NoDefault;
        col "price" DOUBLE_PRECISION NOT_NULL NoDefault;
        col "duration" INTEGER NOT_NULL NoDefault;
        col "createdAt" TIMESTAMP NOT_NULL CURRENT_TIMESTAMP;
        col "updatedAt" TIMESTAMP NOT_NULL NoDefault;
        col "services" TEXT_ARRAY NULLABLE NoDefault;
        col "features" TEXT_ARRAY NULLABLE NoDefault ]
  | Subscription =>
      [ col "id" TEXT NOT_NULL NoDefault;
        col "startDate" TIMESTAMP NOT_NULL NoDefault;
        col "endDate" TIMESTAMP NOT_NULL NoDefault;
        col "status" (ENUM "SubscriptionStatus") NOT_NULL NoDefault;
        col "userId" TEXT NOT_NULL NoDefault;
        col "planId" TEXT NOT_NULL NoDefault;
        col "createdAt" TIMESTAMP NOT_NULL CURRENT_TIMESTAMP;
        col "updatedAt" TIMESTAMP NOT_NULL NoDefault ]
  | PaymentProof =>
      [ col "id" TEXT NOT_NULL NoDefault;
        col "imageUrl" TEXT NOT_NULL NoDefault;
        col "status" (ENUM "PaymentStatus") NOT_NULL NoDefault;
        col "userId" TEXT NOT_NULL NoDefault;
        col "subscriptionId" TEXT NOT_NULL NoDefault;
        col "createdAt" TIMESTAMP NOT_NULL CURRENT_TIMESTAMP;
        col "updatedAt" TIMESTAMP NOT_NULL NoDefault ]
  | Feedback =>
      [ col "id" TEXT NOT_NULL NoDefault;
        col "content" TEXT NOT_NULL NoDefault;
        col "userId" TEXT NOT_NULL NoDefault;
        col "createdAt" TIMESTAMP NOT_NULL CURRENT_TIMESTAMP;
        col "updatedAt" TIMESTAMP NOT_NULL NoDefault ]
  | Notification =>
      [ col "id" TEXT NOT_NULL NoDefault;
        col "title" TEXT NOT_NULL NoDefault;
        col "content" TEXT NOT_NULL NoDefault;
        col "read" BOOLEAN NOT_NULL (DefaultBool false);
        col "userId" TEXT NOT_NULL NoDefault;
        col "createdAt" TIMESTAMP NOT_NULL CURRENT_TIMESTAMP;
        col "updatedAt" TIMESTAMP NOT_NULL NoDefault ]
  | TrackProgress =>
      [ col "id" TEXT NOT_NULL NoDefault;
        col "title" TEXT NOT_NULL NoDefault;
        col "progress" INTEGER NOT_NULL NoDefault;
        col "userId" TEXT NOT_NULL NoDefault;
        col "createdAt" TIMESTAMP NOT_NULL CURRENT_TIMESTAMP;
        col "updatedAt" TIMESTAMP NOT_NULL NoDefault ]
  | Publication =>
      [ col "id" TEXT NOT_NULL NoDefault;
        col "title" TEXT NOT_NULL NoDefault;
        col "authors" TEXT NOT_NULL NoDefault;
        col "abstract" TEXT NOT_NULL NoDefault;
        col "externalUrl" TEXT NOT_NULL NoDefault;
        col "publishedDate" TIMESTAMP NOT_NULL NoDefault;
        col "createdAt" TIMESTAMP NOT_NULL CURRENT_TIMESTAMP;
        col "updatedAt" TIMESTAMP NOT_NULL NoDefault ]
  | Testimonial =>
      [ col "id" TEXT NOT_NULL NoDefault;
        col "content" TEXT NOT_NULL NoDefault;
        col "author" TEXT NOT_NULL NoDefault;
        col "rating" INTEGER NOT_NULL NoDefault;
        col "createdAt" TIMESTAMP NOT_NULL CURRENT_TIMESTAMP;
        col "updatedAt" TIMESTAMP NOT_NULL NoDefault ]
  | Mentor =>
      [ col "id" TEXT NOT_NULL NoDefault;
        col "name" TEXT NOT_NULL NoDefault;
        col "bio" TEXT NOT_NULL NoDefault;
        col "expertise" TEXT_ARRAY NULLABLE NoDefault;
        col "avatar" TEXT NULLABLE NoDefault;
        col "createdAt" TIMESTAMP NOT_NULL CURRENT_TIMESTAMP;
        col "updatedAt" TIMESTAMP NOT_NULL NoDefault ]
  | TeamMember =>
      [ col "id" TEXT NOT_NULL NoDefault;
        col "name" TEXT NOT_NULL NoDefault;
        col "role" TEXT NOT_NULL NoDefault;
        col "bio" TEXT NOT_NULL NoDefault;
        col "avatar" TEXT NULLABLE NoDefault;
        col "createdAt" TIMESTAMP NOT_NULL CURRENT_TIMESTAMP;
        col "updatedAt" TIMESTAMP NOT_NULL NoDefault ]
  | Contact =>
      [ col "id" TEXT NOT_NULL NoDefault;
        col "name" TEXT NOT_NULL NoDefault;
        col "email" TEXT NOT_NULL NoDefault;
        col "subject" TEXT NOT_NULL NoDefault;
        col "message" TEXT NOT_NULL NoDefault;
        col "createdAt" TIMESTAMP NOT_NULL CURRENT_TIMESTAMP;
        col "updatedAt" TIMESTAMP NOT_NULL NoDefault ]
  | DownloadableResource =>
      [ col "id" TEXT NOT_NULL NoDefault;
        col "title" TEXT NOT_NULL NoDefault;
        col "description" TEXT NOT_NULL NoDefault;
        col "fileUrl" TEXT NOT_NULL NoDefault;
        col "createdAt" TIMESTAMP NOT_NULL CURRENT_TIMESTAMP;
        col "updatedAt" TIMESTAMP NOT_NULL NoDefault ]
  | Event =>
      [ col "id" TEXT NOT_NULL NoDefault;
        col "title" TEXT NOT_NULL NoDefault;
        col "description" TEXT NOT_NULL NoDefault;
        col "startDate" TIMESTAMP NOT_NULL NoDefault;
        col "endDate" TIMESTAMP NOT_NULL NoDefault;
        col "location" TEXT NOT_NULL NoDefault;
        col "bannerUrl" TEXT NULLABLE NoDefault;
        col "createdAt" TIMESTAMP NOT_NULL CURRENT_TIMESTAMP;
        col "updatedAt" TIMESTAMP NOT_NULL NoDefault ]
  | UserEvent =>
      [ col "userId" TEXT NOT_NULL NoDefault;
        col "eventId" TEXT NOT_NULL NoDefault;
        col "createdAt" TIMESTAMP NOT_NULL CURRENT_TIMESTAMP;
        col "updatedAt" TIMESTAMP NOT_NULL NoDefault ]
  | Course =>
      [ col "id" TEXT NOT_NULL NoDefault;
        col "title" TEXT NOT_NULL NoDefault;
        col "subtitle" TEXT NOT_NULL NoDefault;
        col "description" TEXT NOT_NULL NoDefault;
        col "content" TEXT NOT_NULL NoDefault;
        col "duration" INTEGER NOT_NULL NoDefault;
        col "level" TEXT NOT_NULL NoDefault;
        col "categoryId" TEXT NOT_NULL NoDefault;
        col "isFeatured" BOOLEAN NOT_NULL (DefaultBool false);
        col "previewVideoUrl" TEXT NULLABLE NoDefault;
        col "createdAt" TIMESTAMP NOT_NULL CURRENT_TIMESTAMP;
        col "updatedAt" TIMESTAMP NOT_NULL NoDefault ]
  | Lesson =>
      [ col "id" TEXT NOT_NULL NoDefault;
        col "title" TEXT NOT_NULL NoDefault;
        col "content" TEXT NOT_NULL NoDefault;
        col "order" INTEGER NOT_NULL NoDefault;
        col "duration" INTEGER NOT_NULL NoDefault;
        col "courseId" TEXT NOT_NULL NoDefault;
        col "createdAt" TIMESTAMP NOT_NULL CURRENT_TIMESTAMP;
        col "updatedAt" TIMESTAMP NOT_NULL NoDefault ]
  | Enrollment =>
      [ col "id" TEXT NOT_NULL NoDefault;
        col "userId" TEXT NOT_NULL NoDefault;
        col "courseId" TEXT NOT_NULL NoDefault;
        col "progress" INTEGER NOT_NULL (DefaultNumber 0);
        col "completedAt" TIMESTAMP NULLABLE NoDefault;
        col "createdAt" TIMESTAMP NOT_NULL CURRENT_TIMESTAMP;
        col "updatedAt" TIMESTAMP NOT_NULL NoDefault ]
  | LessonCompletion =>
      [ col "id" TEXT NOT_NULL NoDefault;
        col "enrollmentId" TEXT NOT_NULL NoDefault;
        col "lessonId" TEXT NOT_NULL NoDefault;
        col "completedAt" TIMESTAMP NOT_NULL CURRENT_TIMESTAMP ]
  | LearningObjective =>
      [ col "id" TEXT NOT_NULL NoDefault;
        col "content" TEXT NOT_NULL NoDefault;
        col "courseId" TEXT NOT_NULL NoDefault ]
  | Category =>
      [ col "id" TEXT NOT_NULL NoDefault;
        col "name" TEXT NOT_NULL NoDefault ]
  | CV =>
      [ col "id" TEXT NOT_NULL NoDefault;
        col "userId" TEXT NOT_NULL NoDefault;
        col "fileName" TEXT NOT_NULL NoDefault;
        col "fileUrl" TEXT NOT_NULL NoDefault;
        col "uploadedAt" TIMESTAMP NOT_NULL CURRENT_TIMESTAMP;
        col "analysisResult" TEXT NULLABLE NoDefault ]
  | PasswordResetToken =>
      [ col "id" TEXT NOT_NULL NoDefault;
        col "token" TEXT NOT_NULL NoDefault;
        col "userId" TEXT NOT_NULL NoDefault;
        col "expiresAt" TIMESTAMP NOT_NULL NoDefault;
        col "createdAt" TIMESTAMP NOT_NULL CURRENT_TIMESTAMP;
        col "updatedAt" TIMESTAMP NOT_NULL NoDefault ]
  | career_users =>
      [ col "id" TEXT NOT_NULL NoDefault;
        col "createdAt" TIMESTAMP NOT_NULL CURRENT_TIMESTAMP;
        col "updatedAt" TIMESTAMP NOT_NULL NoDefault;
        col "name" TEXT NOT_NULL NoDefault;
        col "email" TEXT NULLABLE NoDefault;
        col "age" TEXT NOT_NULL NoDefault;
        col "gender" TEXT NULLABLE NoDefault;
        col "location" TEXT NULLABLE NoDefault;
        col "isAuthenticated" BOOLEAN NOT_NULL (DefaultBool false);
        col "authUserId" TEXT NULLABLE NoDefault ]
  | career_assessments =>
      [ col "id" TEXT NOT_NULL NoDefault;
        col "createdAt" TIMESTAMP NOT_NULL CURRENT_TIMESTAMP;
        col "updatedAt" TIMESTAMP NOT_NULL NoDefault;
        col "careerUserId" TEXT NOT_NULL NoDefault;
        col "status" (ENUM "AssessmentStatus") NOT_NULL
          (DefaultLabel "IN_PROGRESS");
        col "completedAt" TIMESTAMP NULLABLE NoDefault;
        col "education" TEXT NOT_NULL NoDefault;
        col "field" TEXT NOT_NULL NoDefault;
        col "employment" TEXT NOT_NULL NoDefault;
        col "selfEmployment" TEXT NULLABLE NoDefault;
        col "sector" TEXT NOT_NULL NoDefault;
        col "passion" TEXT NOT_NULL NoDefault;
        col "lifePassion" TEXT NOT_NULL NoDefault;
        col "lifeGoal" TEXT NOT_NULL NoDefault;
        col "futureTitle" TEXT NOT_NULL NoDefault;
        col "futureTasks" TEXT NOT_NULL NoDefault;
        col "requiredSkills" TEXT NOT_NULL NoDefault;
        col "requiredCourses" TEXT NOT_NULL NoDefault;
        col "suggestedCareer" TEXT NULLABLE NoDefault;
        col "confidenceScore" DOUBLE_PRECISION NULLABLE NoDefault;
        col "matchingFactors" TEXT_ARRAY NULLABLE NoDefault;
        col "isShared" BOOLEAN NOT_NULL (DefaultBool false);
        col "shareCode" TEXT NULLABLE NoDefault ]
  | user_feedback =>
      [ col "id" TEXT NOT_NULL NoDefault;
        col "createdAt" TIMESTAMP NOT_NULL CURRENT_TIMESTAMP;
        col "assessmentId" TEXT NOT_NULL NoDefault;
        col "rating" INTEGER NOT_NULL NoDefault;
        col "isRelevant" BOOLEAN NOT_NULL NoDefault;
        col "comments" TEXT NULLABLE NoDefault;
        col "wouldRecommend" BOOLEAN NOT_NULL NoDefault ]
  | career_analytics =>
      [ col "id" TEXT NOT_NULL NoDefault;
        col "careerPath" TEXT NOT_NULL NoDefault;
        col "totalSuggestions" INTEGER NOT_NULL (DefaultNumber 0);
        col "averageConfidence" DOUBLE_PRECISION NOT_NULL (DefaultNumber 0);
        col "positiveRatings" INTEGER NOT_NULL (DefaultNumber 0);
        col "negativeRatings" INTEGER NOT_NULL (DefaultNumber 0);
        col "ageRangeDistribution" JSONB NULLABLE NoDefault;
        col "genderDistribution" JSONB NULLABLE NoDefault;
        col "fieldDistribution" JSONB NULLABLE NoDefault;
        col "updatedAt" TIMESTAMP NOT_NULL NoDefault ]
  | analytics_index =>
      [ col "id" TEXT NOT_NULL NoDefault;
        col "date" TIMESTAMP NOT_NULL CURRENT_TIMESTAMP;
        col "totalUsers" INTEGER NOT_NULL (DefaultNumber 0);
        col "activeUsers" INTEGER NOT_NULL (DefaultNumber 0);
        col "completionRate" DOUBLE_PRECISION NOT_NULL (DefaultNumber 0);
        col "newAssessments" INTEGER NOT_NULL (DefaultNumber 0);
        col "completedAssessments" INTEGER NOT_NULL (DefaultNumber 0);
        col "sharedResults" INTEGER NOT_NULL (DefaultNumber 0) ]
  end.

Definition primary_key (t : table) : unique_index :=
  match t with
  | User =>
      unique_on "User_pkey" User ["id"]
  | PersonalDiscovery =>
      unique_on "PersonalDiscovery_pkey" PersonalDiscovery ["id"]
  | ScholarshipAssessment =>
      unique_on "ScholarshipAssessment_pkey" ScholarshipAssessment ["id"]
  | UserProfile =>
      unique_on "UserProfile_pkey" UserProfile ["id"]
  | Plan =>
      unique_on "Plan_pkey" Plan ["id"]
  | Subscription =>
      unique_on "Subscription_pkey" Subscription ["id"]
  | PaymentProof =>
      unique_on "PaymentProof_pkey" PaymentProof ["id"]
  | Feedback =>
      unique_on "Feedback_pkey" Feedback ["id"]
  | Notification =>
      unique_on "Notification_pkey" Notification ["id"]
  | TrackProgress =>
      unique_on "TrackProgress_pkey" TrackProgress ["id"]
  | Publication =>
      unique_on "Publication_pkey" Publication ["id"]
  | Testimonial =>
      unique_on "Testimonial_pkey" Testimonial ["id"]
  | Mentor =>
      unique_on "Mentor_pkey" Mentor ["id"]
  | TeamMember =>
      unique_on "TeamMember_pkey" TeamMember ["id"]
  | Contact =>
      unique_on "Contact_pkey" Contact ["id"]
  | DownloadableResource =>
      unique_on "DownloadableResource_pkey" DownloadableResource ["id"]
  | Event =>
      unique_on "Event_pkey" Event ["id"]
  | UserEvent =>
      unique_on "UserEvent_pkey" UserEvent ["userId"; "eventId"]
  | Course =>
      unique_on "Course_pkey" Course ["id"]
  | Lesson =>
      unique_on "Lesson_pkey" Lesson ["id"]
  | Enrollment =>
      unique_on "Enrollment_pkey" Enrollment ["id"]
  | LessonCompletion =>
      unique_on "LessonCompletion_pkey" LessonCompletion ["id"]
  | LearningObjective =>
      unique_on "LearningObjective_pkey" LearningObjective ["id"]
  | Category =>
      unique_on "Category_pkey" Category ["id"]
  | CV =>
      unique_on "CV_pkey" CV ["id"]
  | PasswordResetToken =>
      unique_on "PasswordResetToken_pkey" PasswordResetToken ["id"]
  | career_users =>
      unique_on "career_users_pkey" career_users ["id"]
  | career_assessments =>
      unique_on "career_assessments_pkey" career_assessments ["id"]
  | user_feedback =>
      unique_on "user_feedback_pkey" user_feedback ["id"]
  | career_analytics =>
      unique_on "career_analytics_pkey" career_analytics ["id"]
  | analytics_index =>
      unique_on "analytics_index_pkey" analytics_index ["id"]
  end.

Definition unique_indexes : list unique_index :=
  [ unique_on "User_email_key"
      User ["email"];
    unique_on "PersonalDiscovery_userId_key"
      PersonalDiscovery ["userId"];
    unique_on "ScholarshipAssessment_userId_key"
      ScholarshipAssessment ["userId"];
    unique_on "UserProfile_userId_key"
      UserProfile ["userId"];
    unique_on "Enrollment_userId_courseId_key"
      Enrollment ["userId"; "courseId"];
    unique_on "LessonCompletion_enrollmentId_lessonId_key"
      LessonCompletion ["enrollmentId"; "lessonId"];
    unique_on "Category_name_key"
      Category ["name"];
    unique_on "PasswordResetToken_token_key"
      PasswordResetToken ["token"];
    unique_on "career_users_authUserId_key"
      career_users ["authUserId"];
    unique_on "career_assessments_shareCode_key"
      career_assessments ["shareCode"];
    unique_on "user_feedback_assessmentId_key"
      user_feedback ["assessmentId"];
    unique_on "career_analytics_careerPath_key"
      career_analytics ["careerPath"] ].

Definition foreign_keys : list foreign_key :=
  [ references "PersonalDiscovery_userId_fkey"
      PersonalDiscovery "userId" User "id" RESTRICT CASCADE;
    references "ScholarshipAssessment_userId_fkey"
      ScholarshipAssessment "userId" User "id" RESTRICT CASCADE;
    references "UserProfile_userId_fkey"
      UserProfile "userId" User "id" RESTRICT CASCADE;
    references "Subscription_userId_fkey"
      Subscription "userId" User "id" RESTRICT CASCADE;
    references "Subscription_planId_fkey"
      Subscription "planId" Plan "id" RESTRICT CASCADE;
    references "PaymentProof_userId_fkey"
      PaymentProof "userId" User "id" RESTRICT CASCADE;
    references "PaymentProof_subscriptionId_fkey"
      PaymentProof "subscriptionId" Subscription "id" RESTRICT CASCADE;
    references "Feedback_userId_fkey"
      Feedback "userId" User "id" RESTRICT CASCADE;
    references "Notification_userId_fkey"
      Notification "userId" User "id" RESTRICT CASCADE;
    references "TrackProgress_userId_fkey"
      TrackProgress "userId" User "id" RESTRICT CASCADE;
    references "UserEvent_userId_fkey"
      UserEvent "userId" User "id" CASCADE NO_ACTION;
    references "UserEvent_eventId_fkey"
      UserEvent "eventId" Event "id" CASCADE NO_ACTION;
    references "Course_categoryId_fkey"
      Course "categoryId" Category "id" RESTRICT CASCADE;
    references "Lesson_courseId_fkey"
      Lesson "courseId" Course "id" CASCADE CASCADE;
    references "Enrollment_userId_fkey"
      Enrollment "userId" User "id" RESTRICT CASCADE;
    references "Enrollment_courseId_fkey"
      Enrollment "courseId" Course "id" RESTRICT CASCADE;
    references "LessonCompletion_enrollmentId_fkey"
      LessonCompletion "enrollmentId" Enrollment "id" RESTRICT CASCADE;
    references "LessonCompletion_lessonId_fkey"
      LessonCompletion "lessonId" Lesson "id" RESTRICT CASCADE;
    references "LearningObjective_courseId_fkey"
      LearningObjective "courseId" Course "id" CASCADE CASCADE;
    references "CV_userId_fkey"
      CV "userId" User "id" RESTRICT CASCADE;
    references "career_assessments_careerUserId_fkey"
      career_assessments "careerUserId" career_users "id" RESTRICT CASCADE;
    references "user_feedback_assessmentId_fkey"
      user_feedback "assessmentId" career_assessments "id" RESTRICT CASCADE ].

Definition table_eq_dec (a b : table) : {a = b} + {a <> b}.
Proof. decide equality. Defined.

Definition table_eqb (a b : table) : bool :=
  if table_eq_dec a b then true else false.

Definition action_eq_dec (a b : action) : {a = b} + {a <> b}.
Proof. decide equality. Defined.

End Schema.

(** ** The entity store: rows, constraint checks, insert, update, delete

    The store keeps the rows of all tables in one list, in insertion order.
    Its operations enforce what the schema declares, the way PostgreSQL
    does: NOT NULL and column types, primary keys and unique indexes (a key
    with a NULL in it conflicts with nothing), foreign keys on the child
    side, and the declared ON DELETE action on the parent side. *)

Module Store.
Import Schema.

Inductive value : Type :=
| NULL
| Text (s : string)
| Int (n : Z)
| Double (x : Q)
| Boolean (b : bool)
| Timestamp (t : Z)
| TextArray (items : list string)
| Label (l : string)
| Json (text : string).

Definition row : Type := list (string * value).

Definition database : Type := list (table * row).

Inductive error : Type :=
| UndefinedColumn (c : string)
| NotNullViolation (c : string)
| InvalidValue (c : string)
| UniqueViolation (constraint : string)
| ForeignKeyViolation (constraint : string)
| KeyUpdate (c : string)
| NoSuchRow
| CascadeTooDeep.

Inductive result (A : Type) : Type :=
| Ok (a : A)
| Err (e : error).

Arguments Ok {A} a.
Arguments Err {A} e.

Definition Q_eq_dec (a b : Q) : {a = b} + {a <> b}.
Proof. decide equality; [apply Pos.eq_dec | apply Z.eq_dec]. Defined.

Definition value_eq_dec (a b : value) : {a = b} + {a <> b}.
Proof.
  decide equality;
    auto using string_dec, Z.eq_dec, Q_eq_dec, Bool.bool_dec, list_eq_dec.
Defined.

Definition value_eqb (a b : value) : bool :=
  if value_eq_dec a b then true else false.

Definition key_eq_dec (a b : list value) : {a = b} + {a <> b} :=
  list_eq_dec value_eq_dec a b.

Fixpoint lookup (c : string) (r : row) : option value :=
  match r with
  | (k, v) :: rest => if String.eqb k c then Some v else lookup c rest
  | [] => None
  end.

(** The value of column [c] in a row; a column the row does not carry reads
    as NULL. *)
Definition field (c : string) (r : row) : value :=
  match lookup c r with Some v => v | None => NULL end.

Definition is_null (v : value) : bool :=
  match v with NULL => true | _ => false end.

Definition rows_of (t : table) (db : database) : list row :=
  map snd (filter (fun tr => table_eqb (fst tr) t) db).

(** *** Column checks *)

Definition has_type (v : value) (ty : sql_type) : bool :=
  match v, ty with
  | NULL, _ => true
  | Text _, TEXT => true
  | Int n, INTEGER => (- 2 ^ 31 <=? n) && (n <? 2 ^ 31)
  | Double _, DOUBLE_PRECISION => true
  | Boolean _, BOOLEAN => true
  | Timestamp _, TIMESTAMP => true
  | TextArray _, TEXT_ARRAY => true
  | Json _, JSONB => true
  | Label l, ENUM e => existsb (String.eqb l) (enum_values e)
  | _, _ => false
  end.

Definition default_value (c : column) (now : Z) : value :=
  match col_default c, col_type c with
  | NoDefault, _ => NULL
  | CURRENT_TIMESTAMP, _ => Timestamp now
  | DefaultNumber n, DOUBLE_PRECISION => Double (n # 1)
  | DefaultNumber n, _ => Int n
  | DefaultBool b, _ => Boolean b
  | DefaultLabel l, _ => Label l
  end.

Definition has_column (t : table) (c : string) : bool :=
  existsb (fun d => String.eqb (col_name d) c) (columns t).

Definition undefined_column (t : table) (given : row) : option string :=
  option_map fst (find (fun cv => negb (has_column t (fst cv))) given).

(** The full row an INSERT builds: every declared column, with the given
    value, else the declared default, else NULL. *)
Definition complete (t : table) (given : row) (now : Z) : row :=
  map (fun c =>
         (col_name c,
          match lookup (col_name c) given with
          | Some v => v
          | None => default_value c now
          end)) (columns t).

Definition check_column (r : row) (c : column) : option error :=
  let v := field (col_name c) r in
  if col_not_null c && is_null v then Some (NotNullViolation (col_name c))
  else if has_type v (col_type c) then None
  else Some (InvalidValue (col_name c)).

Fixpoint first_error (checks : list (option error)) : option error :=
  match checks with
  | Some e :: _ => Some e
  | None :: rest => first_error rest
  | [] => None
  end.

Definition check_row (t : table) (r : row) : option error :=
  first_error (map (check_column r) (columns t)).

(** *** Keys and uniqueness *)

(** The key of a row under the columns of an index: none when one of the
    columns is NULL. *)
Definition key_of (cols : list string) (r : row) : option (list value) :=
  if existsb (fun c => is_null (field c r)) cols then None
  else Some (map (fun c => field c r) cols).

Definition same_key (cols : list string) (r r' : row) : bool :=
  match key_of cols r, key_of cols r' with
  | Some k, Some k' => if key_eq_dec k k' then true else false
  | _, _ => false
  end.

(** Row [r] carries the key [k] under the columns [cols]. *)
Definition key_is (cols : list string) (k : list value) (r : row) : bool :=
  match key_of cols r with
  | Some k' => if key_eq_dec k' k then true else false
  | None => false
  end.

Definition conflicts (ux : unique_index) (r : row) (rows : list row) : bool :=
  existsb (same_key (ux_columns ux) r) rows.

(** The primary key and the unique indexes of a table, the primary key
    first. *)
Definition constraints_of (t : table) : list unique_index :=
  primary_key t :: filter (fun ux => table_eqb (ux_table ux) t) unique_indexes.

Definition first_conflict (t : table) (r : row) (rows : list row)
  : option unique_index :=
  find (fun ux => conflicts ux r rows) (constraints_of t).

(** *** Foreign keys *)

Definition refers (fk : foreign_key) (child parent : row) : bool :=
  negb (is_null (field (fk_column fk) child))
  && value_eqb (field (fk_column fk) child) (field (fk_parent_column fk) parent).

Definition references_ok (fk : foreign_key) (r : row) (db : database) : bool :=
  is_null (field (fk_column fk) r)
  || existsb (refers fk r) (rows_of (fk_parent fk) db).

Definition first_dangling (t : table) (r : row) (db : database)
  : option foreign_key :=
  find (fun fk => table_eqb (fk_child fk) t && negb (references_ok fk r db))
       foreign_keys.

Definition children (fk : foreign_key) (parent : row) (db : database)
  : list row :=
  filter (fun c => refers fk c parent) (rows_of (fk_child fk) db).

Definition cascades (fk : foreign_key) : bool :=
  if action_eq_dec (fk_on_delete fk) CASCADE then true else false.

(** *** INSERT *)

Definition insert (t : table) (given : row) (now : Z) (db : database)
  : result (database * row) :=
  match undefined_column t given with
  | Some c => Err (UndefinedColumn c)
  | None =>
      let r := complete t given now in
      match check_row t r with
      | Some e => Err e
      | None =>
          match first_conflict t r (rows_of t db) with
          | Some ux => Err (UniqueViolation (ux_name ux))
          | None =>
              match first_dangling t r db with
              | Some fk => Err (ForeignKeyViolation (fk_name fk))
              | None => Ok ((db ++ [(t, r)])%list, r)
              end
          end
      end
  end.

(** *** UPDATE of the row with a given primary key *)

Definition pk_columns (t : table) : list string := ux_columns (primary_key t).

Definition has_key (t : table) (key : list value) (tr : table * row) : bool :=
  table_eqb (fst tr) t
  && match key_of (pk_columns t) (snd tr) with
     | Some k => if key_eq_dec k key then true else false
     | None => false
     end.

Definition find_row (t : table) (key : list value) (db : database)
  : option row :=
  option_map snd (find (has_key t key) db).

Fixpoint replace_first {A : Type} (p : A -> bool) (new : A) (l : list A)
  : list A :=
  match l with
  | x :: rest => if p x then new :: rest else x :: replace_first p new rest
  | [] => []
  end.

Fixpoint remove_first {A : Type} (p : A -> bool) (l : list A) : list A :=
  match l with
  | x :: rest => if p x then rest else x :: remove_first p rest
  | [] => []
  end.

Definition override (old changes : row) : row :=
  map (fun cv =>
         match lookup (fst cv) changes with
         | Some w => (fst cv, w)
         | None => cv
         end) old.

(** The key columns themselves are left as they are: an update that names
    one is refused (changing a primary key, with the ON UPDATE actions it
    would set off, is outside this model). *)
Definition update (t : table) (key : list value) (changes : row)
  (db : database) : result (database * row) :=
  match find_row t key db with
  | None => Err NoSuchRow
  | Some old =>
      match undefined_column t changes with
      | Some c => Err (UndefinedColumn c)
      | None =>
          match find (fun c => existsb (String.eqb c) (pk_columns t))
                     (map fst changes) with
          | Some c => Err (KeyUpdate c)
          | None =>
              let r := override old changes in
              match check_row t r with
              | Some e => Err e
              | None =>
                  let others := remove_first (has_key t key) db in
                  match first_conflict t r (rows_of t others) with
                  | Some ux => Err (UniqueViolation (ux_name ux))
                  | None =>
                      match first_dangling t r db with
                      | Some fk => Err (ForeignKeyViolation (fk_name fk))
                      | None => Ok (replace_first (has_key t key) (t, r) db, r)
                      end
                  end
              end
          end
      end
  end.

(** *** DELETE

    A RESTRICT (or NO ACTION) foreign key with a referencing row refuses the
    delete at once; then the row goes, and for every CASCADE foreign key the
    rows that referenced it are deleted in the same way.  [fuel] bounds the
    depth of the cascade. *)

Definition row_eq_dec (a b : row) : {a = b} + {a <> b}.
Proof.
  apply list_eq_dec. intros x y.
  decide equality; [apply value_eq_dec | apply string_dec].
Defined.

Definition is_row (t : table) (r : row) (tr : table * row) : bool :=
  table_eqb (fst tr) t && if row_eq_dec (snd tr) r then true else false.

Definition restricted_by (t : table) (r : row) (db : database)
  : option foreign_key :=
  find (fun fk => table_eqb (fk_parent fk) t && negb (cascades fk)
                  && negb (Nat.eqb (List.length (children fk r db)) 0))
       foreign_keys.

Fixpoint delete_row (fuel : nat) (t : table) (r : row) (db : database)
  : result database :=
  match fuel with
  | O => Err CascadeTooDeep
  | S f =>
      match restricted_by t r db with
      | Some fk => Err (ForeignKeyViolation (fk_name fk))
      | None =>
          fold_left
            (fun acc fk =>
               match acc with
               | Err e => Err e
               | Ok d =>
                   if table_eqb (fk_parent fk) t && cascades fk then
                     fold_left
                       (fun acc' c =>
                          match acc' with
                          | Err e => Err e
                          | Ok d' => delete_row f (fk_child fk) c d'
                          end)
                       (children fk r d) (Ok d)
                   else Ok d
               end)
            foreign_keys
            (Ok (filter (fun tr => negb (is_row t r tr)) db))
      end
  end.

Definition delete (t : table) (key : list value) (db : database)
  : result database :=
  match find_row t key db with
  | None => Err NoSuchRow
  | Some r => delete_row (S (List.length all_tables)) t r db
  end.

(** *** The operations of the store as data, and their runs *)

Inductive operation : Type :=
| Insert (t : table) (given : row) (now : Z)
| Update (t : table) (key : list value) (changes : row)
| Delete (t : table) (key : list value).

Definition execute (op : operation) (db : database) : result database :=
  match op with
  | Insert t given now =>
      match insert t given now db with
      | Ok (db', _) => Ok db'
      | Err e => Err e
      end
  | Update t key changes =>
      match update t key changes db with
      | Ok (db', _) => Ok db'
      | Err e => Err e
      end
  | Delete t key => delete t key db
  end.

(** A refused operation leaves the store as it was. *)
Definition apply (db : database) (op : operation) : database :=
  match execute op db with
  | Ok db' => db'
  | Err _ => db
  end.

Definition run (ops : list operation) (db : database) : database :=
  fold_left apply ops db.

(** *** What the constraints promise *)

(** The non-NULL keys of the rows of the index's table, in store order. *)
Definition key_list (cols : list string) (r : row) : list (list value) :=
  match key_of cols r with
  | Some k => [k]
  | None => []
  end.

Definition index_keys (ux : unique_index) (db : database)
  : list (list value) :=
  flat_map (key_list (ux_columns ux)) (rows_of (ux_table ux) db).

Definition unique_in (ux : unique_index) (db : database) : Prop :=
  NoDup (index_keys ux db).

(** The same, said of rows: no two rows at different places of the table
    carry the same non-NULL key. *)
Definition no_two_rows_share (ux : unique_index) (db : database) : Prop :=
  forall (i j : nat) (r1 r2 : row) (k : list value),
    i <> j ->
    nth_error (rows_of (ux_table ux) db) i = Some r1 ->
    nth_error (rows_of (ux_table ux) db) j = Some r2 ->
    key_of (ux_columns ux) r1 = Some k ->
    key_of (ux_columns ux) r2 = Some k ->
    False.

Definition all_constraints : list unique_index :=
  (map primary_key all_tables ++ unique_indexes)%list.

(** Every row carries exactly the columns its table declares, in their
    order. *)
Definition shaped (db : database) : Prop :=
  Forall (fun tr => map fst (snd tr) = map col_name (columns (fst tr))) db.

End Store.

(** ** The schema validator (zod) as far as [planSchema] uses it *)

Module Zod.
Import JS.

(** A path item is a property name or an array index. *)
Inductive path_item : Type :=
| Key (k : string)
| Index (i : nat).

Inductive issue_code : Type :=
| invalid_type (expected received : string)
| too_small (kind : string) (minimum : Z).

Record issue : Type := mk_issue {
  code : issue_code;
  path : list path_item;
  message : string
}.

Inductive string_check : Type :=
| str_min (n : Z) (msg : string).

Inductive number_check : Type :=
| num_int
| num_min (n : Z) (msg : string).

(** [z.string()], [z.number()], [z.array(item)] with an optional [.min],
    [z.object(shape)]. *)
Inductive schema : Type :=
| z_string (checks : list string_check)
| z_number (checks : list number_check)
| z_array (item : schema) (min_length : option (Z * string))
| z_object (shape : list (string * schema)).

Definition getParsedType (v : value) : string :=
  match v with
  | Undefined => "undefined"
  | Null => "null"
  | Bool _ => "boolean"
  | Number NaN => "nan"
  | Number _ => "number"
  | Str _ => "string"
  | Array _ => "array"
  | Object _ => "object"
  end.

(** The message of the default error map for [invalid_type]. *)
Definition type_issue (expected : string) (v : value) (p : list path_item)
  : issue :=
  let received := getParsedType v in
  mk_issue (invalid_type expected received) p
    (if String.eqb received "undefined" then "Required"
     else "Expected " ++ expected ++ ", received " ++ received).

Definition run_string_check (s : string) (p : list path_item)
  (c : string_check) : list issue :=
  match c with
  | str_min n msg =>
      if slen s <? n then [mk_issue (too_small "string" n) p msg] else []
  end.

Definition run_number_check (x : number) (p : list path_item)
  (c : number_check) : list issue :=
  match c with
  | num_int =>
      if Number_isInteger x then []
      else [mk_issue (invalid_type "integer" "float") p
              "Expected integer, received float"]
  | num_min n msg =>
      if lt x (of_Z n) then [mk_issue (too_small "number" n) p msg] else []
  end.

(** The items of an array with their indices. *)
Definition indexed {A : Type} (l : list A) : list (nat * A) :=
  combine (seq 0 (List.length l)) l.

Definition too_short (n : Z) (msg : string) (p : list path_item)
  (items : list value) : list issue :=
  if Z.of_nat (List.length items) <? n
  then [mk_issue (too_small "array" n) p msg] else [].

(** [parse_at s p v]: the issues of value [v] against schema [s], each under
    path [p], and the parsed output (which means something when there is no
    issue).  The issues of all items and of all properties are collected;
    an object is stripped to the properties of the shape. *)
Fixpoint parse_at (s : schema) (p : list path_item) (v : value)
  : list issue * value :=
  match s with
  | z_string checks =>
      match v with
      | Str x => (flat_map (run_string_check x p) checks, v)
      | _ => ([type_issue "string" v p], v)
      end
  | z_number checks =>
      match v with
      | Number NaN => ([type_issue "number" v p], v)
      | Number x => (flat_map (run_number_check x p) checks, v)
      | _ => ([type_issue "number" v p], v)
      end
  | z_array item min_length =>
      match v with
      | Array items =>
          let short :=
            match min_length with
            | Some (n, msg) => too_short n msg p items
            | None => []
            end in
          let parsed :=
            map (fun ix : nat * value =>
                   parse_at item (p ++ [Index (fst ix)])%list (snd ix))
                (indexed items) in
          ((short ++ flat_map fst parsed)%list, Array (map snd parsed))
      | _ => ([type_issue "array" v p], v)
      end
  | z_object shape =>
      match v with
      | Object props =>
          let parsed :=
            map (fun ks : string * schema =>
                   let (k, sk) := ks in
                   (k, parse_at sk (p ++ [Key k])%list (get k props)))
                shape in
          (flat_map (fun kr : string * (list issue * value) => fst (snd kr))
                    parsed,
           Object (map (fun kr : string * (list issue * value) =>
                          (fst kr, snd (snd kr))) parsed))
      | _ => ([type_issue "object" v p], v)
      end
  end.

(** [schema.parse(v)]: the parsed value, or the [ZodError] with all the
    issues. *)
Definition parse (s : schema) (v : value) : list issue + value :=
  match parse_at s [] v with
  | ([], out) => inr out
  | (issues, _) => inl issues
  end.

End Zod.

(** ** The [/api/plans] route *)

Module Plans.
Import JS Zod.

Definition planSchema : schema :=
  z_object
    [ ("name", z_string [str_min 1 "Plan name is required"]);
      ("description", z_string [str_min 1 "Description is required"]);
      ("price", z_number [num_min 0 "Price must be non-negative"]);
      ("duration", z_number [num_int; num_min 1 "Duration must be at least 1"]);
      ("services",
        z_array (z_string []) (Some (1, "At least one service is required")));
      ("features", z_array (z_string []) None) ].

(** What [getServerSession] resolves to: no session, or a session whose
    user carries a role. *)
Record user : Type := { role : string }.
Record session : Type := { session_user : user }.

(** What a handler can throw inside its [try]. *)
Inductive exception : Type :=
| SyntaxError
| TypeError
| PrismaValidationError
| PrismaRequestError (e : Store.error).

Record formatted_plan : Type := {
  plan_id : Store.value;
  plan_name : Store.value;
  plan_description : Store.value;
  plan_price : Store.value;
  plan_duration : Store.value;
  plan_services : Store.value;
  plan_features : Store.value
}.

Record pagination : Type := {
  total : number;
  pageCount : number;
  currentPage : number;
  pageSize : number
}.

Inductive body : Type :=
| ErrorMessage (error : string)
| InternalServerError (thrown : exception)
| ZodIssues (errors : list issue)
| PlanPage (plans : list formatted_plan) (pages : pagination)
| CreatedPlan (plan : Store.row).

Record response : Type := {
  status : Z;
  json : body
}.

(** [!session || session.user.role !== "ADMIN"] *)
Definition not_admin (s : option session) : bool :=
  match s with
  | None => true
  | Some x => negb (String.eqb (role (session_user x)) "ADMIN")
  end.

Definition unauthorized : response :=
  {| status := 401; json := ErrorMessage "Unauthorized" |}.

(** *** The queries of the ORM on the Plan table *)

(** [db.plan.count()] *)
Definition plan_count (db : Store.database) : number :=
  of_Z (Z.of_nat (List.length (Store.rows_of Schema.Plan db))).

Definition created_at (r : Store.row) : Z :=
  match Store.field "createdAt" r with
  | Store.Timestamp t => t
  | _ => 0
  end.

Fixpoint insert_desc (r : Store.row) (l : list Store.row) : list Store.row :=
  match l with
  | x :: rest =>
      if created_at x <=? created_at r then r :: l
      else x :: insert_desc r rest
  | [] => [r]
  end.

(** [ORDER BY "createdAt" DESC]; rows created at the same time stay in
    store order. *)
Definition newest_first (rows : list Store.row) : list Store.row :=
  fold_right insert_desc [] rows.

Definition int64 (n : Z) : bool := (- 2 ^ 63 <=? n) && (n <? 2 ^ 63).

(** [db.plan.findMany({ orderBy: { createdAt: "desc" }, skip, take })].
    [skip] and [take] must be integers, [skip] not negative, else the client
    throws; a negative [take] counts from the end of the list. *)
Definition plan_findMany (skip take : number) (db : Store.database)
  : exception + list Store.row :=
  match to_int skip, to_int take with
  | Some s, Some k =>
      if negb (int64 s && int64 k) || (s <? 0) then inl PrismaValidationError
      else
        let ordered := newest_first (Store.rows_of Schema.Plan db) in
        if 0 <=? k then inr (firstn (Z.to_nat k) (skipn (Z.to_nat s) ordered))
        else inr (rev (firstn (Z.to_nat (- k)) (skipn (Z.to_nat s) (rev ordered))))
  | _, _ => inl PrismaValidationError
  end.

(** The [data] of [db.plan.create] from the parsed body. *)
Definition text_of (v : value) : option Store.value :=
  match v with Str s => Some (Store.Text s) | _ => None end.

Definition double_of (v : value) : option Store.value :=
  match v with Number (Fin q) => Some (Store.Double q) | _ => None end.

Definition int_of (v : value) : option Store.value :=
  match v with
  | Number x => option_map Store.Int (to_int x)
  | _ => None
  end.

Fixpoint strings_of (l : list value) : option (list string) :=
  match l with
  | Str s :: rest => option_map (cons s) (strings_of rest)
  | _ :: _ => None
  | [] => Some []
  end.

Definition text_array_of (v : value) : option Store.value :=
  match v with
  | Array items => option_map Store.TextArray (strings_of items)
  | _ => None
  end.

Definition plan_data (parsed : value) : option Store.row :=
  match parsed with
  | Object props =>
      match text_of (get "name" props), text_of (get "description" props),
            double_of (get "price" props), int_of (get "duration" props),
            text_array_of (get "services" props),
            text_array_of (get "features" props) with
      | Some n, Some d, Some p, Some du, Some s, Some f =>
          Some [ ("name", n); ("description", d); ("price", p);
                 ("duration", du); ("services", s); ("features", f) ]
      | _, _, _, _, _, _ => None
      end
  | _ => None
  end.

(** [db.plan.create({ data })]: the client supplies the id and [updatedAt],
    the store the rest. *)
Definition plan_create (data : value) (newId : string) (now : Z)
  (db : Store.database) : exception + (Store.database * Store.row) :=
  match plan_data data with
  | None => inl PrismaValidationError
  | Some fields =>
      match Store.insert Schema.Plan
              (("id", Store.Text newId) :: ("updatedAt", Store.Timestamp now)
               :: fields) now db with
      | Store.Ok created => inr created
      | Store.Err e => inl (PrismaRequestError e)
      end
  end.

(** *** [GET]: [listPlans] *)

Definition or_default (param : option string) (d : string) : string :=
  match param with
  | None => d
  | Some s => if String.eqb s "" then d else s
  end.

Definition format (plan : Store.row) : formatted_plan :=
  {| plan_id := Store.field "id" plan;
     plan_name := Store.field "name" plan;
     plan_description := Store.field "description" plan;
     plan_price := Store.field "price" plan;
     plan_duration := Store.field "duration" plan;
     plan_services := Store.field "services" plan;
     plan_features :=
       match Store.field "features" plan with
       | Store.NULL => Store.TextArray []
       | f => f
       end |}.

Definition GET (s : option session) (page_param pageSize_param : option string)
  (db : Store.database) : response :=
  if not_admin s then unauthorized
  else
    let page := parseInt_string (or_default page_param "1") in
    let pageSize := parseInt_string (or_default pageSize_param "10") in
    let skip := mul (sub page (of_Z 1)) pageSize in
    let totalPlans := plan_count db in
    match plan_findMany skip pageSize db with
    | inl _ => {| status := 500; json := ErrorMessage "Internal Server Error" |}
    | inr plans =>
        {| status := 200;
           json :=
             PlanPage (map format plans)
               {| total := totalPlans;
                  pageCount := Math_ceil (div totalPlans pageSize);
                  currentPage := page;
                  pageSize := pageSize |} |}
    end.

(** *** [POST]: [createPlan] *)

(** [json.key = coerce(json.key)].  Reading a property of [null] throws, and
    so does writing one on a primitive (the module is strict code).  An
    array takes the property without becoming an object. *)
Definition coerce_field (key : string) (coerce : value -> option number)
  (json : value) : exception + value :=
  match json with
  | Null | Undefined => inl TypeError
  | Object props =>
      match coerce (get key props) with
      | Some x => inr (Object (set key (Number x) props))
      | None => inl TypeError
      end
  | Array _ => inr json
  | _ => inl TypeError
  end.

Definition server_error (e : exception) : response :=
  {| status := 500; json := InternalServerError e |}.

Definition POST (s : option session) (request_body : option value)
  (newId : string) (now : Z) (db : Store.database)
  : response * Store.database :=
  if not_admin s then (unauthorized, db)
  else
    match request_body with
    | None => (server_error SyntaxError, db)
    | Some json0 =>
        match coerce_field "price" parseFloat json0 with
        | inl e => (server_error e, db)
        | inr json1 =>
            match coerce_field "duration" parseInt json1 with
            | inl e => (server_error e, db)
            | inr json2 =>
                match parse planSchema json2 with
                | inl errors =>
                    ({| status := 400; json := ZodIssues errors |}, db)
                | inr parsed =>
                    match plan_create parsed newId now db with
                    | inl e => (server_error e, db)
                    | inr (db', plan) =>
                        ({| status := 200; json := CreatedPlan plan |}, db')
                    end
                end
            end
        end
    end.

End Plans.

(** ** The enrollment lifecycle *)

Module Enrollments.
Import Schema Store.

Inductive outcome : Type :=
| Done
| ConflictError
| NotFoundError
| InternalError.

(** The error taxonomy: a uniqueness violation is a conflict, a missing
    referenced entity is not found, any other failure of the store is
    internal. *)
Definition outcome_of (e : error) : outcome :=
  match e with
  | UniqueViolation _ => ConflictError
  | ForeignKeyViolation _ => NotFoundError
  | _ => InternalError
  end.

(** Modelled from the spec: the handler behind [POST /api/courses/enroll]
    (only its caller, the enroll button, is among the sources).
    [enroll(user, course)] fails with [ConflictError] if an Enrollment
    already exists for the pair, enforced by the uniqueness constraint of
    the store, and otherwise creates the Enrollment with progress 0. *)
Definition enroll (userId courseId newId : string) (now : Z) (db : database)
  : outcome * database :=
  match insert Enrollment
          [ ("id", Text newId); ("userId", Text userId);
            ("courseId", Text courseId); ("progress", Int 0);
            ("updatedAt", Timestamp now) ] now db with
  | Ok (db', _) => (Done, db')
  | Err e => (outcome_of e, db)
  end.

(** The Enrollment rows of a (user, course) pair, and the LessonCompletion
    rows of an (enrollment, lesson) pair. *)
Definition enrollments_of (userId courseId : string) (db : database)
  : list row :=
  filter (key_is ["userId"; "courseId"] [Text userId; Text courseId])
         (rows_of Enrollment db).

Definition completions_of (enrollmentId lessonId : string) (db : database)
  : list row :=
  filter (key_is ["enrollmentId"; "lessonId"] [Text enrollmentId; Text lessonId])
         (rows_of LessonCompletion db).

Definition completed_count (enrollmentId : string) (db : database) : Z :=
  Z.of_nat (List.length
    (filter (fun r => value_eqb (field "enrollmentId" r) (Text enrollmentId))
            (rows_of LessonCompletion db))).

Definition lesson_count (courseId : value) (db : database) : Z :=
  Z.of_nat (List.length
    (filter (fun r => value_eqb (field "courseId" r) courseId)
            (rows_of Lesson db))).

(** Modelled from the spec: the operation that records a finished lesson
    (no handler for it is among the sources).
    [completeLesson(enrollment, lesson)] fails with [ConflictError] if the
    pair was already recorded; otherwise it inserts a LessonCompletion and
    recomputes progress = (completed lesson count / total lessons in course)
    x 100, rounded down; when progress reaches 100 it sets completedAt to
    the current time.  The quotient is integer division, which is 0 for a
    course without lessons; a failure after the insert undoes it. *)
Definition completeLesson (enrollmentId lessonId newId : string) (now : Z)
  (db : database) : outcome * database :=
  match insert LessonCompletion
          [ ("id", Text newId); ("enrollmentId", Text enrollmentId);
            ("lessonId", Text lessonId) ] now db with
  | Err e => (outcome_of e, db)
  | Ok (db1, _) =>
      match find_row Enrollment [Text enrollmentId] db1 with
      | None => (NotFoundError, db)
      | Some e =>
          let completed := completed_count enrollmentId db1 in
          let total := lesson_count (field "courseId" e) db1 in
          let progress := 100 * completed / total in
          let changes :=
            (("progress", Int progress) :: ("updatedAt", Timestamp now)
             :: (if progress =? 100 then [("completedAt", Timestamp now)]
                 else []))%list in
          match update Enrollment [Text enrollmentId] changes db1 with
          | Ok (db2, _) => (Done, db2)
          | Err _ => (InternalError, db)
          end
      end
  end.

(** The stored progress and completion time of an enrollment. *)
Definition progress_of (enrollmentId : string) (db : database) : option Z :=
  match find_row Enrollment [Text enrollmentId] db with
  | Some e => match field "progress" e with Int p => Some p | _ => None end
  | None => None
  end.


(** A run of [completeLesson] calls, and what is kept of an enrollment
    along it: its stored progress is the quotient of its counts, and its
    completion time is set as soon as the quotient is 100 or more. *)
Record lesson_call : Type := {
  call_enrollment : string;
  call_lesson : string;
  call_id : string;
  call_now : Z
}.

Definition complete_lessons (calls : list lesson_call) (db : database)
  : database :=
  fold_left
    (fun d c =>
       snd (completeLesson (call_enrollment c) (call_lesson c) (call_id c)
                           (call_now c) d))
    calls db.

Definition quotient (enrollmentId : string) (e : row) (db : database) : Z :=
  100 * completed_count enrollmentId db / lesson_count (field "courseId" e) db.


End Enrollments.

(** ** The error page: what it shows of the [message] query parameter *)

Module ErrorPage.

(** A JavaScript string, as the sequence of its UTF-16 code units. *)
Definition jsstring : Type := list Z.

Definition percent : Z := 37.

Definition hex_digit (c : Z) : option Z :=
  if (48 <=? c) && (c <=? 57) then Some (c - 48)
  else if (65 <=? c) && (c <=? 70) then Some (c - 55)
  else if (97 <=? c) && (c <=? 102) then Some (c - 87)
  else None.

(** [ParseHexOctet]: the octet two hexadecimal digits write. *)
Definition hex_octet (h1 h2 : Z) : option Z :=
  match hex_digit h1, hex_digit h2 with
  | Some a, Some b => Some (16 * a + b)
  | _, _ => None
  end.

(** The number of leading 1 bits of an octet. *)
Definition leading_ones (b : Z) : Z :=
  if b <? 128 then 0
  else if b <? 192 then 1
  else if b <? 224 then 2
  else if b <? 240 then 3
  else if b <? 248 then 4
  else if b <? 252 then 5
  else if b <? 254 then 6
  else if b <? 255 then 7
  else 8.

Definition between (lo hi b : Z) : bool := (lo <=? b) && (b <=? hi).

Definition continuation (b : Z) : bool := between 128 191 b.

(** The code point that a well-formed UTF-8 sequence of two to four octets
    encodes (the well-formed sequences of the Unicode standard: no overlong
    form, no surrogate, nothing above U+10FFFF), none for any other
    sequence. *)
Definition utf8_code_point (octets : list Z) : option Z :=
  match octets with
  | [b0; b1] =>
      if between 194 223 b0 && continuation b1
      then Some ((b0 - 192) * 64 + (b1 - 128))
      else None
  | [b0; b1; b2] =>
      if ((b0 =? 224) && between 160 191 b1
          || between 225 236 b0 && continuation b1
          || (b0 =? 237) && between 128 159 b1
          || between 238 239 b0 && continuation b1)
         && continuation b2
      then Some (((b0 - 224) * 64 + (b1 - 128)) * 64 + (b2 - 128))
      else None
  | [b0; b1; b2; b3] =>
      if ((b0 =? 240) && between 144 191 b1
          || between 241 243 b0 && continuation b1
          || (b0 =? 244) && between 128 143 b1)
         && continuation b2 && continuation b3
      then Some ((((b0 - 240) * 64 + (b1 - 128)) * 64 + (b2 - 128)) * 64
                 + (b3 - 128))
      else None
  | _ => None
  end.

(** [UTF16EncodeCodePoint] *)
Definition utf16_encode (cp : Z) : jsstring :=
  if cp <=? 65535 then [cp]
  else [ (cp - 65536) / 1024 + 55296; (cp - 65536) mod 1024 + 56320 ].

(** What a call comes to: it returns, or it throws a [URIError]. *)
Inductive outcome (A : Type) : Type :=
| Returned (a : A)
| URIError.

Arguments Returned {A} a.
Arguments URIError {A}.

Definition prepend (units : jsstring) (rest : outcome jsstring)
  : outcome jsstring :=
  match rest with
  | Returned r => Returned (units ++ r)%list
  | URIError => URIError
  end.

(** [Decode(string, the empty set)], read from the left.  [pending] counts
    the continuation octets that the multi-octet escape being read still
    needs, [octets] holds the octets of it read so far. *)
Fixpoint decode (pending : nat) (octets : list Z) (s : jsstring) {struct s}
  : outcome jsstring :=
  match pending with
  | O =>
      match s with
      | [] => Returned []
      | c :: rest =>
          if c =? percent then
            match rest with
            | h1 :: h2 :: rest' =>
                match hex_octet h1 h2 with
                | None => URIError
                | Some b =>
                    let n := leading_ones b in
                    if n =? 0 then prepend [b] (decode 0 [] rest')
                    else if (n =? 1) || (4 <? n) then URIError
                    else decode (Z.to_nat (n - 1)) [b] rest'
                end
            | _ => URIError
            end
          else prepend [c] (decode 0 [] rest)
      end
  | S j =>
      match s with
      | c :: h1 :: h2 :: rest' =>
          if c =? percent then
            match hex_octet h1 h2 with
            | None => URIError
            | Some b =>
                let octets' := (octets ++ [b])%list in
                match j with
                | O =>
                    match utf8_code_point octets' with
                    | None => URIError
                    | Some v => prepend (utf16_encode v) (decode 0 [] rest')
                    end
                | S _ => decode j octets' rest'
                end
            end
          else URIError
      | _ => URIError
      end
  end.

Definition decodeURIComponent (s : jsstring) : outcome jsstring :=
  decode 0 [] s.

(** The state of the component, and what it renders. *)
Record state : Type := {
  errorMessage : jsstring;
  mounted : bool
}.

Definition initial : state := {| errorMessage := []; mounted := false |}.

(** The effect run once after mounting, given what
    [params.get("message")] returned ([None] for [null]):
    [setErrorMessage(message ? decodeURIComponent(message) : "")], then
    [setMounted(true)].  When the decoding throws, no state is set. *)
Definition effect (message : option jsstring) (st : state) : outcome state :=
  match message with
  | None | Some [] => Returned {| errorMessage := []; mounted := true |}
  | Some m =>
      match decodeURIComponent m with
      | Returned text => Returned {| errorMessage := text; mounted := true |}
      | URIError => URIError
      end
  end.

(** The page: the heading, the paragraph with the message when there is
    one, and the link home. *)
Record page : Type := {
  heading : string;
  paragraph : option jsstring;
  link_target : string;
  link_label : string
}.

(** [None] is the [null] rendered as long as the component is not marked
    mounted. *)
Definition render (st : state) : option page :=
  if negb (mounted st) then None
  else Some {| heading := "Oops! Something went wrong";
               paragraph :=
                 match errorMessage st with
                 | [] => None
                 | text => Some text
                 end;
               link_target := "/";
               link_label := "Return to Home" |}.

(** What is on the screen once the effect has run. *)
Definition shown (message : option jsstring) : option page :=
  match effect message initial with
  | Returned st => render st
  | URIError => render initial
  end.

End ErrorPage.

(** ** The subscription form: plan selection, payment proof, submission *)

Module SubscribePlan.

Record Plan : Type := {
  id : string;
  name : string;
  description : string;
  price : JS.number
}.

Definition plans : list Plan :=
  [ {| id := "1"; name := "Basic";
       description := "Essential mentorship services";
       price := JS.Fin 49.99 |};
    {| id := "2"; name := "Pro";
       description := "Advanced mentorship and resources";
       price := JS.Fin 99.99 |};
    {| id := "3"; name := "Enterprise";
       description := "Comprehensive career development suite";
       price := JS.Fin 199.99 |} ].

(** A [File] of the browser, told from others by its name. *)
Record File : Type := { file_name : string }.

(** The two pieces of state; [None] stands for [null] (and for the
    [undefined] that the first item of an empty [FileList] is: the code
    tests both with [!]). *)
Record state : Type := {
  selectedPlan : option Plan;
  paymentProof : option File
}.

Definition initial : state :=
  {| selectedPlan := None; paymentProof := None |}.

Inductive effect : Type :=
| Toast (title description : string) (variant : option string)
| LogPlan (label : string) (plan : Plan)
| LogFile (label : string) (file : File).

(** What the user does: the Subscribe button of a plan's card
    ([setSelectedPlan(plan)]), a change of the file input
    ([handleFileChange], with [e.target.files], which may be [null]), the
    Complete Subscription button ([handleSubscribe]). *)
Inductive event : Type :=
| ClickSubscribe (plan : Plan)
| ChangeFile (files : option (list File))
| ClickComplete.

Definition handleFileChange (files : option (list File)) (st : state)
  : state :=
  match files with
  | Some list =>
      {| selectedPlan := selectedPlan st; paymentProof := nth_error list 0 |}
  | None => st
  end.

Definition handleSubscribe (st : state) : state * list effect :=
  match selectedPlan st, paymentProof st with
  | Some plan, Some proof =>
      (initial,
       [ LogPlan "Subscribing to plan:" plan;
         LogFile "Payment proof:" proof;
         Toast "Subscription Submitted"
           "Your subscription request has been submitted for approval."
           None ])
  | _, _ =>
      (st,
       [ Toast "Error" "Please select a plan and upload payment proof."
           (Some "destructive") ])
  end.

Definition handle (st : state) (e : event) : state * list effect :=
  match e with
  | ClickSubscribe plan =>
      ({| selectedPlan := Some plan; paymentProof := paymentProof st |}, [])
  | ChangeFile files => (handleFileChange files st, [])
  | ClickComplete => handleSubscribe st
  end.

(** A session: the events one after the other, each handled in the state
    the one before has left; the effects in the order they happen. *)
Fixpoint run (events : list event) (st : state) : state * list effect :=
  match events with
  | [] => (st, [])
  | e :: rest =>
      let (st1, fx) := handle st e in
      let (st2, fx') := run rest st1 in
      (st2, (fx ++ fx')%list)
  end.

End SubscribePlan.

(** * Properties *)

(** ** Lists *)

Section NoDupFacts.
Context {A : Type}.

Lemma nodup_append_inv (l1 l2 : list A) :
  NoDup (l1 ++ l2)%list ->
  NoDup l1 /\ NoDup l2 /\ (forall x, In x l1 -> ~ In x l2).
Proof.
  induction l1 as [| a l1 IH]; simpl; intros H.
  - repeat split; [constructor | assumption | tauto].
  - inversion H as [| ? ? Hnotin Hrest]; subst.
    destruct (IH Hrest) as (H1 & H2 & H3).
    repeat split.
    + constructor; [| assumption].
      intro Hin. apply Hnotin. apply in_or_app. now left.
    + assumption.
    + intros x [-> | Hin] Hin2.
      * apply Hnotin. apply in_or_app. now right.
      * exact (H3 x Hin Hin2).
Qed.

Lemma nodup_append (l1 l2 : list A) :
  NoDup l1 -> NoDup l2 -> (forall x, In x l1 -> ~ In x l2) ->
  NoDup (l1 ++ l2)%list.
Proof.
  induction l1 as [| a l1 IH]; simpl; intros H1 H2 H3; [assumption |].
  inversion H1; subst.
  constructor.
  - intro Hin. apply in_app_or in Hin. destruct Hin as [Hin | Hin].
    + contradiction.
    + exact (H3 a (or_introl eq_refl) Hin).
  - apply IH; auto.
Qed.

Lemma nodup_drop_middle (l1 m l2 : list A) :
  NoDup (l1 ++ m ++ l2)%list -> NoDup (l1 ++ l2)%list.
Proof.
  intros H.
  destruct (nodup_append_inv _ _ H) as (H1 & H2 & H3).
  destruct (nodup_append_inv _ _ H2) as (_ & H4 & _).
  apply nodup_append; auto.
  intros x Hx Hx2. apply (H3 x Hx). apply in_or_app. now right.
Qed.

Lemma nodup_put_middle (l1 m l2 : list A) :
  NoDup (l1 ++ l2)%list -> NoDup m ->
  (forall x, In x m -> ~ In x (l1 ++ l2)%list) ->
  NoDup (l1 ++ m ++ l2)%list.
Proof.
  intros H Hm Hfresh.
  destruct (nodup_append_inv _ _ H) as (H1 & H2 & H3).
  apply nodup_append; auto.
  - apply nodup_append; auto.
    intros x Hx Hx2. apply (Hfresh x Hx). apply in_or_app. now right.
  - intros x Hx Hx2. apply in_app_or in Hx2. destruct Hx2 as [Hx2 | Hx2].
    + apply (Hfresh x Hx2). apply in_or_app. now left.
    + exact (H3 x Hx Hx2).
Qed.

End NoDupFacts.

Section ListFacts.
Context {A B : Type}.

Lemma nodup_flat_map_filter (g : A -> list B) (p : A -> bool) (l : list A) :
  NoDup (flat_map g l) -> NoDup (flat_map g (filter p l)).
Proof.
  induction l as [| a l IH]; simpl; intros H; [assumption |].
  destruct (nodup_append_inv _ _ H) as (H1 & H2 & H3).
  destruct (p a); simpl; [| auto].
  apply nodup_append; auto.
  intros x Hx Hx2. apply (H3 x Hx).
  apply in_flat_map in Hx2. destruct Hx2 as (y & Hy & Hxy).
  apply in_flat_map. exists y. split; [| assumption].
  apply filter_In in Hy. tauto.
Qed.

Lemma filter_filter (p q : A -> bool) (l : list A) :
  filter p (filter q l) = filter (fun x => q x && p x) l.
Proof.
  induction l as [| a l IH]; simpl; [reflexivity |].
  destruct (q a); simpl; [destruct (p a) |]; now rewrite IH.
Qed.

(** Where [find] finds its element, [replace_first] and [remove_first]
    act. *)
Lemma find_split (p : A -> bool) (new : A) (l : list A) (x : A) :
  find p l = Some x ->
  exists l1 l2,
    l = (l1 ++ x :: l2)%list /\ p x = true
    /\ Store.replace_first p new l = (l1 ++ new :: l2)%list
    /\ Store.remove_first p l = (l1 ++ l2)%list
    /\ find p l1 = None.
Proof.
  induction l as [| a l IH]; simpl; [discriminate |].
  destruct (p a) eqn:Hpa.
  - intros [= ->]. exists [], l. simpl. auto.
  - intros Hf. destruct (IH Hf) as (l1 & l2 & -> & Hpx & Hr & Hd & Hn).
    exists (a :: l1), l2. simpl. rewrite Hr, Hd, Hpa. auto.
Qed.

End ListFacts.

(** ** The store keeps its unique keys unique *)

Module StoreFacts.
Import Schema Store.

Lemma table_eqb_true (a b : table) : table_eqb a b = true <-> a = b.
Proof. unfold table_eqb. destruct (table_eq_dec a b); split; congruence. Qed.

Lemma table_eqb_refl (a : table) : table_eqb a a = true.
Proof. now apply table_eqb_true. Qed.

Lemma value_eqb_true (a b : value) : value_eqb a b = true <-> a = b.
Proof. unfold value_eqb. destruct (value_eq_dec a b); split; congruence. Qed.

Lemma rows_of_app (t : table) (a b : database) :
  rows_of t (a ++ b)%list = (rows_of t a ++ rows_of t b)%list.
Proof. unfold rows_of. now rewrite filter_app, map_app. Qed.

Lemma rows_of_one (t t' : table) (r : row) :
  rows_of t [(t', r)] = if table_eqb t' t then [r] else [].
Proof. unfold rows_of. simpl. now destruct (table_eqb t' t). Qed.

Lemma rows_of_cons (t t' : table) (r : row) (db : database) :
  rows_of t ((t', r) :: db)
  = ((if table_eqb t' t then [r] else []) ++ rows_of t db)%list.
Proof. unfold rows_of. simpl. now destruct (table_eqb t' t). Qed.

(** The keys of an index, read off the store row by row. *)
Definition keys_at (ux : unique_index) (tr : table * row) : list (list value) :=
  if table_eqb (fst tr) (ux_table ux) then key_list (ux_columns ux) (snd tr)
  else [].

Lemma index_keys_flat (ux : unique_index) (db : database) :
  index_keys ux db = flat_map (keys_at ux) db.
Proof.
  unfold index_keys, rows_of, keys_at.
  induction db as [| [t r] db IH]; simpl; [reflexivity |].
  destruct (table_eqb t (ux_table ux)); simpl; now rewrite IH.
Qed.

Lemma index_keys_app (ux : unique_index) (a b : database) :
  index_keys ux (a ++ b)%list = (index_keys ux a ++ index_keys ux b)%list.
Proof. rewrite !index_keys_flat. apply flat_map_app. Qed.

Lemma index_keys_cons (ux : unique_index) (tr : table * row) (db : database) :
  index_keys ux (tr :: db) = (keys_at ux tr ++ index_keys ux db)%list.
Proof. rewrite !index_keys_flat. reflexivity. Qed.

Lemma nodup_key_list (cols : list string) (r : row) : NoDup (key_list cols r).
Proof.
  unfold key_list. destruct (key_of cols r); repeat constructor. simpl. tauto.
Qed.

Lemma nodup_keys_at (ux : unique_index) (tr : table * row) :
  NoDup (keys_at ux tr).
Proof.
  unfold keys_at. destruct (table_eqb _ _); [apply nodup_key_list | constructor].
Qed.

(** A row that conflicts with none of the rows brings a new key. *)
Lemma no_conflict_fresh (ux : unique_index) (r : row) (rows : list row)
  (k : list value) :
  conflicts ux r rows = false ->
  In k (key_list (ux_columns ux) r) ->
  ~ In k (flat_map (key_list (ux_columns ux)) rows).
Proof.
  unfold conflicts, key_list. intros Hc Hk Hin.
  destruct (key_of (ux_columns ux) r) as [k0 |] eqn:Hr; [| contradiction].
  destruct Hk as [<- | []].
  apply in_flat_map in Hin. destruct Hin as (r' & Hr' & Hkr').
  destruct (key_of (ux_columns ux) r') as [k' |] eqn:Hk'; [| contradiction].
  destruct Hkr' as [<- | []].
  assert (Hs : same_key (ux_columns ux) r r' = true).
  { unfold same_key. rewrite Hr, Hk'. now destruct (key_eq_dec k' k'). }
  assert (Hex : existsb (same_key (ux_columns ux) r) rows = true).
  { apply existsb_exists. now exists r'. }
  congruence.
Qed.

Lemma first_conflict_none (t : table) (r : row) (rows : list row)
  (ux : unique_index) :
  first_conflict t r rows = None -> In ux (constraints_of t) ->
  conflicts ux r rows = false.
Proof.
  unfold first_conflict. intros Hf Hin.
  exact (find_none _ _ Hf ux Hin).
Qed.

(** Every constraint is among the constraints of its own table. *)
Definition ux_eq_dec (a b : unique_index) : {a = b} + {a <> b}.
Proof.
  decide equality;
    auto using string_dec, table_eq_dec, list_eq_dec.
Defined.

Lemma constraint_of_its_table (ux : unique_index) :
  In ux all_constraints -> In ux (constraints_of (ux_table ux)).
Proof.
  assert (H : forallb
                (fun u => if in_dec ux_eq_dec u (constraints_of (ux_table u))
                          then true else false) all_constraints = true)
    by (vm_compute; reflexivity).
  intros Hin. rewrite forallb_forall in H. specialize (H ux Hin).
  now destruct (in_dec ux_eq_dec ux (constraints_of (ux_table ux))).
Qed.

Lemma insert_keeps_unique (ux : unique_index) (t : table) (given : row)
  (now : Z) (db db' : database) (r : row) :
  In ux all_constraints ->
  unique_in ux db ->
  insert t given now db = Ok (db', r) ->
  unique_in ux db'.
Proof.
  unfold insert, unique_in. intros Hux Hu Hins.
  destruct (undefined_column t given); [discriminate |].
  destruct (check_row t (complete t given now)); [discriminate |].
  destruct (first_conflict t (complete t given now) (rows_of t db)) eqn:Hfc;
    [discriminate |].
  destruct (first_dangling t (complete t given now) db); [discriminate |].
  injection Hins as <- <-.
  rewrite index_keys_app, index_keys_cons. simpl. rewrite app_nil_r.
  apply nodup_append; [assumption | apply nodup_keys_at |].
  intros k Hk Hk'. unfold keys_at in Hk'. simpl in Hk'.
  destruct (table_eqb t (ux_table ux)) eqn:Ht; [| contradiction].
  apply table_eqb_true in Ht. subst t.
  apply constraint_of_its_table in Hux.
  pose proof (first_conflict_none _ _ _ ux Hfc Hux) as Hc.
  exact (no_conflict_fresh _ _ _ k Hc Hk' Hk).
Qed.

Lemma has_key_table (t : table) (key : list value) (tr : table * row) :
  has_key t key tr = true -> fst tr = t.
Proof.
  unfold has_key. intros H. apply andb_prop in H. destruct H as [H _].
  now apply table_eqb_true.
Qed.

Lemma update_keeps_unique (ux : unique_index) (t : table) (key : list value)
  (changes : row) (db db' : database) (r : row) :
  In ux all_constraints ->
  unique_in ux db ->
  update t key changes db = Ok (db', r) ->
  unique_in ux db'.
Proof.
  unfold update, unique_in, find_row. intros Hux Hu Hup.
  destruct (find (has_key t key) db) as [[t0 old] |] eqn:Hfind;
    simpl in Hup; [| discriminate].
  destruct (undefined_column t changes); [discriminate |].
  destruct (find _ (map fst changes)); [discriminate |].
  destruct (check_row t (override old changes)); [discriminate |].
  destruct (first_conflict t (override old changes) _) eqn:Hfc; [discriminate |].
  destruct (first_dangling t (override old changes) db); [discriminate |].
  injection Hup as <- <-.
  destruct (find_split _ (t, override old changes) _ _ Hfind)
    as (l1 & l2 & Hdb & Hp & Hrep & Hrem & _).
  rewrite Hrep. rewrite Hrem in Hfc. rewrite Hdb in Hu.
  rewrite index_keys_app, index_keys_cons in *.
  apply nodup_put_middle.
  - exact (nodup_drop_middle _ _ _ Hu).
  - apply nodup_keys_at.
  - intros k Hk Hin. unfold keys_at in Hk. simpl in Hk.
    destruct (table_eqb t (ux_table ux)) eqn:Ht; [| contradiction].
    apply table_eqb_true in Ht. subst t.
    apply constraint_of_its_table in Hux.
    pose proof (first_conflict_none _ _ _ ux Hfc Hux) as Hc.
    apply (no_conflict_fresh _ _ _ k Hc Hk).
    fold (index_keys ux (l1 ++ l2)%list). now rewrite index_keys_app.
Qed.

(** *** DELETE only removes rows *)

Lemma fold_err {X : Type} (step : result database -> X -> result database)
  (xs : list X) (e : error) :
  (forall e' x, step (Err e') x = Err e') ->
  fold_left step xs (Err e) = Err e.
Proof.
  intros Hstep. induction xs as [| x xs IH]; simpl; [reflexivity |].
  now rewrite Hstep.
Qed.

Lemma fold_keeps {X : Type} (I : database -> Prop)
  (step : result database -> X -> result database) (xs : list X) :
  (forall e x, step (Err e) x = Err e) ->
  (forall d x d', I d -> step (Ok d) x = Ok d' -> I d') ->
  forall d d', I d -> fold_left step xs (Ok d) = Ok d' -> I d'.
Proof.
  intros Herr Hstep. induction xs as [| x xs IH]; simpl; intros d d' Hd Hf.
  - now injection Hf as <-.
  - destruct (step (Ok d) x) as [d1 | e] eqn:Hs.
    + exact (IH d1 d' (Hstep d x d1 Hd Hs) Hf).
    + rewrite fold_err in Hf by assumption. discriminate.
Qed.

Definition without (t : table) (r : row) (db : database) : database :=
  filter (fun tr => negb (is_row t r tr)) db.

Definition cascade_step (f : nat) (t : table) (r : row)
  (acc : result database) (fk : foreign_key) : result database :=
  match acc with
  | Err e => Err e
  | Ok d =>
      if table_eqb (fk_parent fk) t && cascades fk then
        fold_left
          (fun acc' c =>
             match acc' with
             | Err e => Err e
             | Ok d' => delete_row f (fk_child fk) c d'
             end)
          (children fk r d) (Ok d)
      else Ok d
  end.

Lemma delete_row_step (f : nat) (t : table) (r : row) (db : database) :
  delete_row (S f) t r db
  = match restricted_by t r db with
    | Some fk => Err (ForeignKeyViolation (fk_name fk))
    | None => fold_left (cascade_step f t r) foreign_keys (Ok (without t r db))
    end.
Proof. reflexivity. Qed.

Lemma delete_row_filter (fuel : nat) :
  forall (t : table) (r : row) (db db' : database),
    delete_row fuel t r db = Ok db' ->
    exists p, db' = filter p (without t r db).
Proof.
  induction fuel as [| f IH]; intros t r db db' H; [discriminate |].
  rewrite delete_row_step in H.
  destruct (restricted_by t r db); [discriminate |].
  revert H.
  apply (fold_keeps (fun d => exists p, d = filter p (without t r db))).
  - reflexivity.
  - intros d fk d' (p & ->) Hstep. unfold cascade_step in Hstep.
    destruct (table_eqb (fk_parent fk) t && cascades fk).
    + revert Hstep.
      apply (fold_keeps (fun d => exists p, d = filter p (without t r db))).
      * reflexivity.
      * intros d1 c d2 (q & ->) Hc.
        destruct (IH _ _ _ _ Hc) as (q' & ->).
        unfold without at 1. rewrite !filter_filter. eauto.
      * eauto.
    + injection Hstep as <-. eauto.
  - exists (fun _ => true).
    clear. induction (without t r db) as [| a l IHl]; simpl; congruence.
Qed.

Lemma delete_row_sub (fuel : nat) (t : table) (r : row) (db db' : database) :
  delete_row fuel t r db = Ok db' -> exists p, db' = filter p db.
Proof.
  intros H. destruct (delete_row_filter _ _ _ _ _ H) as (p & ->).
  unfold without. rewrite filter_filter. eauto.
Qed.

Lemma delete_row_removes (fuel : nat) (t : table) (r : row)
  (db db' : database) :
  delete_row fuel t r db = Ok db' -> ~ In (t, r) db'.
Proof.
  intros H Hin. destruct (delete_row_filter _ _ _ _ _ H) as (p & ->).
  apply filter_In in Hin. destruct Hin as [Hin _].
  apply filter_In in Hin. destruct Hin as [_ Hin].
  unfold is_row in Hin. simpl in Hin.
  rewrite table_eqb_refl in Hin.
  now destruct (row_eq_dec r r).
Qed.

Lemma filter_keeps_unique (ux : unique_index) (p : table * row -> bool)
  (db : database) :
  unique_in ux db -> unique_in ux (filter p db).
Proof.
  unfold unique_in. rewrite !index_keys_flat. apply nodup_flat_map_filter.
Qed.

Lemma delete_keeps_unique (ux : unique_index) (t : table) (key : list value)
  (db db' : database) :
  unique_in ux db -> delete t key db = Ok db' -> unique_in ux db'.
Proof.
  unfold delete. intros Hu H.
  destruct (find_row t key db); [| discriminate].
  destruct (delete_row_sub _ _ _ _ _ H) as (p & ->).
  now apply filter_keeps_unique.
Qed.

(** No operation of the store breaks a primary key or a unique index. *)
Lemma execute_keeps_unique (ux : unique_index) (op : operation)
  (db db' : database) :
  In ux all_constraints ->
  unique_in ux db -> execute op db = Ok db' -> unique_in ux db'.
Proof.
  intros Hux Hu H. destruct op as [t given now | t key changes | t key];
    simpl in H.
  - destruct (insert t given now db) as [[d r] |] eqn:Hi; [| discriminate].
    injection H as <-. eapply insert_keeps_unique; eauto.
  - destruct (update t key changes db) as [[d r] |] eqn:Hu'; [| discriminate].
    injection H as <-. eapply update_keeps_unique; eauto.
  - eapply delete_keeps_unique; eauto.
Qed.

Lemma apply_keeps_unique (ux : unique_index) (op : operation) (db : database) :
  In ux all_constraints -> unique_in ux db -> unique_in ux (apply db op).
Proof.
  intros Hux Hu. unfold apply.
  destruct (execute op db) eqn:He; [| assumption].
  eapply execute_keeps_unique; eauto.
Qed.

Lemma run_keeps_unique (ux : unique_index) (ops : list operation) :
  In ux all_constraints ->
  forall db, unique_in ux db -> unique_in ux (run ops db).
Proof.
  intros Hux. unfold run.
  induction ops as [| op ops IH]; simpl; intros db Hu; [assumption |].
  apply IH. now apply apply_keeps_unique.
Qed.

(** *** Unique keys, said of rows *)

Lemma unique_rows_iff (cols : list string) (rows : list row) :
  NoDup (flat_map (key_list cols) rows)
  <-> (forall i j r1 r2 k,
          i <> j -> nth_error rows i = Some r1 -> nth_error rows j = Some r2 ->
          key_of cols r1 = Some k -> key_of cols r2 = Some k -> False).
Proof.
  induction rows as [| x rows IH]; simpl.
  - split; [| constructor].
    intros _ i j r1 r2 k _ H. destruct i; discriminate.
  - split.
    + intros Hn. destruct (nodup_append_inv _ _ Hn) as (_ & Hrest & Hfresh).
      assert (Hhead : forall j r k, nth_error rows j = Some r ->
                key_of cols x = Some k -> key_of cols r = Some k -> False).
      { intros j r k Hj Hx Hr. apply (Hfresh k).
        - unfold key_list. rewrite Hx. now left.
        - apply in_flat_map. exists r. split.
          + eapply nth_error_In; eauto.
          + unfold key_list. rewrite Hr. now left. }
      intros [| i] [| j] r1 r2 k Hij H1 H2 K1 K2; simpl in *.
      * congruence.
      * injection H1 as <-. eauto.
      * injection H2 as <-. eauto.
      * apply (proj1 IH Hrest i j r1 r2 k); auto.
    + intros H. apply nodup_append.
      * apply nodup_key_list.
      * apply IH. intros i j r1 r2 k Hij H1 H2.
        apply (H (S i) (S j)); auto.
      * intros k Hk Hin. unfold key_list in Hk.
        destruct (key_of cols x) as [k0 |] eqn:Hx; [| contradiction].
        destruct Hk as [<- | []].
        apply in_flat_map in Hin. destruct Hin as (r & Hr & Hkr).
        unfold key_list in Hkr.
        destruct (key_of cols r) as [k1 |] eqn:Hk1; [| contradiction].
        destruct Hkr as [<- | []].
        apply In_nth_error in Hr. destruct Hr as (j & Hj).
        apply (H O (S j) x r k1); auto.
Qed.

Lemma unique_in_rows (ux : unique_index) (db : database) :
  unique_in ux db <-> no_two_rows_share ux db.
Proof. apply unique_rows_iff. Qed.

End StoreFacts.

(** ** What DELETE does along the foreign keys *)

Module DeleteFacts.
Import Schema Store StoreFacts.

Lemma in_rows_of (t : table) (r : row) (db : database) :
  In r (rows_of t db) <-> In (t, r) db.
Proof.
  unfold rows_of. rewrite in_map_iff. split.
  - intros ([t' r'] & Heq & Hin). simpl in Heq. subst r'.
    apply filter_In in Hin. destruct Hin as [Hin Ht]. simpl in Ht.
    apply table_eqb_true in Ht. now subst.
  - intros Hin. exists (t, r). split; [reflexivity |].
    apply filter_In. split; [assumption | apply table_eqb_refl].
Qed.

Lemma in_children (fk : foreign_key) (parent c : row) (db : database) :
  In c (children fk parent db)
  <-> In (fk_child fk, c) db /\ refers fk c parent = true.
Proof. unfold children. rewrite filter_In, in_rows_of. tauto. Qed.

Lemma no_element {A : Type} (l : list A) : (forall x, ~ In x l) -> l = [].
Proof.
  destruct l as [| a l]; [reflexivity |].
  intros H. exfalso. apply (H a). now left.
Qed.

Lemma children_filter (fk : foreign_key) (parent : row)
  (p : table * row -> bool) (db : database) :
  children fk parent db = [] -> children fk parent (filter p db) = [].
Proof.
  intros H. apply no_element. intros c Hc.
  apply in_children in Hc. destruct Hc as [Hin Hr].
  apply filter_In in Hin. destruct Hin as [Hin _].
  assert (Hc : In c (children fk parent db)) by (apply in_children; auto).
  rewrite H in Hc. contradiction.
Qed.

Lemma find_all_false {A : Type} (p : A -> bool) (l : list A) :
  (forall x, In x l -> p x = false) -> find p l = None.
Proof.
  induction l as [| a l IH]; simpl; intros H; [reflexivity |].
  rewrite (H a (or_introl eq_refl)). apply IH. intros x Hx. apply H. now right.
Qed.

Lemma cascades_true (fk : foreign_key) :
  cascades fk = true <-> fk_on_delete fk = CASCADE.
Proof.
  unfold cascades.
  destruct (action_eq_dec (fk_on_delete fk) CASCADE); split; congruence.
Qed.

(** *** A RESTRICT foreign key with a referencing row refuses the delete *)

Lemma restricted_by_some (fk : foreign_key) (parent : row) (db : database) :
  In fk foreign_keys -> cascades fk = false ->
  children fk parent db <> [] ->
  exists fk', restricted_by (fk_parent fk) parent db = Some fk'.
Proof.
  intros Hin Hc Hch. unfold restricted_by.
  match goal with |- exists _, find ?p _ = _ => destruct (find p foreign_keys) eqn:Hf end.
  - eauto.
  - exfalso. pose proof (find_none _ _ Hf fk Hin) as Hp. simpl in Hp.
    rewrite table_eqb_refl, Hc in Hp. simpl in Hp.
    destruct (children fk parent db); [congruence | discriminate].
Qed.

Lemma restrict_refuses (fk : foreign_key) (key : list value) (parent : row)
  (db : database) :
  In fk foreign_keys -> cascades fk = false ->
  find_row (fk_parent fk) key db = Some parent ->
  children fk parent db <> [] ->
  exists name, delete (fk_parent fk) key db = Err (ForeignKeyViolation name).
Proof.
  intros Hin Hc Hfind Hch. unfold delete. rewrite Hfind.
  rewrite delete_row_step.
  destruct (restricted_by_some fk parent db Hin Hc Hch) as (fk' & ->).
  eauto.
Qed.

(** *** After a delete that went through, nothing references the row *)

Lemma cascade_children_gone (f : nat) (child : table) (l : list row) :
  forall d d',
    fold_left
      (fun acc' c =>
         match acc' with
         | Err e => Err e
         | Ok d' => delete_row f child c d'
         end) l (Ok d) = Ok d' ->
    (exists p, d' = filter p d) /\ (forall c, In c l -> ~ In (child, c) d').
Proof.
  induction l as [| a l IH]; simpl; intros d d' H.
  - injection H as <-. split; [| tauto].
    exists (fun _ => true). clear. induction d; simpl; congruence.
  - destruct (delete_row f child a d) as [d1 | e] eqn:Ha.
    + destruct (IH d1 d' H) as ((p & ->) & Hgone).
      destruct (delete_row_sub _ _ _ _ _ Ha) as (q & Hq).
      split.
      * subst d1. rewrite filter_filter. eauto.
      * intros c [<- | Hc]; [| auto].
        intros Hin. apply filter_In in Hin. destruct Hin as [Hin _].
        exact (delete_row_removes _ _ _ _ _ Ha Hin).
    + rewrite fold_err in H by reflexivity. discriminate.
Qed.

Lemma cascade_steps_clear (f : nat) (t : table) (r : row)
  (fks : list foreign_key) :
  forall d d',
    fold_left (cascade_step f t r) fks (Ok d) = Ok d' ->
    (exists p, d' = filter p d)
    /\ (forall fk, In fk fks -> fk_parent fk = t -> cascades fk = true ->
                   children fk r d' = []).
Proof.
  induction fks as [| a fks IH]; simpl; intros d d' H.
  - injection H as <-. split; [| tauto].
    exists (fun _ => true). clear. induction d; simpl; congruence.
  - destruct (table_eqb (fk_parent a) t && cascades a) eqn:Hcase.
    + match type of H with
      | fold_left _ _ ?x = _ => destruct x as [d1 | e] eqn:Hin
      end.
      * destruct (IH d1 d' H) as ((p & ->) & Hrest).
        destruct (cascade_children_gone _ _ _ _ _ Hin) as ((q & Hq) & Hgone).
        split; [subst d1; rewrite filter_filter; eauto |].
        intros fk [<- | Hfk] Hp Hc; [| auto].
        apply no_element. intros c Hc'.
        apply in_children in Hc'. destruct Hc' as [Hc1 Hc2].
        apply filter_In in Hc1. destruct Hc1 as [Hc1 _].
        apply (Hgone c); [| assumption].
        apply in_children. split; [| assumption].
        subst d1. apply filter_In in Hc1. tauto.
      * rewrite fold_err in H by reflexivity. discriminate.
    + destruct (IH d d' H) as (Hp & Hrest). split; [assumption |].
      intros fk [<- | Hfk] Hpar Hc; [| auto].
      rewrite Hpar, table_eqb_refl, Hc in Hcase. discriminate.
Qed.

Lemma delete_leaves_no_child (t : table) (key : list value) (r : row)
  (db db' : database) :
  find_row t key db = Some r ->
  delete t key db = Ok db' ->
  ~ In (t, r) db'
  /\ (forall fk, In fk foreign_keys -> fk_parent fk = t ->
                 children fk r db' = []).
Proof.
  unfold delete. intros Hfind H. rewrite Hfind in H.
  split; [exact (delete_row_removes _ _ _ _ _ H) |].
  intros fk Hin Hpar.
  pose proof H as H'. rewrite delete_row_step in H'.
  destruct (restricted_by t r db) eqn:Hres; [discriminate |].
  destruct (cascade_steps_clear _ _ _ _ _ _ H') as ((p & Hp) & Hclear).
  destruct (cascades fk) eqn:Hc; [auto |].
  pose proof (find_none _ _ Hres fk Hin) as Hno. simpl in Hno.
  rewrite Hpar, table_eqb_refl, Hc in Hno. simpl in Hno.
  destruct (delete_row_sub _ _ _ _ _ H) as (q & ->).
  apply children_filter.
  destruct (children fk r db); [reflexivity | discriminate].
Qed.

(** *** The delete actions the schema declares *)

(** The relations (child, parent) declared ON DELETE CASCADE. *)
Definition cascade_relations : list (table * table) :=
  [ (Lesson, Course); (LearningObjective, Course);
    (UserEvent, User); (UserEvent, Event) ].

Lemma declared_actions (fk : foreign_key) :
  In fk foreign_keys ->
  (fk_on_delete fk = CASCADE
   <-> In (fk_child fk, fk_parent fk) cascade_relations)
  /\ (fk_on_delete fk <> CASCADE -> fk_on_delete fk = RESTRICT).
Proof.
  unfold foreign_keys. intros H. simpl in H.
  repeat (destruct H as [<- | H];
          [ simpl; split;
            [ split; intros Hx;
              [ first [ discriminate Hx | tauto ]
              | first [ reflexivity
                      | exfalso;
                        repeat (destruct Hx as [Hx | Hx];
                                [discriminate Hx |]);
                        exact Hx ] ]
            | intros Hx; first [ reflexivity | exfalso; now apply Hx ] ]
          | ]).
  contradiction.
Qed.

(** A table whose rows a cascade deletes is the parent of RESTRICT foreign
    keys only: a cascade is one level deep. *)
Lemma cascade_one_level (fk fk2 : foreign_key) :
  In fk foreign_keys -> In fk2 foreign_keys ->
  cascades fk = true -> fk_parent fk2 = fk_child fk -> cascades fk2 = false.
Proof.
  assert (H : forallb
                (fun a =>
                   forallb
                     (fun b =>
                        negb (cascades a && table_eqb (fk_parent b) (fk_child a))
                        || negb (cascades b))
                     foreign_keys) foreign_keys = true)
    by (vm_compute; reflexivity).
  intros H1 H2 Hc Hp.
  rewrite forallb_forall in H. specialize (H fk H1).
  rewrite forallb_forall in H. specialize (H fk2 H2).
  rewrite Hc, Hp, table_eqb_refl in H. simpl in H.
  now destruct (cascades fk2).
Qed.

(** *** When nothing restricts it, the delete goes through *)

Lemma idle_steps (f : nat) (t : table) (r : row) (fks : list foreign_key)
  (d : database) :
  (forall fk, In fk fks -> fk_parent fk = t -> cascades fk = false) ->
  fold_left (cascade_step f t r) fks (Ok d) = Ok d.
Proof.
  induction fks as [| a fks IH]; simpl; intros H; [reflexivity |].
  destruct (table_eqb (fk_parent a) t) eqn:Ht; simpl.
  - apply table_eqb_true in Ht.
    rewrite (H a (or_introl eq_refl) Ht). apply IH. intros; apply H; auto.
  - apply IH. intros; apply H; auto.
Qed.

Lemma leaf_delete (f : nat) (t : table) (c : row) (d : database) :
  (forall fk, In fk foreign_keys -> fk_parent fk = t ->
              cascades fk = false /\ children fk c d = []) ->
  delete_row (S f) t c d = Ok (without t c d).
Proof.
  intros H. rewrite delete_row_step.
  assert (Hres : restricted_by t c d = None).
  { apply find_all_false. intros fk Hin.
    destruct (table_eqb (fk_parent fk) t) eqn:Ht; [| reflexivity].
    apply table_eqb_true in Ht. destruct (H fk Hin Ht) as [_ ->].
    now destruct (cascades fk). }
  rewrite Hres. apply idle_steps. intros fk Hin Ht. now apply H.
Qed.

Lemma delete_succeeds (t : table) (key : list value) (r : row)
  (db : database) :
  find_row t key db = Some r ->
  (forall fk, In fk foreign_keys -> fk_parent fk = t ->
              cascades fk = false -> children fk r db = []) ->
  (forall fk c fk2,
      In fk foreign_keys -> fk_parent fk = t -> cascades fk = true ->
      In c (children fk r db) ->
      In fk2 foreign_keys -> fk_parent fk2 = fk_child fk ->
      children fk2 c db = []) ->
  exists db', delete t key db = Ok db'.
Proof.
  intros Hfind Hrestrict Hgrand. unfold delete. rewrite Hfind.
  change (S (List.length all_tables)) with (S (S 30)).
  rewrite delete_row_step.
  assert (Hres : restricted_by t r db = None).
  { apply find_all_false. intros fk Hin.
    destruct (table_eqb (fk_parent fk) t) eqn:Ht; [| reflexivity].
    apply table_eqb_true in Ht.
    destruct (cascades fk) eqn:Hc; [reflexivity |].
    now rewrite (Hrestrict fk Hin Ht Hc). }
  rewrite Hres.
  assert (Hinner : forall fk, In fk foreign_keys -> fk_parent fk = t ->
            cascades fk = true ->
            forall l, (forall c, In c l -> In c (children fk r db)) ->
            forall d : database, (exists p, d = filter p db) ->
            exists d' : database,
              fold_left
                (fun (acc' : result database) (c : row) =>
                   match acc' with
                   | Err e => Err e
                   | Ok d' => delete_row 31 (fk_child fk) c d'
                   end) l (Ok d) = Ok d'
              /\ exists p, d' = filter p db).
  { intros fk Hin Ht Hc l.
    induction l as [| c l IH]; cbn [fold_left]; intros Hl d Hd.
    - eauto.
    - rewrite leaf_delete.
      + apply IH; [intros c0 Hc0; apply Hl; now right |].
        destruct Hd as (p & ->). unfold without. rewrite filter_filter. eauto.
      + intros fk2 Hin2 Hp2. split.
        * exact (cascade_one_level fk fk2 Hin Hin2 Hc Hp2).
        * destruct Hd as (p & ->). apply children_filter.
          apply (Hgrand fk c fk2); auto. apply Hl. now left. }
  assert (Houter : forall fks, (forall fk, In fk fks -> In fk foreign_keys) ->
            forall d : database, (exists p, d = filter p db) ->
            exists d' : database,
              fold_left (cascade_step 31 t r) fks (Ok d) = Ok d'
              /\ exists p, d' = filter p db).
  { induction fks as [| a fks IH]; cbn [fold_left]; intros Hsub d Hd.
    - eauto.
    - unfold cascade_step at 2.
      destruct (table_eqb (fk_parent a) t && cascades a) eqn:Hcase.
      + apply andb_prop in Hcase. destruct Hcase as [Ht Hc].
        apply table_eqb_true in Ht.
        destruct (Hinner a (Hsub a (or_introl eq_refl)) Ht Hc
                    (children a r d)) with (d := d) as (d1 & Heq & Hd1).
        * destruct Hd as (p & ->). intros c Hc'.
          apply in_children in Hc'. apply in_children.
          destruct Hc' as [Hc1 Hc2]. apply filter_In in Hc1. tauto.
        * assumption.
        * rewrite Heq. apply IH; [| assumption].
          intros fk Hfk. apply Hsub. now right.
      + apply IH; [| assumption].
        intros fk Hfk. apply Hsub. now right. }
  destruct (Houter foreign_keys (fun _ H => H) (without t r db))
    as (d' & Hd' & _).
  - unfold without. eauto.
  - eauto.
Qed.

End DeleteFacts.

(** ** Rows under INSERT and UPDATE *)

Module RowFacts.
Import Schema Store StoreFacts.

Lemma lookup_in (c : string) (r : row) (v : value) :
  lookup c r = Some v -> In c (map fst r).
Proof.
  induction r as [| [k w] r IH]; simpl; [discriminate |].
  destruct (String.eqb k c) eqn:Hk.
  - apply String.eqb_eq in Hk. auto.
  - auto.
Qed.


Lemma lookup_override (c : string) (old changes : row) :
  lookup c (override old changes)
  = match lookup c old with
    | Some v => Some match lookup c changes with Some w => w | None => v end
    | None => None
    end.
Proof.
  unfold override. induction old as [| [k v] old IH]; simpl; [reflexivity |].
  destruct (lookup k changes) as [w |] eqn:Hk; simpl;
    destruct (String.eqb k c) eqn:Hkc; try assumption.
  - apply String.eqb_eq in Hkc. subst k. now rewrite Hk.
  - apply String.eqb_eq in Hkc. subst k. now rewrite Hk.
Qed.

Lemma columns_override (old changes : row) :
  map fst (override old changes) = map fst old.
Proof.
  unfold override. rewrite map_map. apply map_ext.
  intros [k v]. simpl. now destruct (lookup k changes).
Qed.

Lemma columns_complete (t : table) (given : row) (now : Z) :
  map fst (complete t given now) = map col_name (columns t).
Proof. unfold complete. rewrite map_map. reflexivity. Qed.

Lemma field_override_other (c : string) (old changes : row) :
  lookup c changes = None -> field c (override old changes) = field c old.
Proof.
  intros H. unfold field. rewrite lookup_override, H.
  now destruct (lookup c old).
Qed.


Lemma key_of_override (cols : list string) (old changes : row) :
  (forall c, In c cols -> lookup c changes = None) ->
  key_of cols (override old changes) = key_of cols old.
Proof.
  intros H. unfold key_of.
  assert (Hf : forall c, In c cols ->
                 field c (override old changes) = field c old)
    by (intros c Hc; apply field_override_other; auto).
  assert (He : existsb (fun c => is_null (field c (override old changes))) cols
               = existsb (fun c => is_null (field c old)) cols).
  { clear H. induction cols as [| c cols IH]; simpl; [reflexivity |].
    rewrite Hf by now left. f_equal. apply IH. intros; apply Hf. now right. }
  rewrite He.
  destruct (existsb (fun c => is_null (field c old)) cols); [reflexivity |].
  f_equal. apply map_ext_in. exact Hf.
Qed.

Lemma find_append {A : Type} (p : A -> bool) (l1 l2 : list A) :
  find p (l1 ++ l2)%list
  = match find p l1 with Some x => Some x | None => find p l2 end.
Proof.
  induction l1 as [| a l1 IH]; simpl; [reflexivity |].
  now destruct (p a).
Qed.

(** What a successful INSERT did. *)
Lemma insert_ok (t : table) (given : row) (now : Z) (db db' : database)
  (r : row) :
  insert t given now db = Ok (db', r) ->
  r = complete t given now /\ db' = (db ++ [(t, r)])%list
  /\ check_row t r = None
  /\ first_conflict t r (rows_of t db) = None
  /\ first_dangling t r db = None.
Proof.
  unfold insert. intros H.
  destruct (undefined_column t given); [discriminate |].
  destruct (check_row t (complete t given now)) eqn:Hc; [discriminate |].
  destruct (first_conflict t (complete t given now) (rows_of t db)) eqn:Hf;
    [discriminate |].
  destruct (first_dangling t (complete t given now) db) eqn:Hd; [discriminate |].
  injection H as <- <-. auto.
Qed.

Lemma untouched_keys (t : table) (changes : row) :
  find (fun c => existsb (String.eqb c) (pk_columns t)) (map fst changes) = None ->
  forall c, In c (pk_columns t) -> lookup c changes = None.
Proof.
  intros H c Hc. destruct (lookup c changes) as [w |] eqn:Hl; [| reflexivity].
  apply lookup_in in Hl.
  pose proof (find_none _ _ H c Hl) as Hn. simpl in Hn.
  assert (He : existsb (String.eqb c) (pk_columns t) = true).
  { apply existsb_exists. exists c. split; [assumption | apply String.eqb_refl]. }
  congruence.
Qed.

(** What a successful UPDATE did. *)
Lemma update_ok (t : table) (key : list value) (changes : row)
  (db db' : database) (r : row) :
  update t key changes db = Ok (db', r) ->
  exists l1 l2 old,
    db = (l1 ++ (t, old) :: l2)%list
    /\ db' = (l1 ++ (t, r) :: l2)%list
    /\ r = override old changes
    /\ find (has_key t key) l1 = None
    /\ has_key t key (t, old) = true
    /\ has_key t key (t, r) = true
    /\ check_row t r = None.
Proof.
  unfold update, find_row. intros H.
  destruct (find (has_key t key) db) as [[t0 old] |] eqn:Hfind;
    simpl in H; [| discriminate].
  destruct (undefined_column t changes); [discriminate |].
  destruct (find _ (map fst changes)) eqn:Hpk; [discriminate |].
  destruct (check_row t (override old changes)) eqn:Hc; [discriminate |].
  destruct (first_conflict t (override old changes) _); [discriminate |].
  destruct (first_dangling t (override old changes) db); [discriminate |].
  injection H as <- <-.
  destruct (find_split _ (t, override old changes) _ _ Hfind)
    as (l1 & l2 & Hdb & Hp & Hrep & _ & Hnone).
  pose proof (has_key_table _ _ _ Hp) as Ht0. simpl in Ht0. subst t0.
  exists l1, l2, old. repeat split; auto.
  unfold has_key in *. simpl in *.
  rewrite key_of_override; [assumption |].
  now apply untouched_keys.
Qed.

(** The store keeps the shape of its rows. *)
Lemma insert_keeps_shape (t : table) (given : row) (now : Z)
  (db db' : database) (r : row) :
  shaped db -> insert t given now db = Ok (db', r) -> shaped db'.
Proof.
  unfold shaped. intros Hs H.
  destruct (insert_ok _ _ _ _ _ _ H) as (-> & -> & _).
  apply Forall_app. split; [assumption |].
  constructor; [| constructor]. simpl. apply columns_complete.
Qed.

Lemma update_keeps_shape (t : table) (key : list value) (changes : row)
  (db db' : database) (r : row) :
  shaped db -> update t key changes db = Ok (db', r) -> shaped db'.
Proof.
  unfold shaped. intros Hs H.
  destruct (update_ok _ _ _ _ _ _ H) as (l1 & l2 & old & -> & -> & -> & _).
  apply Forall_app in Hs. destruct Hs as [H1 H2].
  inversion H2 as [| ? ? Hold Hl2]; subst.
  apply Forall_app. split; [assumption |].
  constructor; [| assumption]. simpl in *. now rewrite columns_override.
Qed.


End RowFacts.

(** ** Enrollment, lesson completion and guest identities *)

Module EnrollmentFacts.
Import Schema Store StoreFacts RowFacts Enrollments.

Definition Enrollment_userId_courseId_key : unique_index :=
  unique_on "Enrollment_userId_courseId_key" Enrollment ["userId"; "courseId"].

Definition LessonCompletion_enrollmentId_lessonId_key : unique_index :=
  unique_on "LessonCompletion_enrollmentId_lessonId_key"
    LessonCompletion ["enrollmentId"; "lessonId"].

Definition career_users_authUserId_key : unique_index :=
  unique_on "career_users_authUserId_key" career_users ["authUserId"].

Lemma declared_unique_indexes :
  In Enrollment_userId_courseId_key all_constraints
  /\ In LessonCompletion_enrollmentId_lessonId_key all_constraints
  /\ In career_users_authUserId_key all_constraints.
Proof.
  assert (H : forall ux, (if in_dec ux_eq_dec ux all_constraints
                          then true else false) = true ->
                         In ux all_constraints).
  { intros ux. now destruct (in_dec ux_eq_dec ux all_constraints). }
  repeat split; apply H; vm_compute; reflexivity.
Qed.

(** A unique key is carried by at most one row. *)
Lemma unique_at_most_one (cols : list string) (rows : list row)
  (k : list value) :
  NoDup (flat_map (key_list cols) rows) ->
  (List.length (filter (key_is cols k) rows) <= 1)%nat.
Proof.
  induction rows as [| a rows IH]; simpl; intros Hn; [lia |].
  destruct (nodup_append_inv _ _ Hn) as (_ & Hrest & Hfresh).
  destruct (key_is cols k a) eqn:Ha; [| auto].
  assert (Hnone : filter (key_is cols k) rows = []).
  { apply DeleteFacts.no_element. intros r Hr.
    apply filter_In in Hr. destruct Hr as [Hr Hk].
    unfold key_is in Ha, Hk.
    destruct (key_of cols a) as [ka |] eqn:Hka; [| discriminate].
    destruct (key_eq_dec ka k); [subst ka | discriminate].
    destruct (key_of cols r) as [kr |] eqn:Hkr; [| discriminate].
    destruct (key_eq_dec kr k); [subst kr | discriminate].
    apply (Hfresh k).
    - unfold key_list. rewrite Hka. now left.
    - apply in_flat_map. exists r. split; [assumption |].
      unfold key_list. rewrite Hkr. now left. }
  rewrite Hnone. simpl. lia.
Qed.

Lemma key_is_own (cols : list string) (k : list value) (r : row) :
  key_of cols r = Some k -> key_is cols k r = true.
Proof. unfold key_is. intros ->. now destruct (key_eq_dec k k). Qed.

Lemma key_is_conflicts (ux : unique_index) (k : list value) (r : row)
  (rows : list row) :
  key_of (ux_columns ux) r = Some k ->
  filter (key_is (ux_columns ux) k) rows <> [] ->
  conflicts ux r rows = true.
Proof.
  intros Hr Hne. unfold conflicts.
  destruct (filter (key_is (ux_columns ux) k) rows) as [| r0 l] eqn:Hf;
    [congruence |].
  assert (Hin : In r0 (filter (key_is (ux_columns ux) k) rows))
    by (rewrite Hf; now left).
  apply filter_In in Hin. destruct Hin as [Hin Hk].
  apply existsb_exists. exists r0. split; [assumption |].
  unfold same_key. rewrite Hr. unfold key_is in Hk.
  destruct (key_of (ux_columns ux) r0) as [k0 |]; [| discriminate].
  destruct (key_eq_dec k0 k); [subst | discriminate].
  now destruct (key_eq_dec k k).
Qed.

(** An INSERT whose row conflicts under a constraint of its table is
    refused with a uniqueness violation. *)
Lemma insert_conflict (t : table) (given : row) (now : Z) (db : database)
  (ux : unique_index) :
  undefined_column t given = None ->
  check_row t (complete t given now) = None ->
  In ux (constraints_of t) ->
  conflicts ux (complete t given now) (rows_of t db) = true ->
  exists name, insert t given now db = Err (UniqueViolation name).
Proof.
  intros Hu Hc Hin Hcf. unfold insert. rewrite Hu, Hc.
  destruct (first_conflict t (complete t given now) (rows_of t db)) eqn:Hf.
  - eauto.
  - pose proof (first_conflict_none _ _ _ ux Hf Hin). congruence.
Qed.

Definition enrollment_fields (userId courseId newId : string) (now : Z) : row :=
  [ ("id", Text newId); ("userId", Text userId);
    ("courseId", Text courseId); ("progress", Int 0);
    ("updatedAt", Timestamp now) ].

Lemma enroll_as_insert (userId courseId newId : string) (now : Z)
  (db : database) :
  snd (enroll userId courseId newId now db)
  = apply db (Insert Enrollment (enrollment_fields userId courseId newId now) now).
Proof.
  unfold enroll, apply, execute, enrollment_fields.
  destruct (insert Enrollment _ now db) as [[d r] | e]; reflexivity.
Qed.

Lemma enroll_conflict (userId courseId newId : string) (now : Z)
  (db : database) :
  enrollments_of userId courseId db <> [] ->
  enroll userId courseId newId now db = (ConflictError, db).
Proof.
  intros Hne. unfold enroll.
  destruct (insert_conflict Enrollment
              (enrollment_fields userId courseId newId now) now db
              Enrollment_userId_courseId_key) as (name & Hi).
  - reflexivity.
  - reflexivity.
  - simpl. auto.
  - apply (key_is_conflicts Enrollment_userId_courseId_key
             [Text userId; Text courseId]); [reflexivity | exact Hne].
  - unfold enrollment_fields in Hi. rewrite Hi. reflexivity.
Qed.

Lemma enroll_done (userId courseId newId : string) (now : Z)
  (db : database) :
  fst (enroll userId courseId newId now db) = Done ->
  enrollments_of userId courseId (snd (enroll userId courseId newId now db))
  <> [].
Proof.
  unfold enroll.
  destruct (insert Enrollment _ now db) as [[d r] | e] eqn:Hi; simpl.
  - intros _. destruct (insert_ok _ _ _ _ _ _ Hi) as (-> & -> & _).
    unfold enrollments_of. rewrite rows_of_app, filter_app.
    intros H. apply app_eq_nil in H. destruct H as [_ H].
    rewrite rows_of_one, table_eqb_refl in H. cbn [filter] in H.
    rewrite key_is_own in H by reflexivity. discriminate.
  - destruct e; discriminate.
Qed.

Definition completion_fields (enrollmentId lessonId newId : string) : row :=
  [ ("id", Text newId); ("enrollmentId", Text enrollmentId);
    ("lessonId", Text lessonId) ].

Lemma completeLesson_conflict (enrollmentId lessonId newId : string) (now : Z)
  (db : database) :
  completions_of enrollmentId lessonId db <> [] ->
  completeLesson enrollmentId lessonId newId now db = (ConflictError, db).
Proof.
  intros Hne. unfold completeLesson.
  destruct (insert_conflict LessonCompletion
              (completion_fields enrollmentId lessonId newId) now db
              LessonCompletion_enrollmentId_lessonId_key) as (name & Hi).
  - reflexivity.
  - reflexivity.
  - simpl. auto.
  - apply (key_is_conflicts LessonCompletion_enrollmentId_lessonId_key
             [Text enrollmentId; Text lessonId]); [reflexivity | exact Hne].
  - unfold completion_fields in Hi. rewrite Hi. reflexivity.
Qed.

Lemma rows_of_update_other (t t' : table) (key : list value) (changes : row)
  (db db' : database) (r : row) :
  update t key changes db = Ok (db', r) -> t <> t' ->
  rows_of t' db' = rows_of t' db.
Proof.
  intros H Ht.
  destruct (update_ok _ _ _ _ _ _ H) as (l1 & l2 & old & -> & -> & _).
  rewrite !rows_of_app, !rows_of_cons.
  destruct (table_eqb t t') eqn:E; [| reflexivity].
  apply table_eqb_true in E. contradiction.
Qed.

(** What a successful [completeLesson] did: the completion row went in,
    and the row of the enrollment was rewritten. *)
Lemma completeLesson_done (enrollmentId lessonId newId : string) (now : Z)
  (db db2 : database) :
  completeLesson enrollmentId lessonId newId now db = (Done, db2) ->
  exists rc e r db1,
    insert LessonCompletion
      (completion_fields enrollmentId lessonId newId) now db = Ok (db1, rc)
    /\ find_row Enrollment [Text enrollmentId] db1 = Some e
    /\ update Enrollment [Text enrollmentId]
         (("progress", Int (quotient enrollmentId e db1))
          :: ("updatedAt", Timestamp now)
          :: (if quotient enrollmentId e db1 =? 100
              then [("completedAt", Timestamp now)] else []))%list db1
       = Ok (db2, r).
Proof.
  unfold completeLesson, completion_fields, quotient. intros H.
  destruct (insert LessonCompletion _ now db) as [[db1 rc] | e0] eqn:Hi.
  - destruct (find_row Enrollment [Text enrollmentId] db1) as [e |] eqn:Hf;
      [| discriminate].
    match type of H with
    | match ?u with _ => _ end = _ => destruct u as [[d r] | e1] eqn:Hu
    end; [| discriminate].
    injection H as <-. exists rc, e, r, db1. auto.
  - destruct e0; discriminate.
Qed.

Lemma completeLesson_keeps_unique (ux : unique_index)
  (enrollmentId lessonId newId : string) (now : Z) (db : database) :
  In ux all_constraints -> unique_in ux db ->
  unique_in ux (snd (completeLesson enrollmentId lessonId newId now db)).
Proof.
  intros Hux Hu.
  destruct (completeLesson enrollmentId lessonId newId now db)
    as [o d] eqn:Hc.
  assert (Hd : o = Done \/ d = db).
  { revert Hc. unfold completeLesson.
    destruct (insert LessonCompletion _ now db) as [[db1 rc] | e0];
      [| intros [= <- <-]; auto].
    destruct (find_row Enrollment [Text enrollmentId] db1);
      [| intros [= <- <-]; auto].
    match goal with
    | |- match ?u with _ => _ end = _ -> _ => destruct u as [[d' r'] | e1]
    end; intros [= <- <-]; auto. }
  simpl. destruct Hd as [-> | ->]; [| assumption].
  destruct (completeLesson_done _ _ _ _ _ _ Hc)
    as (rc & e & r & db1 & Hi & _ & Hup).
  refine (update_keeps_unique ux _ _ _ db1 d r Hux _ Hup).
  exact (insert_keeps_unique ux _ _ _ db db1 rc Hux Hu Hi).
Qed.

Lemma completeLesson_recorded (enrollmentId lessonId newId : string) (now : Z)
  (db : database) :
  fst (completeLesson enrollmentId lessonId newId now db) = Done ->
  completions_of enrollmentId lessonId
    (snd (completeLesson enrollmentId lessonId newId now db)) <> [].
Proof.
  destruct (completeLesson enrollmentId lessonId newId now db)
    as [o d] eqn:Hc. simpl. intros ->.
  destruct (completeLesson_done _ _ _ _ _ _ Hc)
    as (rc & e & r & db1 & Hi & _ & Hup).
  unfold completions_of.
  rewrite (rows_of_update_other _ LessonCompletion _ _ _ _ _ Hup)
    by discriminate.
  destruct (insert_ok _ _ _ _ _ _ Hi) as (-> & -> & _).
  rewrite rows_of_app, filter_app.
  intros H. apply app_eq_nil in H. destruct H as [_ H].
  rewrite rows_of_one, table_eqb_refl in H. cbn [filter] in H.
  rewrite key_is_own in H by reflexivity. discriminate.
Qed.

(** *** Finding rows and counting them after an operation *)








Lemma completeLesson_keeps_shape (e1 lessonId newId : string) (now : Z)
  (db : database) :
  shaped db -> shaped (snd (completeLesson e1 lessonId newId now db)).
Proof.
  intros Hs.
  destruct (completeLesson e1 lessonId newId now db) as [o d] eqn:Hc.
  assert (Hd : o = Done \/ d = db).
  { revert Hc. unfold completeLesson.
    destruct (insert LessonCompletion _ now db) as [[db1 rc] | e0];
      [| intros [= <- <-]; auto].
    destruct (find_row Enrollment [Text e1] db1);
      [| intros [= <- <-]; auto].
    match goal with
    | |- match ?u with _ => _ end = _ -> _ => destruct u as [[d' r'] | e3]
    end; intros [= <- <-]; auto. }
  simpl. destruct Hd as [-> | ->]; [| assumption].
  destruct (completeLesson_done _ _ _ _ _ _ Hc)
    as (rc & e & r & db1 & Hi & _ & Hup).
  refine (update_keeps_shape _ _ _ db1 d r _ Hup).
  exact (insert_keeps_shape _ _ _ db db1 rc Hs Hi).
Qed.




(** *** Progress along [completeLesson] calls *)






(** *** Guest identities: the key of the one-column index *)

Definition distinct_links (db : database) : Prop :=
  forall (i j : nat) (r1 r2 : row),
    i <> j ->
    nth_error (rows_of career_users db) i = Some r1 ->
    nth_error (rows_of career_users db) j = Some r2 ->
    field "authUserId" r1 <> NULL ->
    field "authUserId" r2 <> NULL ->
    field "authUserId" r1 <> field "authUserId" r2.

Lemma single_key (c : string) (r : row) (k : list value) :
  key_of [c] r = Some k <-> field c r <> NULL /\ k = [field c r].
Proof.
  unfold key_of. simpl. destruct (field c r); simpl; split;
    try discriminate; try (intros [H _]; congruence);
    try (intros [= <-]; split; [discriminate | reflexivity]);
    intros [_ ->]; reflexivity.
Qed.

Lemma distinct_links_iff (db : database) :
  distinct_links db <-> no_two_rows_share career_users_authUserId_key db.
Proof.
  unfold distinct_links, no_two_rows_share. simpl. split.
  - intros H i j r1 r2 k Hij H1 H2 K1 K2.
    apply single_key in K1. apply single_key in K2.
    destruct K1 as [N1 E1], K2 as [N2 E2].
    apply (H i j r1 r2 Hij H1 H2 N1 N2). congruence.
  - intros H i j r1 r2 Hij H1 H2 N1 N2 E.
    apply (H i j r1 r2 [field "authUserId" r1] Hij H1 H2).
    + apply single_key. auto.
    + apply single_key. split; [assumption | congruence].
Qed.

End EnrollmentFacts.

(** ** Arithmetic of the numbers that are integers *)

Module NumberFacts.
Import JS.

Lemma Qred_of_Z (z : Z) : Qred (z # 1) = z # 1.
Proof.
  unfold Qred.
  pose proof (Z.ggcd_gcd z 1) as Hg.
  pose proof (Z.ggcd_correct_divisors z 1) as Hd.
  destruct (Z.ggcd z 1) as (g, (a, b)). simpl in *.
  rewrite Z.gcd_1_r in Hg. subst g. destruct Hd as [Ha Hb].
  rewrite Z.mul_1_l in Ha, Hb. now subst.
Qed.

Lemma to_int_of_Z (z : Z) : to_int (of_Z z) = Some z.
Proof. unfold to_int, of_Z. now rewrite Qred_of_Z. Qed.

Lemma isInteger_of_Z (z : Z) : Number_isInteger (of_Z z) = true.
Proof. unfold Number_isInteger, of_Z. now rewrite Qred_of_Z. Qed.

Lemma sub_of_Z (a b : Z) : sub (of_Z a) (of_Z b) = of_Z (a - b).
Proof.
  unfold sub, neg, add, of_Z.
  change (- (b # 1))%Q with (- b # 1). rewrite Qred_of_Z.
  unfold Qplus. cbn [Qnum Qden Pos.mul]. rewrite Qred_of_Z.
  do 2 f_equal. lia.
Qed.

Lemma mul_of_Z (a b : Z) : mul (of_Z a) (of_Z b) = of_Z (a * b).
Proof.
  unfold mul, of_Z, Qmult. cbn [Qnum Qden Pos.mul]. now rewrite Qred_of_Z.
Qed.

Lemma lt_of_Z (a b : Z) : lt (of_Z a) (of_Z b) = (a <? b).
Proof.
  unfold lt, of_Z, Qltb, Qle_bool. simpl. rewrite !Z.mul_1_r.
  destruct (Z.leb_spec b a); destruct (Z.ltb_spec a b); simpl; lia || reflexivity.
Qed.

(** [Math.ceil(a / b)] for a positive [b] is the ceiling of the quotient. *)
Lemma ceil_div_of_Z (a b : Z) :
  0 < b -> Math_ceil (div (of_Z a) (of_Z b)) = of_Z (- ((- a) / b)).
Proof.
  intros Hb. unfold div, of_Z, Qsign. cbn [Qnum].
  destruct (Z.sgn b =? 0) eqn:E; [apply Z.eqb_eq in E; lia |].
  unfold Math_ceil, of_Z. do 2 f_equal.
  rewrite (Qceiling_comp _ _ (Qred_correct _)).
  destruct b as [| pb | pb]; try lia.
  unfold Qceiling, Qfloor, Qdiv, Qmult, Qinv, Qopp. cbn [Qnum Qden].
  rewrite Z.mul_1_r, Pos.mul_1_l. reflexivity.
Qed.

Lemma ceiling_bounds (a b : Z) :
  0 < b -> (- ((- a) / b) - 1) * b < a <= - ((- a) / b) * b.
Proof.
  intros Hb.
  pose proof (Z.div_mod (- a) b ltac:(lia)) as Hdm.
  pose proof (Z.mod_pos_bound (- a) b Hb) as Hm.
  nia.
Qed.

End NumberFacts.

(** ** The validator *)

Module ZodFacts.
Import JS Zod.

Lemma get_set_same (k : string) (v : value) (props : list (string * value)) :
  get k (set k v props) = v.
Proof.
  induction props as [| [k0 w] props IH]; simpl.
  - now rewrite String.eqb_refl.
  - destruct (String.eqb k0 k) eqn:E; simpl; rewrite E; auto.
Qed.

Lemma get_set_other (k k' : string) (v : value) (props : list (string * value)) :
  k <> k' -> get k (set k' v props) = get k props.
Proof.
  intros Hne. induction props as [| [k0 w] props IH]; simpl.
  - destruct (String.eqb k' k) eqn:E; [| reflexivity].
    apply String.eqb_eq in E. congruence.
  - destruct (String.eqb k0 k') eqn:E; simpl.
    + apply String.eqb_eq in E. subst k0.
      destruct (String.eqb k' k) eqn:E'; [| reflexivity].
      apply String.eqb_eq in E'. congruence.
    + now rewrite IH.
Qed.

(** Induction on schemas, through the shape of an object. *)
Section SchemaInduction.
Variable P : schema -> Prop.
Hypothesis on_string : forall checks, P (z_string checks).
Hypothesis on_number : forall checks, P (z_number checks).
Hypothesis on_array : forall item m, P item -> P (z_array item m).
Hypothesis on_object :
  forall shape, Forall (fun ks => P (snd ks)) shape -> P (z_object shape).


End SchemaInduction.

(** The issues one property of an object contributes. *)
Definition field_issues (p : list path_item) (props : list (string * value))
  (ks : string * schema) : list issue :=
  fst (parse_at (snd ks) (p ++ [Key (fst ks)])%list (get (fst ks) props)).

Lemma object_issues (shape : list (string * schema)) (p : list path_item)
  (props : list (string * value)) :
  fst (parse_at (z_object shape) p (Object props))
  = flat_map (field_issues p props) shape.
Proof.
  simpl. induction shape as [| [k sk] shape IH]; simpl; [reflexivity |].
  now rewrite IH.
Qed.

Lemma object_output (shape : list (string * schema)) (p : list path_item)
  (props : list (string * value)) :
  snd (parse_at (z_object shape) p (Object props))
  = Object (map (fun ks : string * schema =>
                   (fst ks,
                    snd (parse_at (snd ks) (p ++ [Key (fst ks)])%list
                                  (get (fst ks) props)))) shape).
Proof.
  simpl. f_equal. induction shape as [| [k sk] shape IH]; simpl; [reflexivity |].
  now rewrite IH.
Qed.





Lemma parse_clean (s : schema) (v : value) :
  fst (parse_at s [] v) = [] -> parse s v = inr (snd (parse_at s [] v)).
Proof.
  unfold parse. destruct (parse_at s [] v) as [[| i l] out]; simpl.
  - reflexivity.
  - discriminate.
Qed.

(** An array of strings passes [z.array(z.string())] item by item. *)
Lemma strings_items (p : list path_item) (items : list value)
  (l : list string) (start : nat) :
  Plans.strings_of items = Some l ->
  map (fun ix : nat * value =>
         parse_at (z_string []) (p ++ [Index (fst ix)])%list (snd ix))
      (combine (seq start (List.length items)) items)
  = map (fun x => ([], x)) items.
Proof.
  revert l start. induction items as [| x items IH]; intros l start H; simpl.
  - reflexivity.
  - simpl in H. destruct x; try discriminate.
    destruct (Plans.strings_of items) as [l' |]; [| discriminate].
    simpl. f_equal. exact (IH l' (S start) eq_refl).
Qed.

Lemma array_parse (item : schema) (m : option (Z * string))
  (p : list path_item) (items : list value) :
  parse_at (z_array item m) p (Array items)
  = let parsed :=
      map (fun ix : nat * value =>
             parse_at item (p ++ [Index (fst ix)])%list (snd ix))
          (indexed items) in
    ((match m with
      | Some (n, msg) => too_short n msg p items
      | None => []
      end ++ flat_map fst parsed)%list, Array (map snd parsed)).
Proof. reflexivity. Qed.

Lemma strings_array (p : list path_item) (items : list value)
  (l : list string) (m : option (Z * string)) :
  Plans.strings_of items = Some l ->
  parse_at (z_array (z_string []) m) p (Array items)
  = (match m with
     | Some (n, msg) => too_short n msg p items
     | None => []
     end, Array items).
Proof.
  intros H. rewrite array_parse. cbv zeta. unfold indexed.
  rewrite (strings_items _ _ l _ H).
  rewrite map_map. simpl. rewrite map_id. f_equal.
  assert (Hnil : forall xs : list value,
            flat_map fst (map (fun x : value => (@nil issue, x)) xs) = []).
  { induction xs; simpl; auto. }
  rewrite Hnil. apply app_nil_r.
Qed.

End ZodFacts.

(** ** The handlers of [/api/plans] *)

Module PlanFacts.
Import JS Zod Plans NumberFacts ZodFacts.

(** The shape of [planSchema]. *)
Definition plan_shape : list (string * schema) :=
  match planSchema with
  | z_object shape => shape
  | _ => []
  end.

(** The payload after [json.price = parseFloat(json.price)] and
    [json.duration = parseInt(json.duration)]. *)
Definition coerced (x d : number) (props : list (string * value))
  : list (string * value) :=
  set "duration" (Number d) (set "price" (Number x) props).

(** [POST] by an administrator on an object whose two fields convert: what
    is left is the validation and the insert. *)
Lemma POST_validated (s : option session) (props : list (string * value))
  (x d : number) (newId : string) (now : Z) (db : Store.database) :
  not_admin s = false ->
  parseFloat (get "price" props) = Some x ->
  parseInt (get "duration" props) = Some d ->
  POST s (Some (Object props)) newId now db
  = match parse planSchema (Object (coerced x d props)) with
    | inl errors => ({| status := 400; json := ZodIssues errors |}, db)
    | inr parsed =>
        match plan_create parsed newId now db with
        | inl e => (server_error e, db)
        | inr (db', plan) => ({| status := 200; json := CreatedPlan plan |}, db')
        end
    end.
Proof.
  intros Ha Hx Hd. unfold POST. rewrite Ha.
  cbn [coerce_field]. rewrite Hx.
  cbn [coerce_field]. rewrite get_set_other by discriminate. rewrite Hd.
  reflexivity.
Qed.

Lemma plan_issues (props : list (string * value)) :
  fst (parse_at planSchema [] (Object props))
  = flat_map (field_issues [] props) plan_shape.
Proof. apply object_issues. Qed.



Lemma price_issues (x d : number) (props : list (string * value)) :
  field_issues [] (coerced x d props)
    ("price", z_number [num_min 0 "Price must be non-negative"])
  = match x with
    | NaN => [type_issue "number" (Number NaN) [Key "price"]]
    | _ => if lt x (of_Z 0)
           then [mk_issue (too_small "number" 0) [Key "price"]
                   "Price must be non-negative"]
           else []
    end.
Proof.
  unfold field_issues, coerced. cbn [fst snd].
  rewrite get_set_other by discriminate. rewrite get_set_same.
  destruct x; cbn [parse_at fst flat_map run_number_check app];
    try reflexivity; now destruct (lt _ _).
Qed.

Lemma duration_issues (x d : number) (props : list (string * value)) :
  field_issues [] (coerced x d props)
    ("duration", z_number [num_int; num_min 1 "Duration must be at least 1"])
  = match d with
    | NaN => [type_issue "number" (Number NaN) [Key "duration"]]
    | _ => ((if Number_isInteger d then []
             else [mk_issue (invalid_type "integer" "float") [Key "duration"]
                     "Expected integer, received float"])
            ++ (if lt d (of_Z 1)
                then [mk_issue (too_small "number" 1) [Key "duration"]
                        "Duration must be at least 1"]
                else []))%list
    end.
Proof.
  unfold field_issues, coerced. cbn [fst snd].
  rewrite get_set_same.
  destruct d; cbn [parse_at fst flat_map run_number_check app];
    try reflexivity; now rewrite app_nil_r.
Qed.



(** *** A valid payload is created *)

Lemma not_empty_length (n : string) : n <> "" -> (slen n <? 1) = false.
Proof.
  intros H. destruct n; [congruence |].
  unfold slen. simpl String.length. apply Z.ltb_ge. lia.
Qed.

Definition plan_row (newId n de : string) (q : Q) (dz : Z) (now : Z)
  (ls lf : list string) : Store.row :=
  [ ("id", Store.Text newId); ("name", Store.Text n);
    ("description", Store.Text de); ("price", Store.Double q);
    ("duration", Store.Int dz); ("createdAt", Store.Timestamp now);
    ("updatedAt", Store.Timestamp now); ("services", Store.TextArray ls);
    ("features", Store.TextArray lf) ].



(** *** [GET]: ordering and paging *)

Definition newer_or_same (a b : Store.row) : Prop :=
  created_at b <= created_at a.

Lemma insert_desc_perm (r : Store.row) (l : list Store.row) :
  Permutation (insert_desc r l) (r :: l).
Proof.
  induction l as [| x l IH]; simpl; [constructor; constructor |].
  destruct (created_at x <=? created_at r); [apply Permutation_refl |].
  eapply perm_trans; [apply perm_skip, IH | apply perm_swap].
Qed.

Lemma insert_desc_sorted (r : Store.row) (l : list Store.row) :
  StronglySorted newer_or_same l ->
  StronglySorted newer_or_same (insert_desc r l).
Proof.
  induction l as [| x l IH]; simpl; intros Hs.
  - repeat constructor.
  - inversion Hs as [| ? ? Hl Hx]; subst.
    destruct (Z.leb_spec (created_at x) (created_at r)).
    + constructor; [assumption |]. constructor; [assumption |].
      rewrite Forall_forall in *. intros y Hy.
      specialize (Hx y Hy). unfold newer_or_same in *. lia.
    + constructor; [auto |].
      rewrite Forall_forall in *. intros y Hy.
      apply (Permutation_in _ (insert_desc_perm r l)) in Hy.
      destruct Hy as [<- | Hy]; [unfold newer_or_same; lia | auto].
Qed.

Lemma newest_first_sorted (rows : list Store.row) :
  StronglySorted newer_or_same (newest_first rows)
  /\ Permutation (newest_first rows) rows.
Proof.
  unfold newest_first. induction rows as [| r rows [IH1 IH2]]; simpl.
  - split; constructor.
  - split; [now apply insert_desc_sorted |].
    eapply perm_trans; [apply insert_desc_perm | now apply perm_skip].
Qed.

(** The page an administrator gets for an integer page [p >= 1] and page
    size [n >= 1]. *)
Lemma GET_page (s : option session) (page_param size_param : option string)
  (db : Store.database) (p n : Z) :
  not_admin s = false ->
  parseInt_string (or_default page_param "1") = of_Z p ->
  parseInt_string (or_default size_param "10") = of_Z n ->
  1 <= p -> 1 <= n -> p * n <= 2 ^ 53 ->
  GET s page_param size_param db
  = {| status := 200;
       json :=
         PlanPage
           (map format
              (firstn (Z.to_nat n)
                 (skipn (Z.to_nat ((p - 1) * n))
                    (newest_first (Store.rows_of Schema.Plan db)))))
           {| total := plan_count db;
              pageCount :=
                of_Z (- ((- Z.of_nat (List.length
                                        (Store.rows_of Schema.Plan db))) / n));
              currentPage := of_Z p;
              pageSize := of_Z n |} |}.
Proof.
  intros Ha Hp Hn Hp1 Hn1 Hb. unfold GET. rewrite Ha, Hp, Hn.
  rewrite sub_of_Z, mul_of_Z.
  unfold plan_findMany. rewrite !to_int_of_Z.
  assert (H64 : int64 ((p - 1) * n) && int64 n = true).
  { unfold int64. assert (0 <= (p - 1) * n <= 2 ^ 53) by nia.
    assert (2 ^ 53 < 2 ^ 63) by (vm_compute; reflexivity).
    repeat (apply andb_true_intro; split);
      try apply Z.leb_le; try apply Z.ltb_lt; lia. }
  rewrite H64.
  assert (Hneg : ((p - 1) * n <? 0) = false) by (apply Z.ltb_ge; nia).
  rewrite Hneg. cbn [negb orb].
  assert (Hk : (0 <=? n) = true) by (apply Z.leb_le; lia).
  rewrite Hk. unfold plan_count at 2. rewrite ceil_div_of_Z by lia.
  reflexivity.
Qed.


Lemma POST_statuses (s : option session) (request_body : option value)
  (newId : string) (now : Z) (db : Store.database) :
  not_admin s = false ->
  status (fst (POST s request_body newId now db)) <> 401.
Proof.
  intros Ha. unfold POST. rewrite Ha.
  destruct request_body as [json0 |]; [| simpl; discriminate].
  destruct (coerce_field "price" parseFloat json0) as [e | json1];
    [simpl; discriminate |].
  destruct (coerce_field "duration" parseInt json1) as [e | json2];
    [simpl; discriminate |].
  destruct (parse planSchema json2) as [errors | parsed];
    [simpl; discriminate |].
  destruct (plan_create parsed newId now db) as [e | [db' plan]];
    simpl; discriminate.
Qed.

End PlanFacts.

(** ** Sample stores and requests *)

Module Samples.
Import Schema Store Enrollments.

Definition new_user (id : string) : operation :=
  Insert User
    [ ("id", Text id); ("firstName", Text "Ada"); ("lastName", Text "Okello");
      ("email", Text (id ++ "@example.org")); ("password", Text "secret");
      ("updatedAt", Timestamp 1) ] 1.

Definition new_category : operation :=
  Insert Category [ ("id", Text "cat"); ("name", Text "Careers") ] 2.

Definition new_course (id : string) : operation :=
  Insert Course
    [ ("id", Text id); ("title", Text "CV writing"); ("subtitle", Text "Basics");
      ("description", Text "How to write a CV"); ("content", Text "...");
      ("duration", Int 3); ("level", Text "beginner");
      ("categoryId", Text "cat"); ("updatedAt", Timestamp 3) ] 3.

Definition new_lesson (id course : string) : operation :=
  Insert Lesson
    [ ("id", Text id); ("title", Text "Lesson"); ("content", Text "...");
      ("order", Int 1); ("duration", Int 10); ("courseId", Text course);
      ("updatedAt", Timestamp 4) ] 4.

Definition new_objective (id course : string) : operation :=
  Insert LearningObjective
    [ ("id", Text id); ("content", Text "Know the parts of a CV");
      ("courseId", Text course) ] 4.

Definition new_enrollment (id user course : string) : operation :=
  Insert Enrollment
    [ ("id", Text id); ("userId", Text user); ("courseId", Text course);
      ("progress", Int 0); ("updatedAt", Timestamp 5) ] 5.

Definition new_guest (id : string) (link : value) : operation :=
  Insert career_users
    [ ("id", Text id); ("updatedAt", Timestamp 6); ("name", Text "Guest");
      ("age", Text "18-24"); ("authUserId", link) ] 6.

(** A course with three lessons and an objective, and a user. *)
Definition catalogue : database :=
  run [ new_user "u1"; new_category; new_course "c1";
        new_lesson "l1" "c1"; new_lesson "l2" "c1"; new_lesson "l3" "c1";
        new_objective "o1" "c1" ] [].

(** The same with the user enrolled in the course. *)
Definition enrolled : database := run [ new_enrollment "e1" "u1" "c1" ] catalogue.


(** Guests: two linked to different users, one not linked, and a refused
    attempt to link a second guest to user u1. *)
Definition guests : list operation :=
  [ new_guest "g1" (Text "u1"); new_guest "g2" NULL; new_guest "g3" NULL;
    new_guest "g4" (Text "u2"); new_guest "g5" (Text "u1");
    Update career_users [Text "g2"] [("authUserId", Text "u2")] ].

End Samples.

(** * The claims *)

Import Schema Store Enrollments.
Import StoreFacts DeleteFacts RowFacts EnrollmentFacts.

(** C1.  For every (user, course) pair the store holds at most one
    Enrollment: whatever operations run on a store in which the unique
    index on (userId, courseId) holds, and after [enroll] as well, no pair
    has two Enrollment rows.  An [enroll] for a pair that already has an
    Enrollment fails with [ConflictError] and leaves the store as it was;
    in particular a second [enroll] after a successful one does. *)
Theorem enrollment_unique_per_pair :
  forall (db : database) (ops : list operation)
         (userId courseId newId : string) (now : Z),
    unique_in Enrollment_userId_courseId_key db ->
    let db1 := run ops db in
    let after := enroll userId courseId newId now db1 in
    (forall u c, (List.length (enrollments_of u c db1) <= 1)%nat)
    /\ (forall u c, (List.length (enrollments_of u c (snd after)) <= 1)%nat)
    /\ (enrollments_of userId courseId db1 <> [] ->
        after = (ConflictError, db1))
    /\ (fst after = Done ->
        forall id' now',
          enroll userId courseId id' now' (snd after)
          = (ConflictError, snd after)).
Proof.
  intros db ops userId courseId newId now Hu db1 after.
  destruct declared_unique_indexes as (Hdecl & _ & _).
  assert (Hu1 : unique_in Enrollment_userId_courseId_key db1)
    by (apply run_keeps_unique; assumption).
  assert (Hu2 : unique_in Enrollment_userId_courseId_key (snd after)).
  { unfold after. rewrite enroll_as_insert. now apply apply_keeps_unique. }
  repeat split.
  - intros u c. apply (unique_at_most_one _ _ _ Hu1).
  - intros u c. apply (unique_at_most_one _ _ _ Hu2).
  - apply enroll_conflict.
  - intros Hdone id' now'. apply enroll_conflict. now apply enroll_done.
Qed.

Lemma enrollment_unique_per_pair_witness :
  unique_in Enrollment_userId_courseId_key []
  /\ enroll "u1" "c1" "e2" 6 Samples.enrolled
     = (ConflictError, Samples.enrolled).
Proof.
  split; [constructor |].
  destruct (enrollment_unique_per_pair []
              [ Samples.new_user "u1"; Samples.new_category;
                Samples.new_course "c1"; Samples.new_lesson "l1" "c1";
                Samples.new_lesson "l2" "c1"; Samples.new_lesson "l3" "c1";
                Samples.new_objective "o1" "c1";
                Samples.new_enrollment "e1" "u1" "c1" ]
              "u1" "c1" "e2" 6 (NoDup_nil _)) as (_ & _ & H & _).
  apply H. vm_compute. intros E. discriminate E.
Defined.

(** C6.  For every (enrollment, lesson) pair the store holds at most one
    LessonCompletion row, before and after [completeLesson]; a
    [completeLesson] for a pair already recorded fails with [ConflictError]
    and leaves the store as it was, so the progress and the
    LessonCompletion rows are unchanged; in particular a repeated call
    after a successful one does. *)
Theorem completion_unique_per_pair :
  forall (db : database) (ops : list operation)
         (enrollmentId lessonId newId : string) (now : Z),
    unique_in LessonCompletion_enrollmentId_lessonId_key db ->
    let db1 := run ops db in
    let after := completeLesson enrollmentId lessonId newId now db1 in
    (forall e l, (List.length (completions_of e l db1) <= 1)%nat)
    /\ (forall e l, (List.length (completions_of e l (snd after)) <= 1)%nat)
    /\ (completions_of enrollmentId lessonId db1 <> [] ->
        after = (ConflictError, db1)
        /\ progress_of enrollmentId (snd after) = progress_of enrollmentId db1
        /\ rows_of LessonCompletion (snd after) = rows_of LessonCompletion db1)
    /\ (fst after = Done ->
        forall id' now',
          completeLesson enrollmentId lessonId id' now' (snd after)
          = (ConflictError, snd after)).
Proof.
  intros db ops enrollmentId lessonId newId now Hu db1 after.
  destruct declared_unique_indexes as (_ & Hdecl & _).
  assert (Hu1 : unique_in LessonCompletion_enrollmentId_lessonId_key db1)
    by (apply run_keeps_unique; assumption).
  assert (Hu2 : unique_in LessonCompletion_enrollmentId_lessonId_key (snd after))
    by (now apply completeLesson_keeps_unique).
  repeat split.
  - intros e l. apply (unique_at_most_one _ _ _ Hu1).
  - intros e l. apply (unique_at_most_one _ _ _ Hu2).
  - now apply completeLesson_conflict.
  - unfold after. now rewrite completeLesson_conflict.
  - unfold after. now rewrite completeLesson_conflict.
  - intros Hdone id' now'. apply completeLesson_conflict.
    now apply completeLesson_recorded.
Qed.

Lemma completion_unique_per_pair_witness :
  unique_in LessonCompletion_enrollmentId_lessonId_key []
  /\ completeLesson "e1" "l1" "k9" 11
       (snd (completeLesson "e1" "l1" "k1" 7 Samples.enrolled))
     = (ConflictError, snd (completeLesson "e1" "l1" "k1" 7 Samples.enrolled)).
Proof.
  split; [constructor |].
  destruct (completion_unique_per_pair []
              [ Samples.new_user "u1"; Samples.new_category;
                Samples.new_course "c1"; Samples.new_lesson "l1" "c1";
                Samples.new_lesson "l2" "c1"; Samples.new_lesson "l3" "c1";
                Samples.new_objective "o1" "c1";
                Samples.new_enrollment "e1" "u1" "c1" ]
              "e1" "l1" "k1" 7 (NoDup_nil _)) as (_ & _ & _ & H).
  apply H. vm_compute. reflexivity.
Defined.

Lemma complete_lessons_keeps_shape (calls : list lesson_call) :
  forall db, shaped db -> shaped (complete_lessons calls db).
Proof.
  induction calls as [| c calls IH]; simpl; intros db Hs; [assumption |].
  apply IH. now apply completeLesson_keeps_shape.
Qed.






(** C10.  No two different rows of career_users carry the same non-NULL
    authUserId: the property holds in the empty store and every operation
    of the store (insert, update, delete, on any table) keeps it, so at
    most one guest identity is ever linked to a given user. *)
Theorem guest_link_unique :
  forall (db : database) (ops : list operation),
    distinct_links db -> distinct_links (run ops db).
Proof.
  intros db ops H. apply distinct_links_iff. apply unique_in_rows.
  apply run_keeps_unique.
  - apply declared_unique_indexes.
  - apply unique_in_rows. now apply distinct_links_iff.
Qed.

Lemma no_links_yet : distinct_links [].
Proof. intros i j r1 r2 _ H. destruct i; discriminate H. Defined.

Lemma guest_link_unique_witness :
  distinct_links [] /\ distinct_links (run Samples.guests []).
Proof.
  split; [exact no_links_yet |].
  exact (guest_link_unique [] Samples.guests no_links_yet).
Defined.

Definition Lesson_courseId_fkey : foreign_key :=
  references "Lesson_courseId_fkey" Lesson "courseId" Course "id"
    CASCADE CASCADE.

Definition LearningObjective_courseId_fkey : foreign_key :=
  references "LearningObjective_courseId_fkey"
    LearningObjective "courseId" Course "id" CASCADE CASCADE.

Lemma not_cascading (fk : foreign_key) :
  fk_on_delete fk <> CASCADE <-> cascades fk = false.
Proof.
  unfold cascades.
  destruct (action_eq_dec (fk_on_delete fk) CASCADE); split;
    congruence || tauto.
Qed.

(** C8, as the schema has it.  The foreign keys declared ON DELETE CASCADE
    are exactly Lesson->Course, LearningObjective->Course, UserEvent->User
    and UserEvent->Event; every other foreign key is ON DELETE RESTRICT.
    Deleting a parent row that a row references through a RESTRICT foreign
    key fails with a foreign-key violation.  A delete that goes through
    has only removed rows, the parent row among them, and leaves no row
    referencing it through any foreign key; it goes through whenever no
    row references the parent through a RESTRICT foreign key and the rows
    that reference it through a CASCADE foreign key are themselves not
    referenced. *)
Theorem delete_follows_declared_actions :
  forall (fk : foreign_key) (db : database) (key : list value) (parent : row),
    In fk foreign_keys ->
    find_row (fk_parent fk) key db = Some parent ->
    (fk_on_delete fk = CASCADE
     <-> In (fk_child fk, fk_parent fk) cascade_relations)
    /\ (fk_on_delete fk <> CASCADE ->
        fk_on_delete fk = RESTRICT
        /\ (children fk parent db <> [] ->
            exists name,
              delete (fk_parent fk) key db = Err (ForeignKeyViolation name)))
    /\ (forall db',
           delete (fk_parent fk) key db = Ok db' ->
           (exists p, db' = filter p db)
           /\ ~ In (fk_parent fk, parent) db'
           /\ children fk parent db' = [])
    /\ ((forall fk1,
            In fk1 foreign_keys -> fk_parent fk1 = fk_parent fk ->
            fk_on_delete fk1 <> CASCADE -> children fk1 parent db = []) ->
        (forall fk1 c fk2,
            In fk1 foreign_keys -> fk_parent fk1 = fk_parent fk ->
            fk_on_delete fk1 = CASCADE -> In c (children fk1 parent db) ->
            In fk2 foreign_keys -> fk_parent fk2 = fk_child fk1 ->
            children fk2 c db = []) ->
        exists db', delete (fk_parent fk) key db = Ok db').
Proof.
  intros fk db key parent Hin Hfind.
  destruct (declared_actions fk Hin) as [Hiff Hrestrict].
  split; [exact Hiff |]. split; [| split].
  - intros Hn. split; [auto |]. intros Hch.
    apply (restrict_refuses fk key parent db); auto.
    now apply not_cascading.
  - intros db' Hdel.
    destruct (delete_leaves_no_child _ _ _ _ _ Hfind Hdel) as [Hgone Hnone].
    repeat split; auto.
    unfold delete in Hdel. rewrite Hfind in Hdel.
    exact (delete_row_sub _ _ _ _ _ Hdel).
  - intros H1 H2. apply (delete_succeeds _ _ parent); auto.
    + intros fk1 Hin1 Hp Hc. apply H1; auto. now apply not_cascading.
    + intros fk1 c fk2 Hin1 Hp Hc. apply H2; auto. now apply cascades_true.
Qed.

Lemma delete_follows_declared_actions_witness :
  In Lesson_courseId_fkey foreign_keys
  /\ (exists course,
         find_row Course [Text "c1"] Samples.catalogue = Some course
         /\ forall db',
              delete Course [Text "c1"] Samples.catalogue = Ok db' ->
              (exists p, db' = filter p Samples.catalogue)
              /\ ~ In (Course, course) db'
              /\ children Lesson_courseId_fkey course db' = []).
Proof.
  assert (Hin : In Lesson_courseId_fkey foreign_keys)
    by (vm_compute; tauto).
  split; [exact Hin |].
  eexists. split; [vm_compute; reflexivity |].
  refine (proj1 (proj2 (proj2
            (delete_follows_declared_actions Lesson_courseId_fkey
               Samples.catalogue [Text "c1"] _ Hin _)))).
  vm_compute. reflexivity.
Defined.

(** C8 as it was claimed, refuted: LearningObjective->Course is declared ON
    DELETE CASCADE too, although it is not one of Lesson->Course,
    UserEvent->User and UserEvent->Event; deleting the course of the
    catalogue, which has a learning objective, does not fail but removes
    the objective with it. *)
Lemma objectives_cascade_too :
  In LearningObjective_courseId_fkey foreign_keys
  /\ fk_on_delete LearningObjective_courseId_fkey = CASCADE
  /\ ~ In (LearningObjective, Course)
          [(Lesson, Course); (UserEvent, User); (UserEvent, Event)]
  /\ List.length (rows_of LearningObjective Samples.catalogue) = 1%nat
  /\ exists db',
       delete Course [Text "c1"] Samples.catalogue = Ok db'
       /\ rows_of LearningObjective db' = []
       /\ map fst db' = [User; Category].
Proof.
  split; [vm_compute; tauto |].
  split; [reflexivity |].
  split; [intros [H | [H | [H | []]]]; discriminate H |].
  split; [vm_compute; reflexivity |].
  eexists. split; [vm_compute; reflexivity |].
  split; vm_compute; reflexivity.
Qed.

(** ** The claims on the [/api/plans] handlers *)

Module PlanClaims.
Import JS Zod Plans NumberFacts ZodFacts PlanFacts.

Definition administrator : option session :=
  Some {| session_user := {| role := "ADMIN" |} |}.

Definition member : option session :=
  Some {| session_user := {| role := "USER" |} |}.

(** The plan of the scenario, with the given price and duration. *)
Definition basic (price duration : value) : list (string * value) :=
  [ ("name", Str "Basic"); ("description", Str "Essential mentorship");
    ("price", price); ("duration", duration);
    ("services", Array [Str "mentorship"]); ("features", Array []) ].

Definition created (s : option session) (props : list (string * value))
  (newId : string) (now : Z) (db : Store.database) : Store.database :=
  snd (POST s (Some (Object props)) newId now db).

(** Three plans, created at times 100, 300 and 200. *)
Definition three_plans : Store.database :=
  created administrator (basic (Str "3") (Str "30")) "p3" 200
    (created administrator (basic (Str "2") (Str "30")) "p2" 300
       (created administrator (basic (Str "1") (Str "30")) "p1" 100 [])).





(** C4 as it was claimed, refuted: a signed-in user who is not an
    administrator is answered 401 Unauthorized by [GET]. *)
Lemma member_cannot_list_plans :
  GET member None None three_plans
  = {| status := 401; json := ErrorMessage "Unauthorized" |}.
Proof. reflexivity. Qed.

(** C4, as the handlers have it.  Both [GET] and [POST] of [/api/plans]
    require the ADMIN role: without a session, or with a session of
    another role, each answers 401 Unauthorized and [POST] leaves the store
    as it was; an administrator is never answered 401. *)
Theorem plans_handlers_require_admin :
  forall (s : option session) (page_param size_param : option string)
         (request_body : option value) (newId : string) (now : Z)
         (db : Store.database),
    (not_admin s = true ->
     GET s page_param size_param db = unauthorized
     /\ POST s request_body newId now db = (unauthorized, db))
    /\ (not_admin s = false ->
        status (GET s page_param size_param db) <> 401
        /\ status (fst (POST s request_body newId now db)) <> 401).
Proof.
  intros s page_param size_param request_body newId now db. split.
  - intros Hn. unfold GET, POST. now rewrite Hn.
  - intros Ha. split; [| now apply POST_statuses].
    unfold GET. rewrite Ha.
    destruct (plan_findMany _ _ db); simpl; discriminate.
Qed.

(** *** [createPlan]: what the validation sees *)


Lemma coerced_get (x d : number) (props : list (string * value)) (k : string) :
  get k (coerced x d props)
  = if String.eqb k "duration" then Number d
    else if String.eqb k "price" then Number x
    else get k props.
Proof.
  unfold coerced.
  destruct (String.eqb k "duration") eqn:Ed.
  - apply String.eqb_eq in Ed. subst k. apply get_set_same.
  - apply String.eqb_neq in Ed. rewrite get_set_other by assumption.
    destruct (String.eqb k "price") eqn:Ep.
    + apply String.eqb_eq in Ep. subst k. apply get_set_same.
    + apply String.eqb_neq in Ep. now rewrite get_set_other.
Qed.











End PlanClaims.

(** * Further properties of the store and of the handlers *)

(** ** The store: what every run of operations keeps *)

Module IntegrityFacts.
Import Schema Store StoreFacts DeleteFacts RowFacts.

(** Every foreign key of the migration refers to the one-column primary key
    of its parent table. *)
Lemma parent_column_is_key (fk : foreign_key) :
  In fk foreign_keys -> pk_columns (fk_parent fk) = [fk_parent_column fk].
Proof.
  assert (H : forallb
                (fun a =>
                   if list_eq_dec string_dec (pk_columns (fk_parent a))
                        [fk_parent_column a]
                   then true else false) foreign_keys = true)
    by (vm_compute; reflexivity).
  intros Hin. rewrite forallb_forall in H. specialize (H fk Hin).
  now destruct (list_eq_dec string_dec (pk_columns (fk_parent fk))
                  [fk_parent_column fk]).
Qed.

(** A row of the child table is [referenced] when its foreign-key column is
    NULL or carries the key of a stored row of the parent table. *)
Definition referenced (fk : foreign_key) (c : row) (db : database) : Prop :=
  field (fk_column fk) c = NULL
  \/ exists p,
       In (fk_parent fk, p) db
       /\ field (fk_column fk) c = field (fk_parent_column fk) p.

Definition no_dangling (db : database) : Prop :=
  forall fk c,
    In fk foreign_keys -> In (fk_child fk, c) db -> referenced fk c db.

Lemma is_null_true (v : value) : is_null v = true <-> v = NULL.
Proof. destruct v; simpl; split; congruence. Qed.

Lemma refers_true (fk : foreign_key) (c p : row) :
  refers fk c p = true
  <-> field (fk_column fk) c <> NULL
      /\ field (fk_column fk) c = field (fk_parent_column fk) p.
Proof.
  unfold refers. rewrite andb_true_iff, negb_true_iff, value_eqb_true.
  split; intros [H1 H2]; split; auto.
  - intros E. apply is_null_true in E. congruence.
  - destruct (is_null (field (fk_column fk) c)) eqn:E; [| reflexivity].
    apply is_null_true in E. contradiction.
Qed.

Lemma references_ok_true (fk : foreign_key) (c : row) (db : database) :
  references_ok fk c db = true <-> referenced fk c db.
Proof.
  unfold references_ok, referenced.
  rewrite orb_true_iff, is_null_true, existsb_exists. split.
  - intros [H | (p & Hp & Hr)]; [now left |]. right. exists p.
    apply in_rows_of in Hp. apply refers_true in Hr. tauto.
  - intros [H | (p & Hp & He)]; [now left |].
    destruct (value_eq_dec (field (fk_column fk) c) NULL) as [E | E];
      [now left |].
    right. exists p. split; [now apply in_rows_of |].
    apply refers_true. tauto.
Qed.

Lemma first_dangling_none (t : table) (r : row) (db : database)
  (fk : foreign_key) :
  first_dangling t r db = None -> In fk foreign_keys -> fk_child fk = t ->
  referenced fk r db.
Proof.
  intros H Hin Ht. apply references_ok_true.
  pose proof (find_none _ _ H fk Hin) as Hp. simpl in Hp.
  rewrite Ht, table_eqb_refl in Hp. simpl in Hp.
  now apply negb_false_iff in Hp.
Qed.

Lemma referenced_mono (fk : foreign_key) (c : row) (db db' : database) :
  (forall p, In (fk_parent fk, p) db ->
             exists p', In (fk_parent fk, p') db'
                        /\ field (fk_parent_column fk) p'
                           = field (fk_parent_column fk) p) ->
  referenced fk c db -> referenced fk c db'.
Proof.
  intros H [E | (p & Hp & E)]; [now left |].
  destruct (H p Hp) as (p' & Hp' & E'). right. exists p'. split; congruence.
Qed.

Lemma insert_keeps_references (t : table) (given : row) (now : Z)
  (db db' : database) (r : row) :
  no_dangling db -> insert t given now db = Ok (db', r) -> no_dangling db'.
Proof.
  intros Hn Hi fk c Hfk Hc.
  destruct (insert_ok _ _ _ _ _ _ Hi) as (_ & -> & _ & _ & Hd).
  assert (Hmono : referenced fk c db -> referenced fk c (db ++ [(t, r)])%list).
  { apply referenced_mono. intros p Hp. exists p. split; [| reflexivity].
    apply in_or_app. now left. }
  apply in_app_or in Hc. destruct Hc as [Hc | [Hc | []]].
  - apply Hmono. now apply Hn.
  - injection Hc as Ht Hrc. subst c. apply Hmono.
    apply (first_dangling_none t r db fk); auto.
Qed.

Lemma update_checked (t : table) (key : list value) (changes : row)
  (db db' : database) (r : row) :
  update t key changes db = Ok (db', r) ->
  first_dangling t r db = None
  /\ (forall k, In k (pk_columns t) -> lookup k changes = None).
Proof.
  unfold update. intros Hu.
  destruct (find_row t key db) as [old |]; [| discriminate].
  destruct (undefined_column t changes); [discriminate |].
  destruct (find (fun c0 => existsb (String.eqb c0) (pk_columns t))
                 (map fst changes)) eqn:Hf; [discriminate |].
  cbv zeta in Hu.
  destruct (check_row t (override old changes)); [discriminate |].
  destruct (first_conflict t (override old changes) _); [discriminate |].
  destruct (first_dangling t (override old changes) db) eqn:Hd;
    [discriminate |].
  injection Hu as _ <-. split; [exact Hd | now apply untouched_keys].
Qed.

Lemma update_keeps_references (t : table) (key : list value) (changes : row)
  (db db' : database) (r : row) :
  no_dangling db -> update t key changes db = Ok (db', r) -> no_dangling db'.
Proof.
  intros Hn Hu fk c Hfk Hc.
  destruct (update_ok _ _ _ _ _ _ Hu) as (l1 & l2 & old & Hdb & Hdb' & Hr & _).
  destruct (update_checked _ _ _ _ _ _ Hu) as (Hd & Hkeys).
  assert (Hmono : referenced fk c db -> referenced fk c db').
  { apply referenced_mono. intros p Hp. rewrite Hdb in Hp. rewrite Hdb'.
    apply in_app_or in Hp. destruct Hp as [Hp | [Hp | Hp]].
    - exists p. split; [| reflexivity]. apply in_or_app. now left.
    - injection Hp as Ht Hop. subst p. exists r. split.
      + rewrite <- Ht. apply in_or_app. right. now left.
      + rewrite Hr. apply field_override_other. apply Hkeys.
        rewrite Ht, (parent_column_is_key fk Hfk). now left.
    - exists p. split; [| reflexivity]. apply in_or_app. right. now right. }
  apply Hmono. rewrite Hdb' in Hc. apply in_app_or in Hc.
  destruct Hc as [Hc | [Hc | Hc]].
  - apply Hn; auto. rewrite Hdb. apply in_or_app. now left.
  - injection Hc as Ht Hrc. subst c.
    apply (first_dangling_none t r db fk); auto.
  - apply Hn; auto. rewrite Hdb. apply in_or_app. right. now right.
Qed.

(** *** DELETE: every row that goes is referenced by none that stays *)

Definition unreferenced (t : table) (r : row) (db : database) : Prop :=
  forall fk, In fk foreign_keys -> fk_parent fk = t -> children fk r db = [].

Definition removed_clean (base d : database) : Prop :=
  (exists p, d = filter p base)
  /\ forall t0 r0,
       In (t0, r0) base -> ~ In (t0, r0) d -> unreferenced t0 r0 d.

Definition stored_eq_dec (a b : table * row) : {a = b} + {a <> b}.
Proof. decide equality; [apply row_eq_dec | apply table_eq_dec]. Defined.

Lemma filter_all {A : Type} (l : list A) : l = filter (fun _ => true) l.
Proof. induction l as [| a l IH]; simpl; congruence. Qed.

Lemma removed_clean_refl (d : database) : removed_clean d d.
Proof.
  split; [exists (fun _ => true); apply filter_all |].
  intros t0 r0 H1 H2. contradiction.
Qed.

Lemma removed_clean_trans (base d d' : database) :
  removed_clean base d -> removed_clean d d' -> removed_clean base d'.
Proof.
  intros [(p & Hp) H1] [(q & Hq) H2]. split.
  - subst d' d. rewrite filter_filter. eauto.
  - intros t0 r0 Hb Hn.
    destruct (in_dec stored_eq_dec (t0, r0) d) as [Hd | Hd].
    + now apply H2.
    + intros fk Hfk Hpar. rewrite Hq. apply children_filter.
      now apply (H1 t0 r0 Hb Hd).
Qed.

Lemma delete_row_clean (fuel : nat) :
  forall (t : table) (r : row) (db db' : database),
    delete_row fuel t r db = Ok db' -> removed_clean db db'.
Proof.
  induction fuel as [| f IH]; intros t r db db' H; [discriminate |].
  pose proof H as H0. rewrite delete_row_step in H.
  destruct (restricted_by t r db) eqn:Hres; [discriminate |].
  assert (Hrest : removed_clean (without t r db) db').
  { revert H. apply (fold_keeps (removed_clean (without t r db))).
    - reflexivity.
    - intros d fk d' Hd Hstep. unfold cascade_step in Hstep.
      destruct (table_eqb (fk_parent fk) t && cascades fk).
      + revert Hstep. apply (fold_keeps (removed_clean (without t r db))).
        * reflexivity.
        * intros d1 c d2 Hd1 Hc.
          exact (removed_clean_trans _ _ _ Hd1 (IH _ _ _ _ Hc)).
        * assumption.
      + now injection Hstep as <-.
    - apply removed_clean_refl. }
  split; [exact (delete_row_sub _ _ _ _ _ H0) |].
  intros t0 r0 Hin Hout.
  destruct (is_row t r (t0, r0)) eqn:Hrow.
  - unfold is_row in Hrow. simpl in Hrow.
    apply andb_true_iff in Hrow. destruct Hrow as [Ht Hr].
    apply table_eqb_true in Ht. subst t0.
    destruct (row_eq_dec r0 r) as [-> |]; [| discriminate].
    intros fk Hfk Hpar.
    destruct (cascade_steps_clear _ _ _ _ _ _ H) as (_ & Hclear).
    destruct (cascades fk) eqn:Hc; [auto |].
    pose proof (find_none _ _ Hres fk Hfk) as Hno. simpl in Hno.
    rewrite Hpar, table_eqb_refl, Hc in Hno. simpl in Hno.
    destruct (delete_row_sub _ _ _ _ _ H0) as (q & ->).
    apply children_filter.
    destruct (children fk r db); [reflexivity | discriminate].
  - apply (proj2 Hrest); [| assumption].
    apply filter_In. split; [assumption |]. now rewrite Hrow.
Qed.

Lemma delete_keeps_references (t : table) (key : list value)
  (db db' : database) :
  no_dangling db -> delete t key db = Ok db' -> no_dangling db'.
Proof.
  unfold delete. intros Hn H.
  destruct (find_row t key db) as [r |]; [| discriminate].
  destruct (delete_row_clean _ _ _ _ _ H) as [(p & Hp) Hclean].
  intros fk c Hfk Hc.
  assert (Hc0 : In (fk_child fk, c) db).
  { rewrite Hp in Hc. apply filter_In in Hc. tauto. }
  destruct (Hn fk c Hfk Hc0) as [E | (q & Hq & E)]; [now left |].
  destruct (value_eq_dec (field (fk_column fk) c) NULL) as [En | En];
    [now left |].
  destruct (in_dec stored_eq_dec (fk_parent fk, q) db') as [Hd | Hd].
  - right. eauto.
  - exfalso.
    assert (Hin : In c (children fk q db')).
    { apply in_children. split; [assumption |]. apply refers_true. tauto. }
    rewrite (Hclean _ _ Hq Hd fk Hfk eq_refl) in Hin. contradiction.
Qed.

Lemma run_keeps_references (ops : list operation) :
  forall db, no_dangling db -> no_dangling (run ops db).
Proof.
  unfold run. induction ops as [| op ops IH]; simpl; intros db Hn;
    [assumption |].
  apply IH. unfold apply.
  destruct (execute op db) as [d |] eqn:He; [| assumption].
  destruct op as [t given now | t key changes | t key]; simpl in He.
  - destruct (insert t given now db) as [[d0 r] |] eqn:Hi; [| discriminate].
    injection He as <-. eapply insert_keeps_references; eauto.
  - destruct (update t key changes db) as [[d0 r] |] eqn:Hu; [| discriminate].
    injection He as <-. eapply update_keeps_references; eauto.
  - eapply delete_keeps_references; eauto.
Qed.

(** *** Rows stay as their columns are declared *)

Definition checked (db : database) : Prop :=
  forall t r, In (t, r) db -> check_row t r = None.

Lemma first_error_none (checks : list (option error)) :
  first_error checks = None <-> forall c, In c checks -> c = None.
Proof.
  induction checks as [| [e |] l IH]; simpl.
  - split; [intros _ c [] | reflexivity].
  - split; [discriminate |]. intros H.
    now specialize (H (Some e) (or_introl eq_refl)).
  - rewrite IH. split.
    + intros H c [<- | Hc]; auto.
    + intros H c Hc. apply H. now right.
Qed.

Lemma check_row_none (t : table) (r : row) :
  check_row t r = None
  <-> forall c, In c (columns t) ->
        has_type (field (col_name c) r) (col_type c) = true
        /\ (col_not_null c = true -> field (col_name c) r <> NULL).
Proof.
  unfold check_row. rewrite first_error_none. split.
  - intros H c Hc.
    specialize (H (check_column r c) (in_map _ _ _ Hc)).
    unfold check_column in H.
    destruct (col_not_null c); simpl in H.
    + destruct (is_null (field (col_name c) r)) eqn:En; [discriminate |].
      destruct (has_type _ _); [| discriminate].
      split; [reflexivity |]. intros _ E. rewrite E in En. discriminate.
    + destruct (has_type _ _); [| discriminate].
      split; [reflexivity | discriminate].
  - intros H e He. apply in_map_iff in He. destruct He as (c & <- & Hc).
    destruct (H c Hc) as [Hty Hnn]. unfold check_column.
    rewrite Hty. destruct (col_not_null c); simpl; [| reflexivity].
    destruct (is_null (field (col_name c) r)) eqn:En; [| reflexivity].
    apply is_null_true in En. now elim Hnn.
Qed.

Lemma run_keeps_checked (ops : list operation) :
  forall db, checked db -> checked (run ops db).
Proof.
  unfold run. induction ops as [| op ops IH]; simpl; intros db Hn;
    [assumption |].
  apply IH. unfold apply.
  destruct (execute op db) as [d |] eqn:He; [| assumption].
  destruct op as [t given now | t key changes | t key]; simpl in He.
  - destruct (insert t given now db) as [[d0 r] |] eqn:Hi; [| discriminate].
    injection He as <-.
    destruct (insert_ok _ _ _ _ _ _ Hi) as (_ & -> & Hck & _).
    intros t0 r0 Hin. apply in_app_or in Hin.
    destruct Hin as [Hin | [Hin | []]]; [now apply Hn |].
    now injection Hin as <- <-.
  - destruct (update t key changes db) as [[d0 r] |] eqn:Hu; [| discriminate].
    injection He as <-.
    destruct (update_ok _ _ _ _ _ _ Hu)
      as (l1 & l2 & old & Hdb & -> & _ & _ & _ & _ & Hck).
    intros t0 r0 Hin. apply in_app_or in Hin.
    destruct Hin as [Hin | [Hin | Hin]].
    + apply Hn. rewrite Hdb. apply in_or_app. now left.
    + now injection Hin as <- <-.
    + apply Hn. rewrite Hdb. apply in_or_app. right. now right.
  - unfold delete in He. destruct (find_row t key db); [| discriminate].
    destruct (delete_row_sub _ _ _ _ _ He) as (p & ->).
    intros t0 r0 Hin. apply filter_In in Hin. now apply Hn.
Qed.

Lemma run_keeps_shape (ops : list operation) :
  forall db, shaped db -> shaped (run ops db).
Proof.
  unfold run. induction ops as [| op l IH]; simpl; intros d Hd;
    [assumption |].
  apply IH. unfold apply.
  destruct (execute op d) as [d1 |] eqn:He; [| assumption].
  destruct op as [t1 given now | t1 key changes | t1 key]; simpl in He.
  - destruct (insert t1 given now d) as [[d0 r0] |] eqn:Hi; [| discriminate].
    injection He as <-. eapply insert_keeps_shape; eauto.
  - destruct (update t1 key changes d) as [[d0 r0] |] eqn:Hu;
      [| discriminate].
    injection He as <-. eapply update_keeps_shape; eauto.
  - unfold delete in He. destruct (find_row t1 key d); [| discriminate].
    destruct (delete_row_sub _ _ _ _ _ He) as (p & ->).
    unfold shaped in *. rewrite Forall_forall in *.
    intros x Hx. apply filter_In in Hx. now apply Hd.
Qed.

End IntegrityFacts.

Module StoreProperties.
Import Schema Store StoreFacts DeleteFacts RowFacts IntegrityFacts.

Definition User_email_key : unique_index :=
  unique_on "User_email_key" User ["email"].

Definition Enrollment_courseId_fkey : foreign_key :=
  references "Enrollment_courseId_fkey" Enrollment "courseId" Course "id"
    RESTRICT CASCADE.

(** Two sign-ups, then a third one under the id and email of the first. *)
Definition sign_ups : list operation :=
  [ Samples.new_user "u1"; Samples.new_user "u2"; Samples.new_user "u1" ].

(** A catalogue with an enrollment, then the user of the enrollment and the
    course are deleted, and a category is renamed. *)
Definition busy_day : list operation :=
  [ Samples.new_user "u1"; Samples.new_category; Samples.new_course "c1";
    Samples.new_lesson "l1" "c1"; Samples.new_enrollment "e1" "u1" "c1";
    Samples.new_enrollment "e2" "u1" "c9";
    Delete User [Text "u1"]; Delete Course [Text "c1"];
    Update Category [Text "cat"] [("name", Text "Career skills")] ].

(** X1.  Every primary key and every unique index of the migration holds
    along every run of inserts, updates and deletes, on whatever tables:
    no two rows of a table ever share a non-NULL key.  And an insert whose
    row carries, under a primary key or unique index of its table, the key
    of a stored row never goes through. *)
Theorem keys_and_unique_indexes_hold :
  forall (ops : list operation) (db : database),
    (forall ux, In ux all_constraints -> no_two_rows_share ux db) ->
    (forall ux, In ux all_constraints -> no_two_rows_share ux (run ops db))
    /\ (forall t given now ux k r0 out,
           In ux (constraints_of t) ->
           key_of (ux_columns ux) (complete t given now) = Some k ->
           In r0 (rows_of t (run ops db)) ->
           key_of (ux_columns ux) r0 = Some k ->
           insert t given now (run ops db) <> Ok out).
Proof.
  intros ops db H. split.
  - intros ux Hux. apply unique_in_rows. apply run_keeps_unique; auto.
    apply unique_in_rows. auto.
  - intros t given now ux k r0 [d r] Hux Hk Hr0 Hk0 Hi.
    destruct (insert_ok _ _ _ _ _ _ Hi) as (-> & _ & _ & Hconf & _).
    pose proof (first_conflict_none _ _ _ _ Hconf Hux) as Hc.
    unfold conflicts in Hc.
    assert (He : existsb (same_key (ux_columns ux) (complete t given now))
                   (rows_of t (run ops db)) = true).
    { apply existsb_exists. exists r0. split; [assumption |].
      unfold same_key. rewrite Hk, Hk0. now destruct (key_eq_dec k k). }
    congruence.
Qed.

Lemma keys_and_unique_indexes_hold_witness :
  (forall ux, In ux all_constraints -> no_two_rows_share ux [])
  /\ no_two_rows_share User_email_key (run sign_ups [])
  /\ List.length (rows_of User (run sign_ups [])) = 2%nat.
Proof.
  assert (H : forall ux, In ux all_constraints -> no_two_rows_share ux []).
  { intros ux _ i j r1 r2 k _ Hi. destruct i; discriminate Hi. }
  split; [exact H |]. split; [| vm_compute; reflexivity].
  apply (proj1 (keys_and_unique_indexes_hold sign_ups [] H)).
  unfold all_constraints. apply in_or_app. right. simpl. tauto.
Defined.

(** X2.  No reference ever dangles: in a store where every non-NULL
    foreign-key value is the key of a stored row of the parent table, that
    is still so after every run of inserts, updates and deletes (an insert
    or update checks the references of its row; a delete is refused by a
    RESTRICT foreign key or takes the referencing rows with it). *)
Theorem references_never_dangle :
  forall (ops : list operation) (db : database),
    no_dangling db ->
    forall fk c,
      In fk foreign_keys -> In (fk_child fk, c) (run ops db) ->
      field (fk_column fk) c <> NULL ->
      exists p,
        In (fk_parent fk, p) (run ops db)
        /\ field (fk_parent_column fk) p = field (fk_column fk) c.
Proof.
  intros ops db H fk c Hfk Hc Hn.
  destruct (run_keeps_references ops db H fk c Hfk Hc) as [E | (p & Hp & E)];
    [contradiction |].
  exists p. split; [assumption | now symmetry].
Qed.

Lemma references_never_dangle_witness :
  no_dangling []
  /\ In Enrollment_courseId_fkey foreign_keys
  /\ map fst (run busy_day [])
     = [User; Category; Course; Lesson; Enrollment]
  /\ forall c,
       In (Enrollment, c) (run busy_day []) ->
       field "courseId" c <> NULL ->
       exists p,
         In (Course, p) (run busy_day [])
         /\ field "id" p = field "courseId" c.
Proof.
  assert (H : no_dangling []) by (intros fk c _ []).
  assert (Hfk : In Enrollment_courseId_fkey foreign_keys)
    by (unfold foreign_keys; simpl; tauto).
  split; [exact H |]. split; [exact Hfk |].
  split; [vm_compute; reflexivity |].
  intros c.
  exact (references_never_dangle busy_day [] H Enrollment_courseId_fkey c Hfk).
Defined.

(** X3.  Stored rows stay as their tables declare them: along every run of
    operations each row carries exactly the declared columns, every value
    is NULL or of the type of its column (an INTEGER within 32 bits, an
    enumerated column one of the labels of its type), and no NOT NULL
    column is NULL. *)
Theorem rows_match_their_columns :
  forall (ops : list operation) (db : database),
    shaped db -> checked db ->
    forall t r,
      In (t, r) (run ops db) ->
      map fst r = map col_name (columns t)
      /\ forall c,
           In c (columns t) ->
           has_type (field (col_name c) r) (col_type c) = true
           /\ (col_not_null c = true -> field (col_name c) r <> NULL).
Proof.
  intros ops db Hs Hc t r Hin. split.
  - pose proof (run_keeps_shape ops db Hs) as Hrun.
    unfold shaped in Hrun.
    rewrite Forall_forall in Hrun. exact (Hrun (t, r) Hin).
  - apply check_row_none. exact (run_keeps_checked ops db Hc t r Hin).
Qed.

Lemma rows_match_their_columns_witness :
  shaped [] /\ checked []
  /\ forall r,
       In (Enrollment, r) (run busy_day []) ->
       has_type (field "progress" r) INTEGER = true
       /\ field "progress" r <> NULL.
Proof.
  assert (Hs : shaped []) by constructor.
  assert (Hc : checked []) by (intros t r []).
  split; [exact Hs |]. split; [exact Hc |]. intros r Hin.
  destruct (proj2 (rows_match_their_columns busy_day [] Hs Hc Enrollment r Hin)
              (col "progress" INTEGER NOT_NULL (DefaultNumber 0)))
    as [Hty Hnn].
  - simpl. tauto.
  - cbn [col_name col_type col_not_null] in Hty, Hnn.
    split; [exact Hty | exact (Hnn eq_refl)].
Defined.

End StoreProperties.

(** ** The store: what is written is what is read *)

Module RoundTripFacts.
Import Schema Store StoreFacts DeleteFacts RowFacts IntegrityFacts.

Fixpoint distinctb (l : list string) : bool :=
  match l with
  | x :: rest => negb (existsb (String.eqb x) rest) && distinctb rest
  | [] => true
  end.

Lemma distinctb_nodup (l : list string) : distinctb l = true -> NoDup l.
Proof.
  induction l as [| x l IH]; simpl; intros H; [constructor |].
  apply andb_true_iff in H. destruct H as [Hx Hl].
  constructor; [| auto].
  intros Hin. apply negb_true_iff in Hx.
  assert (He : existsb (String.eqb x) l = true).
  { apply existsb_exists. exists x. split; [assumption |].
    apply String.eqb_refl. }
  congruence.
Qed.

(** No table of the migration declares a column name twice. *)
Lemma columns_distinct (t : table) : NoDup (map col_name (columns t)).
Proof. apply distinctb_nodup. destruct t; vm_compute; reflexivity. Qed.

Lemma lookup_built (cols : list column) (f : column -> value) (c : column) :
  NoDup (map col_name cols) -> In c cols ->
  lookup (col_name c) (map (fun d => (col_name d, f d)) cols) = Some (f c).
Proof.
  induction cols as [| a cols IH]; simpl; intros Hn Hin; [contradiction |].
  inversion Hn as [| x l Hx Hl]; subst.
  destruct Hin as [-> | Hin].
  - now rewrite String.eqb_refl.
  - destruct (String.eqb (col_name a) (col_name c)) eqn:E; [| auto].
    apply String.eqb_eq in E. exfalso. apply Hx. rewrite E.
    now apply in_map.
Qed.

Lemma field_complete (t : table) (given : row) (now : Z) (c : column) :
  In c (columns t) ->
  field (col_name c) (complete t given now)
  = match lookup (col_name c) given with
    | Some v => v
    | None => default_value c now
    end.
Proof.
  intros Hin. unfold field, complete.
  now rewrite (lookup_built (columns t)
                 (fun d => match lookup (col_name d) given with
                           | Some v => v
                           | None => default_value d now
                           end) c (columns_distinct t) Hin).
Qed.

(** The columns of a primary key are declared NOT NULL. *)
Lemma key_columns_not_null (t : table) (k : string) :
  In k (pk_columns t) ->
  exists c, In c (columns t) /\ col_name c = k /\ col_not_null c = true.
Proof.
  assert (H : forallb
                (fun k0 =>
                   existsb (fun c => String.eqb (col_name c) k0
                                     && col_not_null c) (columns t))
                (pk_columns t) = true)
    by (destruct t; vm_compute; reflexivity).
  intros Hin. rewrite forallb_forall in H. specialize (H k Hin).
  apply existsb_exists in H. destruct H as (c & Hc & Hb).
  apply andb_true_iff in Hb. destruct Hb as [Hn Hnn].
  apply String.eqb_eq in Hn. eauto.
Qed.

Lemma checked_row_has_key (t : table) (r : row) :
  check_row t r = None -> exists key, key_of (pk_columns t) r = Some key.
Proof.
  intros H. unfold key_of.
  destruct (existsb (fun c => is_null (field c r)) (pk_columns t)) eqn:E;
    [| eauto].
  exfalso. apply existsb_exists in E. destruct E as (k & Hk & Hnull).
  destruct (key_columns_not_null t k Hk) as (c & Hc & <- & Hnn).
  destruct (proj1 (check_row_none t r) H c Hc) as [_ Hv].
  apply is_null_true in Hnull. now apply Hv.
Qed.

Lemma in_primary_key (t : table) : In (primary_key t) (constraints_of t).
Proof. unfold constraints_of. now left. Qed.

Lemma no_conflict_not_found (t : table) (r : row) (db : database)
  (key : list value) :
  first_conflict t r (rows_of t db) = None ->
  key_of (pk_columns t) r = Some key ->
  find (has_key t key) db = None.
Proof.
  intros Hconf Hkey. apply find_all_false. intros [t0 r0] Hin.
  unfold has_key. simpl.
  destruct (table_eqb t0 t) eqn:Et; [| reflexivity].
  apply table_eqb_true in Et. subst t0. simpl.
  destruct (key_of (pk_columns t) r0) as [k0 |] eqn:K0; [| reflexivity].
  destruct (key_eq_dec k0 key); [subst k0 | reflexivity].
  pose proof (first_conflict_none _ _ _ _ Hconf (in_primary_key t)) as Hc.
  exfalso. unfold conflicts in Hc.
  assert (Hex : existsb (same_key (ux_columns (primary_key t)) r)
                  (rows_of t db) = true).
  { apply existsb_exists. exists r0. split; [now apply in_rows_of |].
    unfold same_key. fold (pk_columns t). rewrite Hkey, K0.
    now destruct (key_eq_dec key key). }
  congruence.
Qed.

Lemma has_key_own (t : table) (r : row) (key : list value) :
  key_of (pk_columns t) r = Some key -> has_key t key (t, r) = true.
Proof.
  intros H. unfold has_key. cbn [fst snd]. rewrite table_eqb_refl, H.
  now destruct (key_eq_dec key key).
Qed.



End RoundTripFacts.

Module RoundTrips.
Import Schema Store StoreFacts DeleteFacts RowFacts IntegrityFacts.
Import EnrollmentFacts RoundTripFacts.

(** X4.  An insert that goes through appends one row, which is then found
    under its primary key (a key no row was found under before); the row
    carries for every declared column the given value, and where none was
    given the declared default (else NULL); the rows found before are
    still found. *)
Theorem insert_then_find :
  forall (t : table) (given : row) (now : Z) (db db' : database) (r : row),
    insert t given now db = Ok (db', r) ->
    db' = (db ++ [(t, r)])%list
    /\ (exists key,
           key_of (pk_columns t) r = Some key
           /\ find_row t key db = None
           /\ find_row t key db' = Some r)
    /\ (forall c,
           In c (columns t) ->
           field (col_name c) r
           = match lookup (col_name c) given with
             | Some v => v
             | None => default_value c now
             end)
    /\ (forall t' key' r',
           find_row t' key' db = Some r' -> find_row t' key' db' = Some r').
Proof.
  intros t given now db db' r Hi.
  destruct (insert_ok _ _ _ _ _ _ Hi) as (Hr & Hdb & Hck & Hconf & _).
  split; [exact Hdb |]. split; [| split].
  - destruct (checked_row_has_key t r Hck) as (key & Hkey).
    exists key. split; [exact Hkey |].
    pose proof (no_conflict_not_found t r db key Hconf Hkey) as Hnone.
    unfold find_row. rewrite Hdb, find_append, Hnone. cbn [find].
    now rewrite (has_key_own t r key Hkey).
  - intros c Hc. rewrite Hr. now apply field_complete.
  - intros t' key' r' Hf. unfold find_row in *.
    rewrite Hdb, find_append.
    destruct (find (has_key t' key') db); [assumption | discriminate].
Qed.

Lemma insert_then_find_witness :
  exists db' r,
    insert Enrollment
      [ ("id", Text "e1"); ("userId", Text "u1"); ("courseId", Text "c1");
        ("updatedAt", Timestamp 5) ] 5 Samples.catalogue = Ok (db', r)
    /\ find_row Enrollment [Text "e1"] db' = Some r
    /\ field "progress" r = Int 0
    /\ field "createdAt" r = Timestamp 5
    /\ field "completedAt" r = NULL.
Proof.
  destruct (insert Enrollment
              [ ("id", Text "e1"); ("userId", Text "u1");
                ("courseId", Text "c1"); ("updatedAt", Timestamp 5) ] 5
              Samples.catalogue) as [[db' r] | e] eqn:Hi;
    [| vm_compute in Hi; discriminate Hi].
  exists db', r. split; [reflexivity |].
  destruct (insert_then_find _ _ _ _ _ _ Hi)
    as (_ & (key & Hkey & _ & Hfind) & Hfields & _).
  assert (Hr : r = complete Enrollment
                     [ ("id", Text "e1"); ("userId", Text "u1");
                       ("courseId", Text "c1"); ("updatedAt", Timestamp 5) ] 5)
    by (vm_compute in Hi; now injection Hi as _ <-).
  assert (Hk : key = [Text "e1"]).
  { rewrite Hr in Hkey. vm_compute in Hkey. now injection Hkey as <-. }
  rewrite Hk in Hfind. split; [exact Hfind |].
  split; [| split].
  - apply (Hfields (col "progress" INTEGER NOT_NULL (DefaultNumber 0))).
    simpl. tauto.
  - apply (Hfields (col "createdAt" TIMESTAMP NOT_NULL CURRENT_TIMESTAMP)).
    simpl. tauto.
  - apply (Hfields (col "completedAt" TIMESTAMP NULLABLE NoDefault)).
    simpl. tauto.
Defined.



End RoundTrips.

(** ** DELETE: exactly what goes *)

Module CascadeFacts.
Import Schema Store StoreFacts DeleteFacts RowFacts IntegrityFacts.

(** Row [tr] references the row [r] of table [t] through the foreign key
    [fk], and [fk] is declared ON DELETE CASCADE. *)
Definition hits (t : table) (r : row) (tr : table * row) (fk : foreign_key)
  : bool :=
  table_eqb (fk_parent fk) t && cascades fk
  && table_eqb (fst tr) (fk_child fk) && refers fk (snd tr) r.

Definition cascaded (t : table) (r : row) (tr : table * row) : bool :=
  existsb (hits t r tr) foreign_keys.

Definition row_eqb (a b : row) : bool :=
  if row_eq_dec a b then true else false.

Definition delete_children (f : nat) (child : table)
  (acc : result database) (c : row) : result database :=
  match acc with
  | Err e => Err e
  | Ok d => delete_row f child c d
  end.

Lemma cascade_step_children (f : nat) (t : table) (r : row) (d : database)
  (fk : foreign_key) :
  cascade_step f t r (Ok d) fk
  = if table_eqb (fk_parent fk) t && cascades fk
    then fold_left (delete_children f (fk_child fk)) (children fk r d) (Ok d)
    else Ok d.
Proof. reflexivity. Qed.

(** A row of a table from which no cascade starts: it is refused, or it
    goes alone. *)
Lemma leaf_outcome (f : nat) (child : table) (c : row) (d : database) :
  (forall fk, In fk foreign_keys -> fk_parent fk = child ->
              cascades fk = false) ->
  (exists name, delete_row (S f) child c d = Err (ForeignKeyViolation name))
  \/ delete_row (S f) child c d = Ok (without child c d).
Proof.
  intros H. rewrite delete_row_step.
  destruct (restricted_by child c d); [left; eauto | right].
  now apply idle_steps.
Qed.

Lemma children_outcome (f : nat) (child : table) (l : list row) :
  (forall fk, In fk foreign_keys -> fk_parent fk = child ->
              cascades fk = false) ->
  forall d,
    (exists name,
        fold_left (delete_children (S f) child) l (Ok d)
        = Err (ForeignKeyViolation name))
    \/ fold_left (delete_children (S f) child) l (Ok d)
       = Ok (filter (fun tr => negb (table_eqb (fst tr) child
                                     && existsb (row_eqb (snd tr)) l)) d).
Proof.
  intros H. induction l as [| a l IH]; intros d.
  - right. simpl. f_equal. rewrite (filter_all d) at 1.
    apply filter_ext. intros x. now rewrite andb_false_r.
  - cbn [fold_left delete_children].
    destruct (leaf_outcome f child a d H) as [(name & ->) | ->].
    + left. exists name. now apply fold_err.
    + destruct (IH (without child a d)) as [(name & ->) | ->];
        [left; eauto | right].
      f_equal. unfold without. rewrite filter_filter.
      apply filter_ext. intros [t0 r0]. unfold is_row, row_eqb. simpl.
      destruct (table_eqb t0 child); simpl; [| reflexivity].
      now destruct (row_eq_dec r0 a).
Qed.

Lemma in_children_existsb (fk : foreign_key) (r : row) (d : database)
  (tr : table * row) :
  In tr d -> fst tr = fk_child fk ->
  existsb (row_eqb (snd tr)) (children fk r d) = refers fk (snd tr) r.
Proof.
  intros Hin Ht. destruct tr as [t0 r0]. simpl in *. subst t0.
  destruct (refers fk r0 r) eqn:Hr.
  - apply existsb_exists. exists r0. split.
    + apply in_children. auto.
    + unfold row_eqb. now destruct (row_eq_dec r0 r0).
  - destruct (existsb (row_eqb r0) (children fk r d)) eqn:He; [| reflexivity].
    apply existsb_exists in He. destruct He as (c & Hc & Heq).
    unfold row_eqb in Heq. destruct (row_eq_dec r0 c); [subst c | discriminate].
    apply in_children in Hc. destruct Hc as [_ Hc]. congruence.
Qed.

Lemma steps_outcome (f : nat) (t : table) (r : row) (fks : list foreign_key) :
  (forall fk, In fk fks -> In fk foreign_keys) ->
  forall d,
    (exists name,
        fold_left (cascade_step (S f) t r) fks (Ok d)
        = Err (ForeignKeyViolation name))
    \/ fold_left (cascade_step (S f) t r) fks (Ok d)
       = Ok (filter (fun tr => negb (existsb (hits t r tr) fks)) d).
Proof.
  induction fks as [| a fks IH]; intros Hall d.
  - right. simpl. f_equal. apply filter_all.
  - cbn [fold_left]. rewrite cascade_step_children.
    assert (Hrest : forall fk, In fk fks -> In fk foreign_keys)
      by (intros; apply Hall; now right).
    destruct (table_eqb (fk_parent a) t && cascades a) eqn:Hcase; cbv iota.
    + apply andb_true_iff in Hcase. destruct Hcase as [Hp Hc].
      apply table_eqb_true in Hp.
      assert (Hleaf : forall fk, In fk foreign_keys ->
                fk_parent fk = fk_child a -> cascades fk = false).
      { intros fk Hfk Hpar.
        apply (cascade_one_level a fk); auto. apply Hall. now left. }
      destruct (children_outcome f (fk_child a) (children a r d) Hleaf d)
        as [(name & ->) | ->].
      * left. exists name. now apply fold_err.
      * match goal with
        | |- context [fold_left _ fks (Ok ?x)] =>
            destruct (IH Hrest x) as [(name & E) | E]
        end; [left; eauto | right].
        etransitivity; [exact E |]. f_equal. rewrite filter_filter. apply filter_ext_in.
        intros tr Hin. cbn [existsb].
        assert (Ha : hits t r tr a
                     = table_eqb (fst tr) (fk_child a) && refers a (snd tr) r).
        { unfold hits. now rewrite Hp, table_eqb_refl, Hc. }
        rewrite Ha.
        destruct (table_eqb (fst tr) (fk_child a)) eqn:Et; cbn [andb orb].
        -- apply table_eqb_true in Et.
           rewrite (in_children_existsb a r d tr Hin Et).
           now destruct (refers a (snd tr) r).
        -- reflexivity.
    + destruct (IH Hrest d) as [(name & ->) | ->]; [left; eauto | right].
      f_equal. apply filter_ext. intros tr. cbn [existsb].
      assert (Ha : hits t r tr a = false)
        by (unfold hits; now rewrite Hcase).
      now rewrite Ha.
Qed.

Lemma delete_row_outcome (f : nat) (t : table) (r : row) (db : database) :
  (exists name, delete_row (S (S f)) t r db = Err (ForeignKeyViolation name))
  \/ delete_row (S (S f)) t r db
     = Ok (filter (fun tr => negb (is_row t r tr) && negb (cascaded t r tr))
                  db).
Proof.
  rewrite delete_row_step.
  destruct (restricted_by t r db); [left; eauto |].
  destruct (steps_outcome f t r foreign_keys (fun fk H => H) (without t r db))
    as [(name & ->) | ->]; [left; eauto | right].
  f_equal. unfold without. now rewrite filter_filter.
Qed.

End CascadeFacts.

Module DeleteProperties.
Import Schema Store StoreFacts DeleteFacts RowFacts IntegrityFacts CascadeFacts.

(** X6.  What a delete can come to.  There is no row under the key, and
    the answer is that there is none; or a foreign key refuses the delete;
    or the delete goes through, and then the store is the one before
    without the row and without the rows that reference it through a
    foreign key declared ON DELETE CASCADE: every other row stays, in its
    place. *)
Theorem delete_takes_the_row_and_its_cascade :
  forall (t : table) (key : list value) (db : database),
    (find_row t key db = None /\ delete t key db = Err NoSuchRow)
    \/ (exists r name,
           find_row t key db = Some r
           /\ delete t key db = Err (ForeignKeyViolation name))
    \/ (exists r,
           find_row t key db = Some r
           /\ delete t key db
              = Ok (filter (fun tr => negb (is_row t r tr)
                                      && negb (cascaded t r tr)) db)).
Proof.
  intros t key db. unfold delete.
  destruct (find_row t key db) as [r |]; [right | now left].
  cbn [List.length all_tables].
  destruct (delete_row_outcome 30 t r db) as [(name & H) | H].
  - left. exists r, name. split; [reflexivity | exact H].
  - right. exists r. split; [reflexivity | exact H].
Qed.

(** Below a cascading foreign key of a table, the tables that reference the
    cascaded rows are none of those the delete removes rows from. *)
Lemma beyond_the_cascade (fk fk2 fk' : foreign_key) :
  In fk foreign_keys -> In fk2 foreign_keys -> In fk' foreign_keys ->
  cascades fk = true -> fk_parent fk2 = fk_child fk ->
  fk_child fk2 <> fk_parent fk
  /\ (cascades fk' = true -> fk_parent fk' = fk_parent fk ->
      fk_child fk2 <> fk_child fk').
Proof.
  assert (H : forallb
                (fun a =>
                   forallb
                     (fun b =>
                        negb (cascades a
                              && table_eqb (fk_parent b) (fk_child a))
                        || (negb (table_eqb (fk_child b) (fk_parent a))
                            && forallb
                                 (fun c =>
                                    negb (cascades c
                                          && table_eqb (fk_parent c)
                                               (fk_parent a))
                                    || negb (table_eqb (fk_child b)
                                               (fk_child c)))
                                 foreign_keys))
                     foreign_keys) foreign_keys = true)
    by (vm_compute; reflexivity).
  intros H1 H2 H3 Hc Hp.
  rewrite forallb_forall in H. specialize (H fk H1).
  rewrite forallb_forall in H. specialize (H fk2 H2).
  rewrite Hc, Hp, table_eqb_refl in H. cbn [andb negb orb] in H.
  apply andb_true_iff in H. destruct H as [Ha Hb].
  split.
  - intros E. rewrite E, table_eqb_refl in Ha. discriminate Ha.
  - intros Hc' Hp' E.
    rewrite forallb_forall in Hb. specialize (Hb fk' H3).
    rewrite Hc', Hp', E, !table_eqb_refl in Hb. discriminate Hb.
Qed.

Definition LessonCompletion_lessonId_fkey : foreign_key :=
  references "LessonCompletion_lessonId_fkey"
    LessonCompletion "lessonId" Lesson "id" RESTRICT CASCADE.

(** A course with a lesson, and a completion of that lesson recorded under
    an enrollment in another course. *)
Definition finished_lesson : database :=
  run [ Samples.new_user "u1"; Samples.new_category;
        Samples.new_course "c1"; Samples.new_course "c2";
        Samples.new_lesson "l1" "c1";
        Samples.new_enrollment "e1" "u1" "c2";
        Insert LessonCompletion
          [ ("id", Text "k1"); ("enrollmentId", Text "e1");
            ("lessonId", Text "l1") ] 6 ] [].

(** X19.  A cascade does not reach past the rows it deletes.  When a row
    that would be deleted along with its parent (it references the parent
    through an ON DELETE CASCADE foreign key) is itself referenced by a
    stored row, the delete of the parent is refused with a foreign-key
    violation: a course with a lesson that someone has completed cannot
    be deleted. *)
Theorem cascade_is_blocked_by_references :
  forall (fk fk2 : foreign_key) (key : list value) (db : database)
         (parent child grandchild : row),
    In fk foreign_keys -> In fk2 foreign_keys ->
    fk_on_delete fk = CASCADE -> fk_parent fk2 = fk_child fk ->
    find_row (fk_parent fk) key db = Some parent ->
    In child (children fk parent db) ->
    In grandchild (children fk2 child db) ->
    exists name,
      delete (fk_parent fk) key db = Err (ForeignKeyViolation name).
Proof.
  intros fk fk2 key db parent child grandchild Hfk Hfk2 Hc Hp Hfind Hch Hg.
  apply cascades_true in Hc.
  assert (Hout :
            (exists name,
                delete (fk_parent fk) key db = Err (ForeignKeyViolation name))
            \/ delete (fk_parent fk) key db
               = Ok (filter (fun tr =>
                               negb (is_row (fk_parent fk) parent tr)
                               && negb (cascaded (fk_parent fk) parent tr))
                            db)).
  { unfold delete. rewrite Hfind. cbn [List.length all_tables].
    exact (delete_row_outcome 30 (fk_parent fk) parent db). }
  destruct Hout as [Herr | Hok].
  - exact Herr.
  - exfalso.
    destruct (delete_leaves_no_child _ _ _ _ _ Hfind Hok) as [_ Hclear].
    pose proof Hok as Hdel. unfold delete in Hdel. rewrite Hfind in Hdel.
    destruct (delete_row_clean _ _ _ _ _ Hdel) as [_ Hclean].
    set (db' := filter (fun tr => negb (is_row (fk_parent fk) parent tr)
                                  && negb (cascaded (fk_parent fk) parent tr))
                       db) in *.
    apply in_children in Hch. destruct Hch as [Hch_in Hch_ref].
    apply in_children in Hg. destruct Hg as [Hg_in Hg_ref].
    assert (Hchild_gone : ~ In (fk_child fk, child) db').
    { intros Hin.
      assert (Hx : In child (children fk parent db'))
        by (apply in_children; auto).
      rewrite (Hclear fk Hfk eq_refl) in Hx. contradiction. }
    assert (Hg_stays : In (fk_child fk2, grandchild) db').
    { apply filter_In. split; [assumption |].
      destruct (beyond_the_cascade fk fk2 fk Hfk Hfk2 Hfk Hc Hp)
        as [Hnot_parent _].
      apply andb_true_iff. split.
      - unfold is_row. cbn [fst snd].
        destruct (table_eqb (fk_child fk2) (fk_parent fk)) eqn:E;
          [| reflexivity].
        apply table_eqb_true in E. contradiction.
      - apply negb_true_iff. unfold cascaded.
        destruct (existsb (hits (fk_parent fk) parent
                             (fk_child fk2, grandchild)) foreign_keys)
          eqn:E; [| reflexivity].
        exfalso. apply existsb_exists in E. destruct E as (fk' & Hfk' & Hh).
        unfold hits in Hh. cbn [fst snd] in Hh.
        apply andb_true_iff in Hh. destruct Hh as [Hh _].
        apply andb_true_iff in Hh. destruct Hh as [Hh Ht].
        apply andb_true_iff in Hh. destruct Hh as [Hp' Hc'].
        apply table_eqb_true in Hp', Ht.
        destruct (beyond_the_cascade fk fk2 fk' Hfk Hfk2 Hfk' Hc Hp)
          as [_ Hnot]. exact (Hnot Hc' Hp' Ht). }
    assert (Hx : In grandchild (children fk2 child db'))
      by (apply in_children; auto).
    rewrite (Hclean (fk_child fk) child Hch_in Hchild_gone fk2 Hfk2 Hp) in Hx.
    contradiction.
Qed.

Lemma cascade_is_blocked_by_references_witness :
  List.length (rows_of Enrollment finished_lesson) = 1%nat
  /\ (exists lesson,
         find_row Lesson [Text "l1"] finished_lesson = Some lesson
         /\ List.length
              (children LessonCompletion_lessonId_fkey lesson finished_lesson)
            = 1%nat)
  /\ exists name,
       delete Course [Text "c1"] finished_lesson
       = Err (ForeignKeyViolation name).
Proof.
  split; [vm_compute; reflexivity |].
  split; [eexists; split; vm_compute; reflexivity |].
  destruct (find_row Course [Text "c1"] finished_lesson) as [course |] eqn:Hc;
    [| vm_compute in Hc; discriminate Hc].
  destruct (find_row Lesson [Text "l1"] finished_lesson) as [lesson |] eqn:Hl;
    [| vm_compute in Hl; discriminate Hl].
  destruct (rows_of LessonCompletion finished_lesson) as [| done rest] eqn:Hk;
    [vm_compute in Hk; discriminate Hk |].
  apply (cascade_is_blocked_by_references Lesson_courseId_fkey
           LessonCompletion_lessonId_fkey [Text "c1"] finished_lesson
           course lesson done).
  - unfold foreign_keys. simpl. tauto.
  - unfold foreign_keys. simpl. tauto.
  - reflexivity.
  - reflexivity.
  - exact Hc.
  - vm_compute in Hc, Hl. injection Hc as <-. injection Hl as <-.
    vm_compute. now left.
  - vm_compute in Hl, Hk. injection Hl as <-. injection Hk as <- _.
    vm_compute. now left.
Defined.

End DeleteProperties.

(** ** Decimal digits: what is printed is what is read *)

Module DigitFacts.
Import JS.

Lemma digit_cases (d : Z) :
  0 <= d <= 9 ->
  d = 0 \/ d = 1 \/ d = 2 \/ d = 3 \/ d = 4 \/ d = 5 \/ d = 6 \/ d = 7
  \/ d = 8 \/ d = 9.
Proof. lia. Qed.

Lemma digit_char_ok (d : Z) :
  0 <= d <= 9 ->
  is_digit (digit_char d) = true
  /\ hex_value (digit_char d) = Some d
  /\ is_white_space (digit_char d) = false
  /\ code (digit_char d) = 48 + d.
Proof.
  intros H. destruct (digit_cases d H) as [-> | [-> | [-> | [-> | [-> | [-> |
    [-> | [-> | [-> | ->]]]]]]]]]; repeat split; reflexivity.
Qed.

(** A string of decimal digits only. *)
Fixpoint all_digits (s : string) : bool :=
  match s with
  | String c r => is_digit c && all_digits r
  | EmptyString => true
  end.

Lemma digits_fuel_prepends (fuel : nat) :
  forall n acc,
    0 <= n < 2 ^ Z.of_nat fuel -> (1 <= fuel)%nat ->
    exists ds,
      digits_fuel fuel n acc = ds ++ acc
      /\ ds <> EmptyString
      /\ all_digits ds = true
      /\ (forall a, digits_value 10 a ds
                    = a * 10 ^ Z.of_nat (String.length ds) + n)
      /\ (1 <= n -> 10 ^ (Z.of_nat (String.length ds) - 1) <= n).
Proof.
  induction fuel as [| f IH]; intros n acc Hn Hf; [lia |].
  cbn [digits_fuel]. destruct (n <? 10) eqn:Hlt.
  - apply Z.ltb_lt in Hlt.
    destruct (digit_char_ok n ltac:(lia)) as (Hd & Hv & _).
    exists (String (digit_char n) EmptyString).
    split; [reflexivity |]. split; [discriminate |].
    split; [simpl; now rewrite Hd |].
    split; [intros a; simpl; rewrite Hv; lia |].
    intros Hn1. simpl. lia.
  - apply Z.ltb_ge in Hlt.
    assert (Hf1 : (1 <= f)%nat).
    { destruct f; [| lia]. simpl in Hn. lia. }
    assert (Hdiv : 0 <= n / 10 < 2 ^ Z.of_nat f).
    { split; [apply Z.div_pos; lia |].
      rewrite Nat2Z.inj_succ, Z.pow_succ_r in Hn by lia.
      apply Z.div_lt_upper_bound; lia. }
    destruct (IH (n / 10) (String (digit_char (n mod 10)) acc) Hdiv Hf1)
      as (ds & Heq & Hne & Hall & Hval & Hlow).
    pose proof (Z.mod_pos_bound n 10 ltac:(lia)) as Hm.
    pose proof (Z.div_mod n 10 ltac:(lia)) as Hdm.
    destruct (digit_char_ok (n mod 10) ltac:(lia)) as (Hd & Hv & _).
    assert (Hlen : String.length
                     (ds ++ String (digit_char (n mod 10)) EmptyString)
                   = S (String.length ds)).
    { clear. induction ds as [| c ds IHd]; simpl; congruence. }
    exists (ds ++ String (digit_char (n mod 10)) EmptyString).
    split; [| split; [| split; [| split]]].
    + rewrite Heq. clear. induction ds as [| c ds IHd]; simpl; congruence.
    + destruct ds; [congruence | discriminate].
    + clear - Hall Hd. induction ds as [| c ds IHd]; simpl in *.
      * now rewrite Hd.
      * apply andb_true_iff in Hall. destruct Hall as [-> Hr]. simpl. auto.
    + intros a.
      assert (Happ : forall s a0,
                digits_value 10 a0
                  (s ++ String (digit_char (n mod 10)) EmptyString)
                = digits_value 10 a0 s * 10 + n mod 10).
      { induction s as [| c s IHs]; intros a0; simpl.
        - now rewrite Hv.
        - apply IHs. }
      rewrite Happ, Hval.
      rewrite Hlen, Nat2Z.inj_succ, Z.pow_succ_r by lia. lia.
    + intros _. rewrite Hlen.
      assert (Hpos : (1 <= String.length ds)%nat)
        by (destruct ds; [congruence | simpl; lia]).
      replace (Z.of_nat (S (String.length ds)) - 1)
        with (Z.succ (Z.of_nat (String.length ds) - 1)) by lia.
      rewrite Z.pow_succ_r by lia.
      assert (H10 : 1 <= n / 10)
        by (apply Z.div_le_lower_bound; lia).
      specialize (Hlow H10). lia.
Qed.

Lemma Z_to_digits_ok (n : Z) :
  0 <= n ->
  Z_to_digits n <> EmptyString
  /\ all_digits (Z_to_digits n) = true
  /\ digits_value 10 0 (Z_to_digits n) = n
  /\ (1 <= n -> 10 ^ (slen (Z_to_digits n) - 1) <= n).
Proof.
  intros Hn. unfold Z_to_digits.
  assert (Hb : 0 <= n < 2 ^ Z.of_nat (S (Z.to_nat (Z.log2 n)))).
  { split; [assumption |].
    rewrite Nat2Z.inj_succ, Z2Nat.id by apply Z.log2_nonneg.
    destruct (Z.eq_dec n 0) as [-> | Hz]; [reflexivity |].
    apply Z.log2_spec. lia. }
  destruct (digits_fuel_prepends _ n EmptyString Hb ltac:(lia))
    as (ds & Heq & Hne & Hall & Hval & Hlow).
  assert (Hnil : forall s : string, s ++ EmptyString = s).
  { induction s as [| c s IHs]; simpl; congruence. }
  rewrite Heq, Hnil. split; [exact Hne |]. split; [exact Hall |].
  split; [rewrite Hval; lia | exact Hlow].
Qed.

Lemma span_all_digits (s : string) :
  all_digits s = true -> span is_digit s = (s, EmptyString).
Proof.
  induction s as [| c s IH]; simpl; intros H; [reflexivity |].
  apply andb_true_iff in H. destruct H as [-> Hr]. now rewrite (IH Hr).
Qed.

Lemma digit_not_space (c : ascii) : is_digit c = true -> is_white_space c = false.
Proof.
  unfold is_digit, is_white_space. intros H.
  apply andb_true_iff in H. destruct H as [H1 H2].
  apply Z.leb_le in H1. apply Z.leb_le in H2.
  destruct (9 <=? code c) eqn:E1, (code c <=? 13) eqn:E2,
    (code c =? 32) eqn:E3; simpl; try reflexivity;
    try (apply Z.leb_le in E2; lia); apply Z.eqb_eq in E3; lia.
Qed.

(** [parseInt] reads a run of decimal digits as the number it writes. *)
Lemma parseInt_digits (s : string) :
  s <> EmptyString -> all_digits s = true ->
  parseInt_string s = of_Z (digits_value 10 0 s).
Proof.
  intros Hne Hall. destruct s as [| c r]; [congruence |].
  pose proof Hall as Hall0. simpl in Hall.
  apply andb_true_iff in Hall. destruct Hall as [Hc Hr].
  unfold parseInt_string.
  assert (Htrim : trim_start (String c r) = String c r).
  { simpl. now rewrite (digit_not_space c Hc). }
  rewrite Htrim.
  assert (Hcode : 48 <= code c <= 57).
  { unfold is_digit in Hc. apply andb_true_iff in Hc.
    destruct Hc as [H1 H2]. apply Z.leb_le in H1. apply Z.leb_le in H2. lia. }
  assert (Hsign : split_sign (String c r) = (false, String c r)).
  { unfold split_sign.
    destruct c as [[] [] [] [] [] [] [] []]; try reflexivity;
      unfold code in Hcode; simpl in Hcode; lia. }
  rewrite Hsign.
  assert (Hradix :
            match String c r with
            | String "0" (String x r0) =>
                if (code x =? 120) || (code x =? 88) then (16, r0)
                else (10, String c r)
            | _ => (10, String c r)
            end = (10, String c r)).
  { destruct c as [[] [] [] [] [] [] [] []]; try reflexivity.
    destruct r as [| x r0]; [reflexivity |].
    simpl in Hr. apply andb_true_iff in Hr. destruct Hr as [Hx _].
    unfold is_digit in Hx. apply andb_true_iff in Hx.
    destruct Hx as [H1 H2]. apply Z.leb_le in H1. apply Z.leb_le in H2.
    destruct (code x =? 120) eqn:E1; [apply Z.eqb_eq in E1; lia |].
    destruct (code x =? 88) eqn:E2; [apply Z.eqb_eq in E2; lia |].
    reflexivity. }
  rewrite Hradix. cbn [Z.eqb Pos.eqb].
  rewrite (span_all_digits _ Hall0).
  assert (Hlen : (slen (String c r) =? 0) = false).
  { unfold slen. simpl String.length. apply Z.eqb_neq. lia. }
  now rewrite Hlen.
Qed.

Lemma parseInt_Z_to_digits (n : Z) :
  0 <= n -> parseInt_string (Z_to_digits n) = of_Z n.
Proof.
  intros Hn. destruct (Z_to_digits_ok n Hn) as (Hne & Hall & Hval & _).
  now rewrite (parseInt_digits _ Hne Hall), Hval.
Qed.

End DigitFacts.

(** ** The [/api/plans] handlers: what a created plan is *)

Module PlanRouteFacts.
Import JS Zod Plans NumberFacts ZodFacts PlanFacts.

(** [parseInt] gives [NaN] or an integer. *)
Lemma parseInt_string_integer (input : string) :
  parseInt_string input = NaN \/ exists z, parseInt_string input = of_Z z.
Proof.
  unfold parseInt_string.
  destruct (split_sign (trim_start input)) as [negative u].
  destruct (match u with
            | String "0"%char (String x r) =>
                if (JS.code x =? 120) || (JS.code x =? 88) then (16, r)
                else (10, u)
            | _ => (10, u)
            end) as [radix body].
  destruct (span (if radix =? 16 then is_hex_digit else is_digit) body)
    as [z rest].
  destruct (slen z =? 0); [now left | right; eauto].
Qed.

Lemma parseInt_integer (v : value) (d : number) :
  parseInt v = Some d -> d = NaN \/ exists z, d = of_Z z.
Proof.
  unfold parseInt. destruct (ToString v) as [text |]; [| discriminate].
  intros [= <-]. apply parseInt_string_integer.
Qed.

Lemma string_field_clean (p : list path_item) (v : value) (msg : string) :
  fst (parse_at (z_string [str_min 1 msg]) p v) = [] ->
  exists n, v = Str n /\ n <> "".
Proof.
  destruct v; simpl; try discriminate.
  intros H. exists s. split; [reflexivity |].
  intros ->. discriminate H.
Qed.

Lemma items_clean (p : list path_item) (items : list value) :
  forall start,
    flat_map fst
      (map (fun ix : nat * value =>
              parse_at (z_string []) (p ++ [Index (fst ix)])%list (snd ix))
           (combine (seq start (List.length items)) items)) = [] ->
    exists l, strings_of items = Some l.
Proof.
  induction items as [| x items IH]; intros start H; [now exists [] |].
  cbn [List.length seq combine map flat_map fst snd] in H.
  apply app_eq_nil in H. destruct H as [Hx Hrest].
  destruct (IH (S start) Hrest) as (l & Hl).
  destruct x; simpl in Hx; try discriminate.
  exists (s :: l). simpl. now rewrite Hl.
Qed.

Lemma array_field_clean (p : list path_item) (v : value)
  (m : option (Z * string)) :
  fst (parse_at (z_array (z_string []) m) p v) = [] ->
  exists items l,
    v = Array items /\ strings_of items = Some l
    /\ (forall msg, m = Some (1, msg) -> items <> []).
Proof.
  destruct v; try (simpl; discriminate).
  rewrite array_parse. cbv zeta. cbn [fst]. intros H.
  apply app_eq_nil in H. destruct H as [Hshort Hitems].
  destruct (items_clean p items 0 Hitems) as (l & Hl).
  exists items, l. repeat split; auto.
  intros msg -> ->. discriminate Hshort.
Qed.

(** What [planSchema.parse] returns for a payload without issues. *)
Definition parsed_plan (x : number) (dz : Z) (n de : string)
  (ss fs : list value) : value :=
  Object [ ("name", Str n); ("description", Str de);
           ("price", Number x); ("duration", Number (of_Z dz));
           ("services", Array ss); ("features", Array fs) ].

Lemma accepted_parsed (props : list (string * value)) (x : number) (dz : Z)
  (n de : string) (ss fs : list value) (ls lf : list string) :
  x <> NaN -> lt x (of_Z 0) = false -> 1 <= dz ->
  get "name" props = Str n -> n <> "" ->
  get "description" props = Str de -> de <> "" ->
  get "services" props = Array ss -> strings_of ss = Some ls -> ss <> [] ->
  get "features" props = Array fs -> strings_of fs = Some lf ->
  parse planSchema (Object (coerced x (of_Z dz) props))
  = inr (parsed_plan x dz n de ss fs).
Proof.
  intros Hnan Hlt Hdz Hn Hn' Hde Hde' Hs Hls Hss Hf Hlf.
  set (cp := coerced x (of_Z dz) props).
  assert (Gn : get "name" cp = Str n)
    by (unfold cp, coerced; now rewrite !get_set_other by discriminate).
  assert (Gd : get "description" cp = Str de)
    by (unfold cp, coerced; now rewrite !get_set_other by discriminate).
  assert (Gp : get "price" cp = Number x).
  { unfold cp, coerced. rewrite get_set_other by discriminate.
    apply get_set_same. }
  assert (Gu : get "duration" cp = Number (of_Z dz))
    by (unfold cp, coerced; apply get_set_same).
  assert (Gs : get "services" cp = Array ss)
    by (unfold cp, coerced; now rewrite !get_set_other by discriminate).
  assert (Gf : get "features" cp = Array fs)
    by (unfold cp, coerced; now rewrite !get_set_other by discriminate).
  assert (Hshort : too_short 1 "At least one service is required"
                     [Key "services"] ss = []).
  { unfold too_short. destruct ss; [congruence |].
    simpl List.length.
    destruct (Z.ltb_spec (Z.of_nat (S (List.length ss))) 1);
      [lia | reflexivity]. }
  assert (Hint : lt (of_Z dz) (of_Z 1) = false)
    by (rewrite lt_of_Z; apply Z.ltb_ge; lia).
  assert (Hprice : fst (parse_at (z_number [num_min 0 "Price must be non-negative"])
                          [Key "price"] (Number x)) = []
                   /\ snd (parse_at (z_number [num_min 0 "Price must be non-negative"])
                             [Key "price"] (Number x)) = Number x).
  { destruct x; [congruence | | |]; cbn [parse_at fst snd flat_map
      run_number_check app]; rewrite Hlt; split; reflexivity. }
  destruct Hprice as [Hprice1 Hprice2].
  assert (Hparsed : parse_at planSchema [] (Object cp)
                    = ([], parsed_plan x dz n de ss fs)).
  { apply injective_projections.
    - rewrite plan_issues. unfold plan_shape, planSchema.
      cbn [flat_map]. unfold field_issues. cbn [fst snd app].
      rewrite Gn, Gd, Gp, Gu, Gs, Gf, Hprice1.
      rewrite (strings_array _ _ _ _ Hls), (strings_array _ _ _ _ Hlf).
      cbn [parse_at fst flat_map run_string_check run_number_check app of_Z].
      change (Fin (dz # 1)) with (of_Z dz).
      rewrite (not_empty_length _ Hn'), (not_empty_length _ Hde'), Hshort.
      rewrite Hint, isInteger_of_Z. reflexivity.
    - unfold planSchema. rewrite object_output.
      cbn [map fst snd app].
      rewrite Gn, Gd, Gp, Gu, Gs, Gf, Hprice2.
      rewrite (strings_array _ _ _ _ Hls), (strings_array _ _ _ _ Hlf).
      reflexivity. }
  unfold parse. now rewrite Hparsed.
Qed.

Lemma plan_issues_pair (props : list (string * value)) :
  parse_at planSchema [] (Object props)
  = (flat_map (field_issues [] props) plan_shape,
     snd (parse_at planSchema [] (Object props))).
Proof. rewrite <- plan_issues. now destruct (parse_at planSchema [] _). Qed.

(** A payload without issues is an accepted one, up to a price that is no
    finite number. *)
Lemma clean_payload (props : list (string * value)) (x d : number) :
  parseFloat (get "price" props) = Some x ->
  parseInt (get "duration" props) = Some d ->
  flat_map (field_issues [] (coerced x d props)) plan_shape = [] ->
  x <> NaN /\ lt x (of_Z 0) = false
  /\ exists dz n de ss fs ls lf,
       d = of_Z dz /\ 1 <= dz
       /\ get "name" props = Str n /\ n <> ""
       /\ get "description" props = Str de /\ de <> ""
       /\ get "services" props = Array ss /\ strings_of ss = Some ls
       /\ ss <> []
       /\ get "features" props = Array fs /\ strings_of fs = Some lf.
Proof.
  intros Hx Hd H. unfold plan_shape, planSchema in H. cbn [flat_map] in H.
  apply app_eq_nil in H. destruct H as [Hname H].
  apply app_eq_nil in H. destruct H as [Hdesc H].
  apply app_eq_nil in H. destruct H as [Hprice H].
  apply app_eq_nil in H. destruct H as [Hdur H].
  apply app_eq_nil in H. destruct H as [Hserv H].
  apply app_eq_nil in H. destruct H as [Hfeat _].
  rewrite price_issues in Hprice. rewrite duration_issues in Hdur.
  unfold field_issues in Hname, Hdesc, Hserv, Hfeat.
  cbn [fst snd] in Hname, Hdesc, Hserv, Hfeat.
  rewrite PlanClaims.coerced_get in Hname, Hdesc, Hserv, Hfeat.
  cbn [String.eqb Ascii.eqb Bool.eqb] in Hname, Hdesc, Hserv, Hfeat.
  destruct (string_field_clean _ _ _ Hname) as (n & Gn & Hn).
  destruct (string_field_clean _ _ _ Hdesc) as (de & Gd & Hde).
  destruct (array_field_clean _ _ _ Hserv) as (ss & ls & Gs & Hls & Hss).
  destruct (array_field_clean _ _ _ Hfeat) as (fs & lf & Gf & Hlf & _).
  assert (Hxn : x <> NaN) by (intros ->; discriminate Hprice).
  assert (Hxlt : lt x (of_Z 0) = false).
  { destruct x; [congruence | reflexivity | discriminate Hprice |].
    destruct (lt (Fin q) (of_Z 0)); [discriminate Hprice | reflexivity]. }
  split; [exact Hxn |]. split; [exact Hxlt |].
  destruct (parseInt_integer _ _ Hd) as [-> | (dz & ->)];
    [discriminate Hdur |].
  exists dz, n, de, ss, fs, ls, lf.
  assert (Hdz : 1 <= dz).
  { change (of_Z dz) with (Fin (dz # 1)) in Hdur. cbv iota in Hdur.
    change (Fin (dz # 1)) with (of_Z dz) in Hdur.
    rewrite isInteger_of_Z, lt_of_Z in Hdur. cbn [app] in Hdur.
    destruct (dz <? 1) eqn:E; [discriminate Hdur |].
    apply Z.ltb_ge in E. exact E. }
  repeat split; eauto.
Qed.

Definition plan_fields (newId : string) (now : Z) (n de : string) (q : Q)
  (dz : Z) (ls lf : list string) : Store.row :=
  [ ("id", Store.Text newId); ("updatedAt", Store.Timestamp now);
    ("name", Store.Text n); ("description", Store.Text de);
    ("price", Store.Double q); ("duration", Store.Int dz);
    ("services", Store.TextArray ls); ("features", Store.TextArray lf) ].

Lemma plan_create_parsed (q : Q) (dz : Z) (n de : string)
  (ss fs : list value) (ls lf : list string) (newId : string) (now : Z)
  (db : Store.database) :
  strings_of ss = Some ls -> strings_of fs = Some lf ->
  plan_create (parsed_plan (Fin q) dz n de ss fs) newId now db
  = match Store.insert Schema.Plan (plan_fields newId now n de q dz ls lf)
            now db with
    | Store.Ok created => inr created
    | Store.Err e => inl (PrismaRequestError e)
    end.
Proof.
  intros Hls Hlf. unfold plan_create, plan_data, parsed_plan.
  cbn [get String.eqb Ascii.eqb Bool.eqb text_of double_of int_of
       text_array_of].
  rewrite to_int_of_Z, Hls, Hlf. reflexivity.
Qed.

Lemma plan_create_infinite (x : number) (dz : Z) (n de : string)
  (ss fs : list value) (newId : string) (now : Z) (db : Store.database) :
  (forall q, x <> Fin q) ->
  plan_create (parsed_plan x dz n de ss fs) newId now db
  = inl PrismaValidationError.
Proof.
  intros Hx. unfold plan_create, plan_data, parsed_plan.
  cbn [get String.eqb Ascii.eqb Bool.eqb text_of double_of].
  destruct x as [| | | q]; try reflexivity. now elim (Hx q).
Qed.

Lemma plan_row_complete (newId : string) (now : Z) (n de : string) (q : Q)
  (dz : Z) (ls lf : list string) :
  Store.complete Schema.Plan (plan_fields newId now n de q dz ls lf) now
  = plan_row newId n de q dz now ls lf.
Proof. reflexivity. Qed.

Lemma plan_row_check (newId : string) (now : Z) (n de : string) (q : Q)
  (dz : Z) (ls lf : list string) :
  Store.check_row Schema.Plan (plan_row newId n de q dz now ls lf)
  = if (- 2 ^ 31 <=? dz) && (dz <? 2 ^ 31) then None
    else Some (Store.InvalidValue "duration").
Proof.
  unfold Store.check_row, plan_row.
  cbn -[Z.leb Z.ltb Z.pow Z.opp].
  now destruct ((- 2 ^ 31 <=? dz) && (dz <? 2 ^ 31)).
Qed.

(** The payloads that [POST] answers with 200, and what it then does. *)
Lemma POST_inversion (s : option session) (body : option value)
  (newId : string) (now : Z) (db db' : Store.database) (resp : response) :
  POST s body newId now db = (resp, db') -> status resp = 200 ->
  exists props q dz n de ss fs ls lf,
    not_admin s = false /\ body = Some (Object props)
    /\ parseFloat (get "price" props) = Some (Fin q)
    /\ lt (Fin q) (of_Z 0) = false
    /\ parseInt (get "duration" props) = Some (of_Z dz)
    /\ 1 <= dz < 2 ^ 31
    /\ get "name" props = Str n /\ n <> ""
    /\ get "description" props = Str de /\ de <> ""
    /\ get "services" props = Array ss /\ strings_of ss = Some ls
    /\ ss <> []
    /\ get "features" props = Array fs /\ strings_of fs = Some lf
    /\ Store.find_row Schema.Plan [Store.Text newId] db = None
    /\ resp = {| status := 200;
                 json := CreatedPlan (plan_row newId n de q dz now ls lf) |}
    /\ db' = (db ++ [(Schema.Plan, plan_row newId n de q dz now ls lf)])%list.
Proof.
  intros H Hok.
  destruct (not_admin s) eqn:Ha.
  { unfold POST in H. rewrite Ha in H. injection H as <- _. discriminate Hok. }
  destruct body as [json0 |];
    [| unfold POST in H; rewrite Ha in H; injection H as <- _;
       discriminate Hok].
  destruct json0 as [| | b | x0 | t | items | props];
    try (unfold POST in H; rewrite Ha in H; simpl in H; injection H as <- _;
         discriminate Hok).
  destruct (parseFloat (get "price" props)) as [x |] eqn:Hx;
    [| unfold POST in H; rewrite Ha in H; cbn [coerce_field] in H;
       rewrite Hx in H; injection H as <- _; discriminate Hok].
  destruct (parseInt (get "duration" props)) as [d |] eqn:Hd.
  2:{ unfold POST in H. rewrite Ha in H. cbn [coerce_field] in H.
      rewrite Hx in H. cbn [coerce_field] in H.
      rewrite get_set_other in H by discriminate. rewrite Hd in H.
      injection H as <- _. discriminate Hok. }
  rewrite (POST_validated s props x d) in H by assumption.
  destruct (flat_map (field_issues [] (coerced x d props)) plan_shape)
    as [| i l] eqn:Hissues.
  2:{ unfold parse in H. rewrite plan_issues_pair in H.
      rewrite Hissues in H. injection H as <- _. discriminate Hok. }
  destruct (clean_payload props x d Hx Hd Hissues)
    as (Hnan & Hlt & dz & n & de & ss & fs & ls & lf & -> & Hdz & Gn & Hn
        & Gd & Hde & Gs & Hls & Hss & Gf & Hlf).
  rewrite (accepted_parsed props x dz n de ss fs ls lf) in H by assumption.
  destruct x as [| | | q]; [congruence | | discriminate Hlt |].
  { rewrite plan_create_infinite in H by discriminate.
    injection H as <- _. discriminate Hok. }
  rewrite (plan_create_parsed q dz n de ss fs ls lf) in H by assumption.
  destruct (Store.insert Schema.Plan (plan_fields newId now n de q dz ls lf)
              now db) as [[d1 plan] | e] eqn:Hi;
    [| injection H as <- _; discriminate Hok].
  injection H as <- <-.
  destruct (RowFacts.insert_ok _ _ _ _ _ _ Hi) as (Hr & Hdb & Hck & Hconf & _).
  rewrite plan_row_complete in Hr. subst plan.
  rewrite plan_row_check in Hck.
  destruct ((- 2 ^ 31 <=? dz) && (dz <? 2 ^ 31)) eqn:Hrange;
    [| discriminate Hck].
  apply andb_true_iff in Hrange. destruct Hrange as [_ Hhi].
  apply Z.ltb_lt in Hhi.
  exists props, q, dz, n, de, ss, fs, ls, lf.
  split; [reflexivity |]. split; [reflexivity |]. split; [exact Hx |].
  split; [exact Hlt |]. split; [exact Hd |]. split; [lia |].
  split; [exact Gn |]. split; [exact Hn |]. split; [exact Gd |].
  split; [exact Hde |]. split; [exact Gs |]. split; [exact Hls |].
  split; [exact Hss |]. split; [exact Gf |]. split; [exact Hlf |].
  split; [| split; [reflexivity | exact Hdb]].
  unfold Store.find_row.
  now rewrite (RoundTripFacts.no_conflict_not_found Schema.Plan _ db
                 [Store.Text newId] Hconf eq_refl).
Qed.

End PlanRouteFacts.

Module PlanProperties.
Import JS Zod Plans NumberFacts ZodFacts PlanFacts PlanRouteFacts.

Lemma POST_unchanged (s : option session) (body : option value)
  (newId : string) (now : Z) (db db' : Store.database) (resp : response) :
  POST s body newId now db = (resp, db') -> status resp <> 200 -> db' = db.
Proof.
  unfold POST. intros H Hs.
  destruct (not_admin s); [now injection H as _ <- |].
  destruct body as [json0 |]; [| now injection H as _ <-].
  destruct (coerce_field "price" parseFloat json0) as [e | json1];
    [now injection H as _ <- |].
  destruct (coerce_field "duration" parseInt json1) as [e | json2];
    [now injection H as _ <- |].
  destruct (parse planSchema json2) as [errors | parsed];
    [now injection H as _ <- |].
  destruct (plan_create parsed newId now db) as [e | [d plan]];
    [now injection H as _ <- |].
  injection H as <- _. now elim Hs.
Qed.

(** X7.  What [POST] does to the store.  When it answers 200 it has
    appended one Plan row, the plan it returns, under the new id, which
    no plan carried before and which finds the plan afterwards; every
    other answer leaves the store as it was.  Rows already stored are
    never changed or removed. *)
Theorem createPlan_appends_or_leaves :
  forall (s : option session) (body : option value) (newId : string)
         (now : Z) (db : Store.database),
    let answer := POST s body newId now db in
    (status (fst answer) = 200
     /\ exists plan,
          json (fst answer) = CreatedPlan plan
          /\ snd answer = (db ++ [(Schema.Plan, plan)])%list
          /\ Store.field "id" plan = Store.Text newId
          /\ Store.find_row Schema.Plan [Store.Text newId] db = None
          /\ Store.find_row Schema.Plan [Store.Text newId] (snd answer)
             = Some plan)
    \/ (status (fst answer) <> 200 /\ snd answer = db).
Proof.
  intros s body newId now db answer.
  destruct answer as [resp db'] eqn:E. unfold answer in E. cbn [fst snd].
  destruct (Z.eq_dec (status resp) 200) as [Hok | Hno].
  - left. split; [exact Hok |].
    destruct (POST_inversion _ _ _ _ _ _ _ E Hok)
      as (props & q & dz & n & de & ss & fs & ls & lf & _ & _ & _ & _ & _ & _
          & _ & _ & _ & _ & _ & _ & _ & _ & _ & Hnone & -> & ->).
    eexists. split; [reflexivity |]. split; [reflexivity |].
    split; [reflexivity |]. split; [exact Hnone |].
    unfold Store.find_row in *. rewrite RowFacts.find_append.
    destruct (find (Store.has_key Schema.Plan [Store.Text newId]) db);
      [discriminate Hnone |].
    cbn [find].
    now rewrite (RoundTripFacts.has_key_own Schema.Plan
                   (plan_row newId n de q dz now ls lf)
                   [Store.Text newId] eq_refl).
  - right. split; [exact Hno |]. exact (POST_unchanged _ _ _ _ _ _ _ E Hno).
Qed.





Lemma newest_first_app_newest (l : list Store.row) (x : Store.row) :
  (forall r, In r l -> created_at r < created_at x) ->
  newest_first (l ++ [x]) = x :: newest_first l.
Proof.
  unfold newest_first. rewrite fold_right_app. cbn [fold_right insert_desc].
  induction l as [| a l IH]; intros H; [reflexivity |].
  cbn [fold_right]. rewrite IH by (intros r Hr; apply H; now right).
  cbn [insert_desc].
  destruct (created_at x <=? created_at a) eqn:E; [| reflexivity].
  apply Z.leb_le in E. specialize (H a (or_introl eq_refl)). lia.
Qed.

(** X9.  A plan that [POST] has created is listed by [GET]: the total
    has grown by one and the plan is among the plans in listing order;
    when the plans stored before were all created earlier, it is the first
    plan of the first page, whatever the page size, and the page holds no
    more plans than its size. *)
Theorem created_plan_is_listed :
  forall (s : option session) (body : option value) (newId : string)
         (now : Z) (db db' : Store.database) (plan : Store.row)
         (size_param : option string) (n : Z),
    POST s body newId now db
    = ({| status := 200; json := CreatedPlan plan |}, db') ->
    parseInt_string (or_default size_param "10") = of_Z n ->
    1 <= n <= 2 ^ 53 ->
    let before := Store.rows_of Schema.Plan db in
    In plan (newest_first (Store.rows_of Schema.Plan db'))
    /\ plan_count db' = of_Z (Z.of_nat (List.length before) + 1)
    /\ ((forall r, In r before -> created_at r < now) ->
        exists others pages,
          GET s None size_param db'
          = {| status := 200;
               json := PlanPage (format plan :: others) pages |}
          /\ (List.length others <= Z.to_nat (n - 1))%nat
          /\ total pages = of_Z (Z.of_nat (List.length before) + 1)).
Proof.
  intros s body newId now db db' plan size_param n E Hn Hb before.
  destruct (POST_inversion _ _ _ _ _ _ _ E eq_refl)
    as (props & q & dz & na & de & ss & fs & ls & lf & Ha & _ & _ & _ & _ & _
        & _ & _ & _ & _ & _ & _ & _ & _ & _ & _ & Hresp & ->).
  injection Hresp as ->.
  assert (Hrows : Store.rows_of Schema.Plan
                    (db ++ [(Schema.Plan,
                             plan_row newId na de q dz now ls lf)])%list
                  = (before ++ [plan_row newId na de q dz now ls lf])%list).
  { rewrite StoreFacts.rows_of_app. reflexivity. }
  rewrite Hrows. split; [| split].
  - destruct (newest_first_sorted
                (before ++ [plan_row newId na de q dz now ls lf])%list)
      as [_ Hperm].
    apply (Permutation_in _ (Permutation_sym Hperm)).
    apply in_or_app. right. now left.
  - unfold plan_count. rewrite Hrows, length_app. cbn [List.length].
    f_equal. lia.
  - intros Hold.
    rewrite (GET_page s None size_param _ 1 n Ha eq_refl Hn)
      by lia.
    rewrite Hrows, length_app. cbn [List.length].
    rewrite newest_first_app_newest by exact Hold.
    replace (Z.to_nat ((1 - 1) * n)) with 0%nat by lia.
    replace (Z.to_nat n) with (S (Z.to_nat (n - 1))) by lia.
    cbn [skipn firstn map].
    eexists. eexists. split; [reflexivity |]. split.
    + rewrite length_map. apply firstn_le_length.
    + cbn [total].
      unfold plan_count. rewrite Hrows, length_app. cbn [List.length].
      f_equal. lia.
Qed.

Lemma created_plan_is_listed_witness :
  exists plan db' others pages,
    POST PlanClaims.administrator
      (Some (Object (PlanClaims.basic (Str "49.99") (Str "30")))) "p4" 400
      PlanClaims.three_plans
    = ({| status := 200; json := CreatedPlan plan |}, db')
    /\ GET PlanClaims.administrator None (Some "2") db'
       = {| status := 200; json := PlanPage (format plan :: others) pages |}
    /\ (List.length others <= 1)%nat
    /\ total pages = of_Z 4.
Proof.
  eexists. eexists.
  assert (E : POST PlanClaims.administrator
                (Some (Object (PlanClaims.basic (Str "49.99") (Str "30"))))
                "p4" 400 PlanClaims.three_plans
              = ({| status := 200;
                    json := CreatedPlan
                              (plan_row "p4" "Basic" "Essential mentorship"
                                 49.99 30 400 ["mentorship"] []) |},
                 (PlanClaims.three_plans
                  ++ [(Schema.Plan,
                       plan_row "p4" "Basic" "Essential mentorship"
                         49.99 30 400 ["mentorship"] [])])%list))
    by (vm_compute; reflexivity).
  destruct (created_plan_is_listed _ _ _ _ _ _ _ (Some "2") 2 E eq_refl
              ltac:(split; [lia | vm_compute; discriminate]))
    as (_ & _ & H).
  destruct H as (others & pages & Hget & Hlen & Htotal).
  - intros r Hr. vm_compute in Hr.
    destruct Hr as [<- | [<- | [<- | []]]]; vm_compute; reflexivity.
  - exists others, pages. split; [exact E |]. split; [exact Hget |].
    split; [exact Hlen | exact Htotal].
Defined.

(** *** The issues [POST] can list *)









(** *** Only the six fields of the schema count *)

Definition plan_keys : list string :=
  [ "name"; "description"; "price"; "duration"; "services"; "features" ].

Lemma parse_on_shape (shape : list (string * schema))
  (p1 p2 : list (string * value)) :
  (forall k sk, In (k, sk) shape -> get k p1 = get k p2) ->
  parse (z_object shape) (Object p1) = parse (z_object shape) (Object p2).
Proof.
  intros Hget. unfold parse.
  assert (H : parse_at (z_object shape) [] (Object p1)
              = parse_at (z_object shape) [] (Object p2)).
  { apply injective_projections.
    - rewrite !object_issues.
      induction shape as [| [k sk] shape IH]; [reflexivity |].
      cbn [flat_map]. unfold field_issues at 1 3. cbn [fst snd].
      rewrite (Hget k sk (or_introl eq_refl)). f_equal.
      apply IH. intros k' sk' Hin. apply (Hget k' sk'). now right.
    - rewrite !object_output. f_equal. apply map_ext_in. intros [k sk] Hin.
      simpl. now rewrite (Hget k sk Hin). }
  now rewrite H.
Qed.

(** X12.  [POST] reads the six fields of the schema and nothing else of
    the payload: two payloads that agree on name, description, price,
    duration, services and features are answered alike and leave the same
    store, whatever other keys they carry (an id or a creation time sent
    by the client is dropped). *)
Theorem createPlan_reads_six_fields :
  forall (s : option session) (p1 p2 : list (string * value))
         (newId : string) (now : Z) (db : Store.database),
    (forall k, In k plan_keys -> get k p1 = get k p2) ->
    POST s (Some (Object p1)) newId now db
    = POST s (Some (Object p2)) newId now db.
Proof.
  intros s p1 p2 newId now db H.
  assert (Hprice : get "price" p1 = get "price" p2)
    by (apply H; simpl; tauto).
  assert (Hdur : get "duration" p1 = get "duration" p2)
    by (apply H; simpl; tauto).
  destruct (not_admin s) eqn:Ha.
  { unfold POST. now rewrite Ha. }
  destruct (parseFloat (get "price" p1)) as [x |] eqn:Hx.
  2:{ unfold POST. rewrite Ha. cbn [coerce_field].
      rewrite <- Hprice, Hx. reflexivity. }
  destruct (parseInt (get "duration" p1)) as [d |] eqn:Hd.
  2:{ unfold POST. rewrite Ha. cbn [coerce_field].
      rewrite <- Hprice, Hx. cbn [coerce_field].
      rewrite !get_set_other by discriminate.
      rewrite <- Hdur, Hd. reflexivity. }
  rewrite (POST_validated s p1 x d) by assumption.
  rewrite (POST_validated s p2 x d) by congruence.
  unfold planSchema.
  rewrite (parse_on_shape _ (coerced x d p1) (coerced x d p2));
    [reflexivity |].
  intros k sk Hin. rewrite !PlanClaims.coerced_get.
  destruct (String.eqb k "duration"); [reflexivity |].
  destruct (String.eqb k "price"); [reflexivity |].
  apply H. apply (in_map fst) in Hin. exact Hin.
Qed.

Lemma createPlan_reads_six_fields_witness :
  POST PlanClaims.administrator
    (Some (Object (("id", Str "mine") :: ("createdAt", Number (of_Z 0))
                   :: PlanClaims.basic (Str "49.99") (Str "30"))))
    "p1" 100 []
  = POST PlanClaims.administrator
      (Some (Object (PlanClaims.basic (Str "49.99") (Str "30"))))
      "p1" 100 [].
Proof.
  apply createPlan_reads_six_fields.
  intros k Hk. simpl in Hk.
  destruct Hk as [<- | [<- | [<- | [<- | [<- | [<- | []]]]]]]; reflexivity.
Defined.



(** *** [GET]: defaults, and the pages taken together *)

(** No two plans of the store were created at the same time: the order
    [createdAt DESC] then leaves nothing open. *)
Definition distinct_times (db : Store.database) : Prop :=
  NoDup (map created_at (Store.rows_of Schema.Plan db)).

(** X14.  Without a page or a page size in the query, or with an empty
    one, [GET] serves page 1 with 10 plans to the page: the ten newest
    plans (no two plans being created at the same time), with the total
    and the number of pages of ten. *)
Theorem listPlans_defaults :
  forall (s : option session) (page_param size_param : option string)
         (db : Store.database),
    not_admin s = false ->
    distinct_times db ->
    page_param = None \/ page_param = Some "" ->
    size_param = None \/ size_param = Some "" ->
    GET s page_param size_param db
    = {| status := 200;
         json :=
           PlanPage
             (map format
                (firstn 10 (newest_first (Store.rows_of Schema.Plan db))))
             {| total := plan_count db;
                pageCount :=
                  of_Z (- ((- Z.of_nat (List.length
                                          (Store.rows_of Schema.Plan db)))
                           / 10));
                currentPage := of_Z 1;
                pageSize := of_Z 10 |} |}.
Proof.
  intros s page_param size_param db Ha _ Hp Hn.
  assert (Hpage : parseInt_string (or_default page_param "1") = of_Z 1)
    by (destruct Hp as [-> | ->]; reflexivity).
  assert (Hsize : parseInt_string (or_default size_param "10") = of_Z 10)
    by (destruct Hn as [-> | ->]; reflexivity).
  rewrite (GET_page s page_param size_param db 1 10 Ha Hpage Hsize)
    by (try lia; vm_compute; discriminate).
  reflexivity.
Qed.

Lemma three_distinct_times : distinct_times PlanClaims.three_plans.
Proof.
  unfold distinct_times.
  change (map created_at (Store.rows_of Schema.Plan PlanClaims.three_plans))
    with [100; 300; 200].
  repeat constructor; simpl; intros H;
    repeat (destruct H as [H | H]; [discriminate H |]); exact H.
Defined.

Lemma listPlans_defaults_witness :
  exists pages,
    GET PlanClaims.administrator None (Some "") PlanClaims.three_plans
    = {| status := 200;
         json :=
           PlanPage
             (map format
                (newest_first
                   (Store.rows_of Schema.Plan PlanClaims.three_plans)))
             pages |}
    /\ pageCount pages = of_Z 1 /\ pageSize pages = of_Z 10.
Proof.
  eexists. split.
  - rewrite (listPlans_defaults PlanClaims.administrator None (Some "")
               PlanClaims.three_plans eq_refl three_distinct_times
               (or_introl eq_refl) (or_intror eq_refl)).
    reflexivity.
  - split; reflexivity.
Defined.

Lemma chunks_cover {A : Type} (n k : nat) :
  forall l : list A,
    (List.length l <= k * n)%nat ->
    flat_map (fun i => firstn n (skipn (i * n) l)) (seq 0 k) = l.
Proof.
  induction k as [| k IH]; intros l Hl.
  - destruct l; [reflexivity | simpl in Hl; lia].
  - cbn [seq flat_map]. rewrite <- seq_shift, flat_map_concat_map, map_map.
    rewrite <- flat_map_concat_map.
    rewrite (flat_map_ext _ (fun i => firstn n (skipn (i * n) (skipn n l)))).
    + rewrite IH; [apply firstn_skipn |].
      rewrite length_skipn. lia.
    + intros i. rewrite skipn_skipn. f_equal. f_equal. lia.
Qed.

Lemma flat_map_same {A B : Type} (f g : A -> list B) (l : list A) :
  (forall a, In a l -> f a = g a) -> flat_map f l = flat_map g l.
Proof.
  induction l as [| a l IH]; simpl; intros H; [reflexivity |].
  rewrite (H a (or_introl eq_refl)). f_equal. apply IH. auto.
Qed.

Lemma map_flat_map {A B C : Type} (f : B -> C) (g : A -> list B)
  (l : list A) :
  map f (flat_map g l) = flat_map (fun x => map f (g x)) l.
Proof.
  induction l as [| a l IH]; simpl; [reflexivity |].
  now rewrite map_app, IH.
Qed.

(** The plans of the response, none when the response is an error. *)
Definition plans_of (r : response) : list formatted_plan :=
  match json r with
  | PlanPage plans _ => plans
  | _ => []
  end.

Definition page_query (p : Z) : option string := Some (Z_to_digits p).

Lemma page_query_read (p : Z) (d : string) :
  0 <= p -> parseInt_string (or_default (page_query p) d) = of_Z p.
Proof.
  intros Hp. unfold page_query, or_default.
  destruct (DigitFacts.Z_to_digits_ok p Hp) as (Hne & _).
  destruct (String.eqb (Z_to_digits p) "") eqn:E.
  - apply String.eqb_eq in E. contradiction.
  - now apply DigitFacts.parseInt_Z_to_digits.
Qed.

(** X15.  The pages of a listing, taken one after the other, are the
    listing: for a page size n >= 1 (and no two plans created at the same
    time) the plans of pages 1, 2, ..., pageCount put end to end are all
    the plans, newest first, each plan once; every one of these pages has
    a plan on it, and a page after the last one is served empty. *)
Theorem listPlans_pages_cover :
  forall (s : option session) (db : Store.database) (n : Z),
    not_admin s = false -> distinct_times db -> 1 <= n ->
    let rows := Store.rows_of Schema.Plan db in
    let count := Z.of_nat (List.length rows) in
    let pages := - (- count / n) in
    let page := fun p => GET s (page_query p) (page_query n) db in
    count + n <= 2 ^ 53 ->
    flat_map (fun i => plans_of (page (Z.of_nat i + 1)))
             (seq 0 (Z.to_nat pages))
    = map format (newest_first rows)
    /\ (forall p, 1 <= p <= pages -> plans_of (page p) <> [])
    /\ (forall p, pages < p -> p * n <= 2 ^ 53 ->
                  status (page p) = 200 /\ plans_of (page p) = []).
Proof.
  intros s db n Ha _ Hn rows count pages page Hb.
  assert (Hcount : 0 <= count) by (unfold count; lia).
  destruct (ceiling_bounds count n ltac:(lia)) as [Hlow Hhigh].
  fold pages in Hlow, Hhigh.
  assert (Hlen : List.length (newest_first rows) = List.length rows).
  { apply Permutation_length. apply newest_first_sorted. }
  assert (Hpage : forall p, 1 <= p -> p * n <= 2 ^ 53 ->
            status (page p) = 200
            /\ plans_of (page p)
               = map format
                   (firstn (Z.to_nat n)
                      (skipn (Z.to_nat ((p - 1) * n)) (newest_first rows)))).
  { intros p Hp Hpn. unfold page.
    rewrite (GET_page s (page_query p) (page_query n) db p n Ha
               (page_query_read p "1" ltac:(lia))
               (page_query_read n "10" ltac:(lia)) Hp Hn Hpn).
    split; reflexivity. }
  split; [| split].
  - rewrite (flat_map_same _
               (fun i => map format
                           (firstn (Z.to_nat n)
                              (skipn (i * Z.to_nat n) (newest_first rows))))).
    + rewrite <- map_flat_map. f_equal. apply chunks_cover.
      rewrite Hlen. fold rows. nia.
    + intros i Hi. apply in_seq in Hi.
      destruct (Hpage (Z.of_nat i + 1) ltac:(lia) ltac:(nia)) as [_ ->].
      do 3 f_equal. nia.
  - intros p Hp. destruct (Hpage p ltac:(lia) ltac:(nia)) as [_ ->].
    intros E. apply (f_equal (@List.length _)) in E.
    rewrite length_map, length_firstn, length_skipn, Hlen in E.
    cbn [List.length] in E. fold rows in E. nia.
  - intros p Hp Hpn. destruct (Hpage p ltac:(nia) Hpn) as [-> ->].
    split; [reflexivity |].
    rewrite skipn_all2; [now destruct (Z.to_nat n) |].
    rewrite Hlen. fold rows. nia.
Qed.

Lemma listPlans_pages_cover_witness :
  flat_map
    (fun i =>
       plans_of (GET PlanClaims.administrator (page_query (Z.of_nat i + 1))
                   (page_query 2) PlanClaims.three_plans))
    [0%nat; 1%nat]
  = map format
      (newest_first (Store.rows_of Schema.Plan PlanClaims.three_plans))
  /\ plans_of (GET PlanClaims.administrator (page_query 3) (page_query 2)
                 PlanClaims.three_plans) = [].
Proof.
  destruct (listPlans_pages_cover PlanClaims.administrator
              PlanClaims.three_plans 2 eq_refl three_distinct_times
              ltac:(lia) ltac:(vm_compute; discriminate))
    as (Hall & _ & Hpast).
  split; [exact Hall |].
  apply (Hpast 3); [vm_compute; reflexivity | vm_compute; discriminate].
Defined.

End PlanProperties.

(** ** The error page and its message *)

Module ErrorPageFacts.
Import ErrorPage.

(** Every [%] of the string is followed by two hexadecimal digits. *)
Fixpoint escapes_ok (s : jsstring) : bool :=
  match s with
  | [] => true
  | c :: rest =>
      (if c =? percent then
         match rest with
         | h1 :: h2 :: _ =>
             match hex_octet h1 h2 with Some _ => true | None => false end
         | _ => false
         end
       else true)
      && escapes_ok rest
  end.

Lemma prepend_returned (units : jsstring) (rest : outcome jsstring)
  (r : jsstring) :
  prepend units rest = Returned r ->
  exists r', rest = Returned r' /\ r = (units ++ r')%list.
Proof.
  destruct rest as [r' |]; simpl; [| discriminate].
  intros [= <-]. eauto.
Qed.

Lemma hex_digit_not_percent (h : Z) (d : Z) :
  hex_digit h = Some d -> (h =? percent) = false.
Proof.
  unfold hex_digit, percent. intros H. apply Z.eqb_neq. intros ->.
  discriminate H.
Qed.

Lemma hex_octet_digits (h1 h2 b : Z) :
  hex_octet h1 h2 = Some b ->
  (h1 =? percent) = false /\ (h2 =? percent) = false.
Proof.
  unfold hex_octet.
  destruct (hex_digit h1) as [a |] eqn:E1; [| discriminate].
  destruct (hex_digit h2) as [c |] eqn:E2; [| discriminate].
  intros _. split; eapply hex_digit_not_percent; eauto.
Qed.

Lemma escapes_ok_escape (h1 h2 b : Z) (rest : jsstring) :
  hex_octet h1 h2 = Some b -> escapes_ok rest = true ->
  escapes_ok (percent :: h1 :: h2 :: rest) = true.
Proof.
  intros Hb Hr. destruct (hex_octet_digits _ _ _ Hb) as [E1 E2].
  cbn [escapes_ok]. rewrite Hb, E1, E2, Hr. reflexivity.
Qed.

(** A string that [decode] accepts, in whatever state, has all its escapes
    in order. *)
Lemma decode_escapes (n : nat) :
  forall (s : jsstring) (pending : nat) (octets : list Z) (r : jsstring),
    (List.length s <= n)%nat ->
    decode pending octets s = Returned r -> escapes_ok s = true.
Proof.
  induction n as [| n IH]; intros s pending octets r Hlen H.
  - destruct s; [reflexivity | simpl in Hlen; lia].
  - destruct pending as [| j].
    + destruct s as [| c rest]; [reflexivity |].
      cbn [decode] in H. destruct (c =? percent) eqn:Ec.
      * apply Z.eqb_eq in Ec. subst c.
        destruct rest as [| h1 [| h2 rest']]; try discriminate H.
        destruct (hex_octet h1 h2) as [b |] eqn:Hb; [| discriminate H].
        apply (escapes_ok_escape h1 h2 b rest' Hb).
        simpl in Hlen. cbv zeta in H.
        destruct (leading_ones b =? 0).
        -- apply prepend_returned in H. destruct H as (r' & H & _).
           apply (IH rest' _ _ _ ltac:(lia) H).
        -- destruct ((leading_ones b =? 1) || (4 <? leading_ones b));
             [discriminate H |].
           apply (IH rest' _ _ _ ltac:(lia) H).
      * apply prepend_returned in H. destruct H as (r' & H & _).
        cbn [escapes_ok]. rewrite Ec. simpl in Hlen.
        apply (IH rest _ _ _ ltac:(lia) H).
    + destruct s as [| c [| h1 [| h2 rest']]]; try discriminate H.
      cbn [decode] in H. destruct (c =? percent) eqn:Ec; [| discriminate H].
      apply Z.eqb_eq in Ec. subst c.
      destruct (hex_octet h1 h2) as [b |] eqn:Hb; [| discriminate H].
      apply (escapes_ok_escape h1 h2 b rest' Hb).
      simpl in Hlen. cbv zeta in H. destruct j as [| j'].
      * destruct (utf8_code_point (octets ++ [b])); [| discriminate H].
        apply prepend_returned in H. destruct H as (r' & H & _).
        apply (IH rest' _ _ _ ltac:(lia) H).
      * apply (IH rest' _ _ _ ltac:(lia) H).
Qed.

(** A string without [%] is returned as it is. *)
Lemma decode_plain (s : jsstring) :
  (forall c, In c s -> c <> percent) -> decode 0 [] s = Returned s.
Proof.
  induction s as [| c rest IH]; intros H; [reflexivity |].
  cbn [decode]. destruct (c =? percent) eqn:Ec.
  - apply Z.eqb_eq in Ec. now elim (H c (or_introl eq_refl)).
  - rewrite IH by (intros x Hx; apply H; now right). reflexivity.
Qed.

Lemma utf16_encode_length (v : Z) : (List.length (utf16_encode v) <= 2)%nat.
Proof. unfold utf16_encode. destruct (v <=? 65535); simpl; lia. Qed.

(** Decoding never makes a string longer. *)
Lemma decode_length (n : nat) :
  forall (s : jsstring) (pending : nat) (octets : list Z) (r : jsstring),
    (List.length s <= n)%nat ->
    decode pending octets s = Returned r ->
    (List.length r <= List.length s)%nat.
Proof.
  induction n as [| n IH]; intros s pending octets r Hlen H.
  - destruct s; [| simpl in Hlen; lia].
    destruct pending; simpl in H; [| discriminate H].
    injection H as <-. simpl. lia.
  - destruct pending as [| j].
    + destruct s as [| c rest]; [injection H as <-; simpl; lia |].
      cbn [decode] in H. destruct (c =? percent).
      * destruct rest as [| h1 [| h2 rest']]; try discriminate H.
        destruct (hex_octet h1 h2) as [b |]; [| discriminate H].
        simpl in Hlen. cbv zeta in H.
        destruct (leading_ones b =? 0).
        -- apply prepend_returned in H. destruct H as (r' & H & ->).
           pose proof (IH rest' _ _ _ ltac:(lia) H). simpl. lia.
        -- destruct ((leading_ones b =? 1) || (4 <? leading_ones b));
             [discriminate H |].
           pose proof (IH rest' _ _ _ ltac:(lia) H). simpl. lia.
      * apply prepend_returned in H. destruct H as (r' & H & ->).
        simpl in Hlen. pose proof (IH rest _ _ _ ltac:(lia) H). simpl. lia.
    + destruct s as [| c [| h1 [| h2 rest']]]; try discriminate H.
      cbn [decode] in H. destruct (c =? percent); [| discriminate H].
      destruct (hex_octet h1 h2) as [b |]; [| discriminate H].
      simpl in Hlen. cbv zeta in H. destruct j as [| j'].
      * destruct (utf8_code_point (octets ++ [b])) as [v |];
          [| discriminate H].
        apply prepend_returned in H. destruct H as (r' & H & ->).
        pose proof (IH rest' _ _ _ ltac:(lia) H).
        pose proof (utf16_encode_length v).
        rewrite length_app. simpl. lia.
      * pose proof (IH rest' _ _ _ ltac:(lia) H). simpl. lia.
Qed.

End ErrorPageFacts.

Module ErrorPageProperties.
Import ErrorPage ErrorPageFacts.

Definition oops (text : option jsstring) : page :=
  {| heading := "Oops! Something went wrong";
     paragraph := text;
     link_target := "/";
     link_label := "Return to Home" |}.

(** The code units of an ASCII text. *)
Definition units (text : string) : jsstring :=
  map (fun c => Z.of_N (N_of_ascii c)) (list_ascii_of_string text).

(** X16.  What the error page shows of the message it is given.  Without
    a message, or with an empty one, the page comes without a paragraph.
    A message in which no [%] occurs is shown as it is.  A message in
    which some [%] is not followed by two hexadecimal digits makes the
    effect throw a [URIError] before the component is marked mounted:
    nothing of the page is rendered.  A message that is shown is never
    longer than the message given. *)
Theorem error_page_shows_the_message :
  shown None = Some (oops None)
  /\ shown (Some []) = Some (oops None)
  /\ (forall m,
         m <> [] -> (forall c, In c m -> c <> percent) ->
         shown (Some m) = Some (oops (Some m)))
  /\ (forall m,
         escapes_ok m = false ->
         effect (Some m) initial = URIError /\ shown (Some m) = None)
  /\ (forall m text,
         shown (Some m) = Some (oops (Some text)) ->
         (List.length text <= List.length m)%nat).
Proof.
  split; [reflexivity |]. split; [reflexivity |]. split; [| split].
  - intros m Hne Hplain. unfold shown, effect, decodeURIComponent.
    destruct m as [| c rest]; [congruence |].
    now rewrite (decode_plain _ Hplain).
  - intros m Hbad.
    assert (Hthrow : decodeURIComponent m = URIError).
    { unfold decodeURIComponent.
      destruct (decode 0 [] m) as [r |] eqn:E; [| reflexivity].
      rewrite (decode_escapes _ m 0 [] r (le_n _) E) in Hbad.
      discriminate Hbad. }
    unfold shown, effect. rewrite Hthrow.
    destruct m; [discriminate Hbad |]. split; reflexivity.
  - intros m text H. unfold shown, effect in H.
    destruct m as [| c rest]; [discriminate H |].
    unfold decodeURIComponent in H.
    destruct (decode 0 [] (c :: rest)) as [r |] eqn:E; [| discriminate H].
    unfold render in H. cbn [mounted errorMessage negb] in H.
    destruct r as [| x r']; [discriminate H |].
    injection H as <-.
    exact (decode_length _ _ 0 [] _ (le_n _) E).
Qed.

Lemma error_page_shows_the_message_witness :
  shown (Some (units "Session expired"))
  = Some (oops (Some (units "Session expired")))
  /\ shown (Some (units "100% failed")) = None
  /\ shown (Some (units "caf%C3%A9 %E2%82%AC5"))
     = Some (oops (Some [99; 97; 102; 233; 32; 8364; 53])).
Proof.
  destruct error_page_shows_the_message as (_ & _ & Hplain & Hbad & _).
  split; [| split].
  - apply Hplain; [discriminate |].
    intros c Hc. vm_compute in Hc.
    repeat (destruct Hc as [<- | Hc]; [discriminate |]). contradiction.
  - apply Hbad. vm_compute. reflexivity.
  - vm_compute. reflexivity.
Defined.

End ErrorPageProperties.

(** ** The subscription form *)

Module SubscribePlanProperties.
Import SubscribePlan.

Definition is_submitted (fx : effect) : bool :=
  match fx with
  | Toast title _ _ => String.eqb title "Subscription Submitted"
  | _ => false
  end.

Definition is_toast (fx : effect) : bool :=
  match fx with Toast _ _ _ => true | _ => false end.

Definition is_selection (e : event) : bool :=
  match e with ClickSubscribe _ => true | _ => false end.

(** A change of the file input that brings a file. *)
Definition brings_file (e : event) : bool :=
  match e with ChangeFile (Some (_ :: _)) => true | _ => false end.

Definition is_complete (e : event) : bool :=
  match e with ClickComplete => true | _ => false end.

Definition count {A : Type} (p : A -> bool) (l : list A) : nat :=
  List.length (filter p l).

Definition chosen {A : Type} (o : option A) : nat :=
  match o with Some _ => 1 | None => 0 end.

Lemma count_app {A : Type} (p : A -> bool) (l1 l2 : list A) :
  count p (l1 ++ l2) = (count p l1 + count p l2)%nat.
Proof. unfold count. now rewrite filter_app, length_app. Qed.

Lemma run_cons (e : event) (rest : list event) (st : state) :
  run (e :: rest) st
  = (fst (run rest (fst (handle st e))),
     (snd (handle st e) ++ snd (run rest (fst (handle st e))))%list).
Proof.
  cbn [run]. destruct (handle st e) as [st1 fx].
  cbn [fst snd]. now destruct (run rest st1).
Qed.

(** Along a session, from any state: every submission uses up a selection
    and a file, and every click on Complete Subscription is answered by
    one toast. *)
Lemma run_counts (events : list event) :
  forall st,
    (count is_submitted (snd (run events st))
     + chosen (selectedPlan (fst (run events st)))
     <= count is_selection events + chosen (selectedPlan st))%nat
    /\ (count is_submitted (snd (run events st))
        + chosen (paymentProof (fst (run events st)))
        <= count brings_file events + chosen (paymentProof st))%nat
    /\ count is_toast (snd (run events st)) = count is_complete events.
Proof.
  induction events as [| e rest IH]; intros st.
  - cbn. lia.
  - rewrite run_cons. cbn [fst snd]. rewrite !count_app.
    destruct (IH (fst (handle st e))) as (H1 & H2 & H3).
    destruct e as [plan | files |]; cbn [handle fst snd] in *.
    + unfold count in *. cbn [filter List.length is_selection brings_file
        is_complete chosen selectedPlan paymentProof] in *.
      destruct (selectedPlan st); cbn [chosen]; lia.
    + unfold count in *.
      destruct files as [[| f l] |];
        cbn [filter List.length is_selection brings_file is_complete
             handleFileChange chosen selectedPlan paymentProof nth_error]
          in *;
        destruct (paymentProof st); cbn [chosen] in *; lia.
    + unfold handleSubscribe in *.
      destruct (selectedPlan st) as [plan |] eqn:Es,
               (paymentProof st) as [proof |] eqn:Ep;
        unfold count in *;
        cbn [fst snd filter List.length is_submitted is_toast is_selection
             brings_file is_complete chosen selectedPlan paymentProof
             initial String.eqb Ascii.eqb Bool.eqb] in *;
        rewrite ?Es, ?Ep in *; cbn [chosen] in *; lia.
Qed.

(** X17.  The subscription form submits nothing twice.  In every session
    that starts with the form empty, the number of submissions (toasts
    "Subscription Submitted") is at most the number of times a plan was
    chosen and at most the number of times the file input brought a file:
    each submission uses up its plan and its payment proof.  Every click
    on Complete Subscription is answered by exactly one toast, and a
    click right after a submission is answered by the error toast and
    changes nothing. *)
Theorem subscription_needs_plan_and_proof :
  forall events : list event,
    let effects := snd (run events initial) in
    (count is_submitted effects <= count is_selection events)%nat
    /\ (count is_submitted effects <= count brings_file events)%nat
    /\ count is_toast effects = count is_complete events
    /\ (forall st,
           count is_submitted (snd (handleSubscribe st)) = 1%nat ->
           fst (handleSubscribe st) = initial
           /\ handleSubscribe (fst (handleSubscribe st))
              = (initial,
                 [ Toast "Error"
                     "Please select a plan and upload payment proof."
                     (Some "destructive") ])).
Proof.
  intros events effects.
  destruct (run_counts events initial) as (H1 & H2 & H3).
  fold effects in H1, H2, H3. cbn [chosen selectedPlan paymentProof initial]
    in H1, H2.
  split; [lia |]. split; [lia |]. split; [exact H3 |].
  intros st Hs. unfold handleSubscribe in *.
  destruct (selectedPlan st), (paymentProof st); cbn in Hs;
    try discriminate Hs.
  split; reflexivity.
Qed.

End SubscribePlanProperties.

(** ** Whole numbers through [ToString], [parseInt] and [parseFloat] *)

Module ConversionFacts.
Import JS NumberFacts DigitFacts.

Lemma strip_zeros_spec (fuel : nat) :
  forall m z,
    0 < m -> 0 <= z ->
    0 < fst (strip_zeros fuel m z)
    /\ z <= snd (strip_zeros fuel m z)
    /\ fst (strip_zeros fuel m z) * 10 ^ (snd (strip_zeros fuel m z) - z) = m.
Proof.
  induction fuel as [| f IH]; intros m z Hm Hz.
  - simpl. rewrite Z.sub_diag. simpl. lia.
  - cbn [strip_zeros].
    destruct ((m mod 10 =? 0) && negb (m =? 0)) eqn:E.
    + apply andb_true_iff in E. destruct E as [E _]. apply Z.eqb_eq in E.
      pose proof (Z.div_mod m 10 ltac:(lia)) as Hdm.
      assert (Hpos : 0 < m / 10) by (apply Z.div_str_pos; lia).
      destruct (IH (m / 10) (z + 1) Hpos ltac:(lia)) as (H1 & H2 & H3).
      split; [exact H1 |]. split; [lia |].
      replace (snd (strip_zeros f (m / 10) (z + 1)) - z)
        with (Z.succ (snd (strip_zeros f (m / 10) (z + 1)) - (z + 1)))
        by lia.
      rewrite Z.pow_succ_r by lia. lia.
    + simpl. rewrite Z.sub_diag. simpl. lia.
Qed.

Lemma all_digits_app (a b : string) :
  all_digits (a ++ b) = all_digits a && all_digits b.
Proof.
  induction a as [| c a IH]; simpl; [reflexivity |].
  now rewrite IH, andb_assoc.
Qed.

Lemma all_digits_zeros (k : nat) : all_digits (zeros k) = true.
Proof. induction k as [| k IH]; simpl; [reflexivity | exact IH]. Qed.

Lemma digits_value_app (a : Z) (s1 s2 : string) :
  digits_value 10 a (s1 ++ s2) = digits_value 10 (digits_value 10 a s1) s2.
Proof. revert a. induction s1 as [| c s1 IH]; intros a; simpl; auto. Qed.

Lemma digits_value_zeros (a : Z) (k : nat) :
  digits_value 10 a (zeros k) = a * 10 ^ Z.of_nat k.
Proof.
  revert a. induction k as [| k IH]; intros a.
  - simpl. lia.
  - cbn [zeros digits_value]. rewrite IH.
    rewrite Nat2Z.inj_succ, Z.pow_succ_r by lia.
    change (hex_value "0"%char) with (Some 0). lia.
Qed.

Lemma append_not_empty (a b : string) :
  a <> EmptyString -> a ++ b <> EmptyString.
Proof. destruct a; [congruence | discriminate]. Qed.

(** The digits [Number::toString] writes for a whole number n > 0 that is
    less than 10^21: decimal digits only, which read as n. *)
Lemma format_whole (n : Z) :
  0 < n < 10 ^ 21 ->
  format_positive (n # 1) <> EmptyString
  /\ all_digits (format_positive (n # 1)) = true
  /\ digits_value 10 0 (format_positive (n # 1)) = n.
Proof.
  intros Hn. unfold format_positive, significand.
  rewrite Qred_of_Z. cbn [Qden Z.log2 Z.to_nat decimal_places].
  rewrite Qred_of_Z. cbn [Qden Pos.eqb].
  assert (Hm : Qfloor ((n # 1) * (10 ^ 0 # 1)) = n).
  { unfold Qfloor, Qmult. cbn [Qnum Qden Pos.mul Z.pow Z.pow_pos Pos.iter].
    rewrite Z.mul_1_r. apply Z.div_1_r. }
  rewrite Hm.
  destruct (strip_zeros_spec (S (Z.to_nat (Z.log2 n))) n 0 ltac:(lia)
              ltac:(lia)) as (Hs & Hz & Hval).
  destruct (strip_zeros (S (Z.to_nat (Z.log2 n))) n 0) as [s z].
  cbn [fst snd] in Hs, Hz, Hval. rewrite Z.sub_0_r in Hval.
  destruct (Z_to_digits_ok s ltac:(lia)) as (Hne & Hall & Hv & Hlow).
  specialize (Hlow ltac:(lia)).
  assert (Hk : 1 <= slen (Z_to_digits s)).
  { unfold slen. destruct (Z_to_digits s); [congruence | simpl; lia]. }
  assert (Hsum : slen (Z_to_digits s) + z <= 21).
  { destruct (Z_le_gt_dec (slen (Z_to_digits s) + z) 21) as [H | H];
      [exact H | exfalso].
    assert (H21 : 10 ^ 21 <= 10 ^ (slen (Z_to_digits s) - 1 + z))
      by (apply Z.pow_le_mono_r; lia).
    rewrite Z.pow_add_r in H21 by lia.
    assert (Hz10 : 0 < 10 ^ z) by (apply Z.pow_pos_nonneg; lia).
    nia. }
  rewrite Z.sub_0_r.
  assert (Hc1 : (slen (Z_to_digits s) <=? slen (Z_to_digits s) + z) = true)
    by (apply Z.leb_le; lia).
  assert (Hc2 : (slen (Z_to_digits s) + z <=? 21) = true)
    by (apply Z.leb_le; lia).
  rewrite Hc1, Hc2. cbn [andb].
  replace (slen (Z_to_digits s) + z - slen (Z_to_digits s)) with z by lia.
  split; [now apply append_not_empty |].
  split; [now rewrite all_digits_app, Hall, all_digits_zeros |].
  rewrite digits_value_app, Hv, digits_value_zeros.
  rewrite Z2Nat.id by lia. exact Hval.
Qed.

Lemma first_digit (s : string) :
  s <> EmptyString -> all_digits s = true ->
  exists c r, s = String c r /\ is_digit c = true.
Proof.
  destruct s as [| c r]; [congruence |]. simpl. intros _ H.
  apply andb_true_iff in H. destruct H as [H _]. eauto.
Qed.

Lemma digit_code (c : ascii) : is_digit c = true -> 48 <= code c <= 57.
Proof.
  unfold is_digit. intros H. apply andb_true_iff in H.
  destruct H as [H1 H2]. apply Z.leb_le in H1. apply Z.leb_le in H2. lia.
Qed.

Lemma digit_is_no_sign (c : ascii) (r : string) :
  is_digit c = true ->
  trim_start (String c r) = String c r
  /\ split_sign (String c r) = (false, String c r)
  /\ drop_prefix "Infinity" (String c r) = None.
Proof.
  intros Hc. pose proof (digit_code c Hc) as Hcode.
  split; [simpl; now rewrite (digit_not_space c Hc) |].
  split.
  - unfold split_sign.
    destruct c as [[] [] [] [] [] [] [] []]; try reflexivity;
      unfold code in Hcode; simpl in Hcode; lia.
  - unfold drop_prefix. cbn [String.prefix].
    destruct (ascii_dec "I" c) as [<- |]; [| reflexivity].
    unfold code in Hcode. simpl in Hcode. lia.
Qed.

Lemma read_float_digits (input : string) (neg : bool) (c : ascii)
  (r : string) :
  split_sign (trim_start input) = (neg, String c r) ->
  is_digit c = true -> all_digits (String c r) = true ->
  read_float input
  = Some (of_Z (if neg then - digits_value 10 0 (String c r)
                else digits_value 10 0 (String c r)), EmptyString).
Proof.
  intros Hs Hc Hall.
  destruct (digit_is_no_sign c r Hc) as (_ & _ & Hinf).
  unfold read_float. rewrite Hs. cbv iota. rewrite Hinf.
  rewrite (span_all_digits _ Hall). cbv iota.
  assert (Hnil : forall x : string, x ++ EmptyString = x)
    by (induction x as [| a x IHx]; simpl; congruence).
  rewrite Hnil.
  assert (Hlen : (slen (String c r) + slen EmptyString =? 0) = false).
  { apply Z.eqb_neq. unfold slen. simpl String.length. lia. }
  rewrite Hlen. cbv zeta. cbn [exponent_part]. cbv iota.
  change (0 - slen EmptyString) with 0.
  unfold scale10. change (0 <=? 0) with true. cbv iota.
  change (10 ^ 0) with 1. now rewrite Z.mul_1_r.
Qed.

(** [parseFloat] reads a run of decimal digits, with or without a minus
    sign before it, as the whole number it writes; so does [parseInt]. *)
Lemma parseFloat_digits (s : string) (negative : bool) :
  s <> EmptyString -> all_digits s = true ->
  parseFloat_string ((if negative then "-" else "") ++ s)
  = of_Z (if negative then - digits_value 10 0 s else digits_value 10 0 s).
Proof.
  intros Hne Hall.
  destruct (first_digit s Hne Hall) as (c & r & -> & Hc).
  destruct (digit_is_no_sign c r Hc) as (Htrim & Hsign & _).
  unfold parseFloat_string.
  rewrite (read_float_digits _ negative c r); [reflexivity | | exact Hc
                                               | exact Hall].
  destruct negative.
  - reflexivity.
  - change ("" ++ String c r) with (String c r). now rewrite Htrim.
Qed.

Lemma parseInt_signed_digits (s : string) (negative : bool) :
  s <> EmptyString -> all_digits s = true ->
  parseInt_string ((if negative then "-" else "") ++ s)
  = of_Z (if negative then - digits_value 10 0 s else digits_value 10 0 s).
Proof.
  intros Hne Hall. destruct negative; [| now apply parseInt_digits].
  pose proof (parseInt_digits s Hne Hall) as Hpos.
  destruct (first_digit s Hne Hall) as (c & r & -> & Hc).
  destruct (digit_is_no_sign c r Hc) as (Htrim & Hsign & _).
  unfold parseInt_string in *.
  change ("-" ++ String c r) with (String "-" (String c r)).
  change (trim_start (String "-" (String c r)))
    with (String "-" (String c r)).
  change (split_sign (String "-" (String c r))) with (true, String c r).
  rewrite Htrim, Hsign in Hpos. cbv iota in *.
  destruct (match String c r with
            | String "0"%char (String x r0) =>
                if (code x =? 120) || (code x =? 88) then (16, r0)
                else (10, String c r)
            | _ => (10, String c r)
            end) as [radix body].
  destruct (span (if radix =? 16 then is_hex_digit else is_digit) body)
    as [z rest].
  destruct (slen z =? 0); [discriminate Hpos |].
  unfold of_Z in *. injection Hpos as Hpos. now rewrite Hpos.
Qed.

(** A whole number of at most 2^53 in absolute value, written by
    [ToString] and read back by [parseInt] or [parseFloat], is itself. *)
Lemma whole_number_round_trip (n : Z) :
  - 2 ^ 53 <= n <= 2 ^ 53 ->
  parseInt (Number (of_Z n)) = Some (of_Z n)
  /\ parseFloat (Number (of_Z n)) = Some (of_Z n).
Proof.
  intros Hn. unfold parseInt, parseFloat. cbn [ToString option_map].
  unfold Number_toString, of_Z, Qsign. cbn [Qnum].
  destruct (Z.sgn n =? 0) eqn:E0.
  - apply Z.eqb_eq in E0. apply (proj1 (Z.sgn_null_iff n)) in E0. subst n.
    split; reflexivity.
  - apply Z.eqb_neq in E0.
    assert (H21 : 2 ^ 53 < 10 ^ 21) by (vm_compute; reflexivity).
    destruct (Z.sgn n <? 0) eqn:Es.
    + apply Z.ltb_lt in Es. apply Z.sgn_neg_iff in Es.
      assert (Habs : Qabs (n # 1) = (- n) # 1).
      { unfold Qabs. f_equal. lia. }
      rewrite Habs.
      destruct (format_whole (- n) ltac:(lia)) as (Hne & Hall & Hv).
      rewrite (parseInt_signed_digits _ true Hne Hall).
      rewrite (parseFloat_digits _ true Hne Hall).
      rewrite Hv, Z.opp_involutive. split; reflexivity.
    + apply Z.ltb_ge in Es.
      assert (Hpos : 0 < n).
      { destruct (Z.sgn_spec n) as [[? ?] | [[? ?] | [? ?]]]; lia. }
      destruct (format_whole n ltac:(lia)) as (Hne & Hall & Hv).
      pose proof (parseInt_signed_digits _ false Hne Hall) as Hi.
      pose proof (parseFloat_digits _ false Hne Hall) as Hf.
      cbn [append] in Hi, Hf. rewrite Hi, Hf, Hv. split; reflexivity.
Qed.

End ConversionFacts.

Module ConversionProperties.
Import JS Zod Plans NumberFacts ZodFacts PlanFacts ConversionFacts.

(** [POST] without its two conversion lines: the payload validated as it
    was sent, then created. *)
Definition POST_as_sent (json : value) (newId : string) (now : Z)
  (db : Store.database) : response * Store.database :=
  match parse planSchema json with
  | inl errors => ({| status := 400; json := ZodIssues errors |}, db)
  | inr parsed =>
      match plan_create parsed newId now db with
      | inl e => (server_error e, db)
      | inr (db', plan) => ({| status := 200; json := CreatedPlan plan |}, db')
      end
  end.

(** X18.  Whole numbers pass the conversions of [POST] unchanged.  A price
    and a duration sent as JSON numbers that are whole and at most 2^53 in
    absolute value are written by [ToString] and read back by
    [parseFloat] and [parseInt] as the same numbers, so that an
    administrator's payload carrying them is answered exactly as if it
    were validated as it was sent. *)
Theorem whole_numbers_are_taken_as_sent :
  forall (s : option session) (props : list (string * value)) (p d : Z)
         (newId : string) (now : Z) (db : Store.database),
    not_admin s = false ->
    - 2 ^ 53 <= p <= 2 ^ 53 -> - 2 ^ 53 <= d <= 2 ^ 53 ->
    get "price" props = Number (of_Z p) ->
    get "duration" props = Number (of_Z d) ->
    parseFloat (get "price" props) = Some (of_Z p)
    /\ parseInt (get "duration" props) = Some (of_Z d)
    /\ POST s (Some (Object props)) newId now db
       = POST_as_sent (Object props) newId now db.
Proof.
  intros s props p d newId now db Ha Hp Hd Gp Gd.
  destruct (whole_number_round_trip p Hp) as [_ Hfloat].
  destruct (whole_number_round_trip d Hd) as [Hint _].
  rewrite Gp, Gd. split; [exact Hfloat |]. split; [exact Hint |].
  rewrite (POST_validated s props (of_Z p) (of_Z d))
    by (rewrite ?Gp, ?Gd; assumption).
  unfold POST_as_sent, planSchema.
  rewrite (PlanProperties.parse_on_shape _ (coerced (of_Z p) (of_Z d) props)
             props); [reflexivity |].
  intros k sk _. rewrite PlanClaims.coerced_get.
  destruct (String.eqb k "duration") eqn:Ed.
  - apply String.eqb_eq in Ed. subst k. now rewrite Gd.
  - destruct (String.eqb k "price") eqn:Ep; [| reflexivity].
    apply String.eqb_eq in Ep. subst k. now rewrite Gp.
Qed.

Lemma whole_numbers_are_taken_as_sent_witness :
  parseFloat (Number (of_Z 50)) = Some (of_Z 50)
  /\ parseInt (Number (of_Z 30)) = Some (of_Z 30)
  /\ POST PlanClaims.administrator
       (Some (Object (PlanClaims.basic (Number (of_Z 50))
                                       (Number (of_Z 30))))) "p1" 100 []
     = POST_as_sent
         (Object (PlanClaims.basic (Number (of_Z 50)) (Number (of_Z 30))))
         "p1" 100 [].
Proof.
  exact (whole_numbers_are_taken_as_sent PlanClaims.administrator
           (PlanClaims.basic (Number (of_Z 50)) (Number (of_Z 30))) 50 30
           "p1" 100 [] eq_refl
           ltac:(split; vm_compute; discriminate)
           ltac:(split; vm_compute; discriminate) eq_refl eq_refl).
Defined.

End ConversionProperties.
